(** * go-asynq: payloads, handlers and demo driver

    A shallow embedding of [common/task.go] and [main.go] of the go-asynq
    demo, of the parts of Go's [unicode/utf8], [strconv] and
    [encoding/json] packages the driver calls on its three payload
    structs, and of the task-queue core the specification describes.

    Conventions.
    - A Go [string] and a Go [[]byte] are both a [string] here: a finite
      sequence of 8-bit [ascii] values.  A format string is kept as the
      bytes of the Go source literal (a backslash escape is not
      interpreted).
    - [int], [int64], [uint32], [uint64] and [time.Duration] values are
      integers in [Z]; the range of the Go type is a well-formedness
      predicate, and arithmetic that can wrap is written with [wrap64].
    - A byte value and a rune are numbers in [N].
    - A function that prints, sleeps or calls the queue library returns
      the trace of those effects together with its outcome. *)

From Stdlib Require Import ZArith NArith List String Ascii Bool Lia.
From stdpp Require Import base gmap strings.
Import ListNotations.

(** ** Go base types *)

Module Go.

Abbreviation bytes := string.

Definition int64_min : Z := - 2 ^ 63.
Definition int64_max : Z := 2 ^ 63 - 1.
Definition uint32_max : Z := 2 ^ 32 - 1.
Definition uint64_max : Z := 2 ^ 64 - 1.

Definition is_int64 (z : Z) : Prop := (int64_min <= z <= int64_max)%Z.
Definition is_uint32 (z : Z) : Prop := (0 <= z <= uint32_max)%Z.
Definition is_uint64 (z : Z) : Prop := (0 <= z <= uint64_max)%Z.

(** Two's complement wrap-around of an [int64] result. *)
Definition wrap64 (z : Z) : Z := ((z + 2 ^ 63) mod 2 ^ 64 - 2 ^ 63)%Z.

(** [uint64(x)]: conversion of an integer to [uint64]. *)
Definition to_uint64 (z : Z) : Z := (z mod 2 ^ 64)%Z.

(** [time.Duration] is an [int64] count of nanoseconds. *)
Definition Nanosecond : Z := 1.
Definition Millisecond : Z := 1000000.
Definition Second : Z := 1000000000.

(** [a * b] on [time.Duration]. *)
Definition dur_mul (a b : Z) : Z := wrap64 (a * b).

(** The code of a byte. *)
Definition code (b : ascii) : N := N_of_ascii b.
Definition byte_of (n : N) : ascii := ascii_of_N n.

(** [len(s)], [s[n:]] and [s[:n]]. *)
Definition len (s : string) : nat := String.length s.

Fixpoint drop (n : nat) (s : string) : string :=
  match n, s with
  | O, _ => s
  | S n', String _ s' => drop n' s'
  | S _, EmptyString => EmptyString
  end.

Fixpoint take (n : nat) (s : string) : string :=
  match n, s with
  | O, _ => EmptyString
  | S n', String b s' => String b (take n' s')
  | S _, EmptyString => EmptyString
  end.

(** The double quote byte, the backslash, and the bytes the Go sources
    write as backslash escapes. *)
Definition dquote : ascii := "034"%char.
Definition backslash : ascii := "092"%char.
Definition ch_bs : ascii := "008"%char.   (* \b *)
Definition ch_ht : ascii := "009"%char.   (* \t *)
Definition ch_lf : ascii := "010"%char.   (* \n *)
Definition ch_ff : ascii := "012"%char.   (* \f *)
Definition ch_cr : ascii := "013"%char.   (* \r *)

End Go.
Import Go.

(** ** unicode/utf8 and unicode/utf16 *)

Module utf8.

Definition RuneError : N := 65533.     (* U+FFFD *)
Definition RuneSelf : N := 128.
Definition MaxRune : N := 1114111.     (* U+10FFFF *)
Definition UTFMax : nat := 4.

(** A continuation byte, [0x80 <= b <= 0xBF]. *)
Definition is_cont (b : N) : bool := (128 <=? b)%N && (b <=? 191)%N.

Definition in_range (lo hi b : N) : bool := (lo <=? b)%N && (b <=? hi)%N.

(** The six payload bits of a continuation byte, and the payload of a
    leading byte under [mask]. *)
Definition low6 (b : N) : N := N.land b 63.

(** [utf8.DecodeRuneInString]: the first rune of [s] and its width in
    bytes; [(RuneError, 0)] on the empty string and [(RuneError, 1)] on
    an encoding that is not well formed (a stray continuation byte, a
    truncated or overlong sequence, a surrogate, a value above
    U+10FFFF).  The second-byte ranges are those of the package's
    [acceptRanges] table. *)
Definition DecodeRune (s : string) : N * nat :=
  match s with
  | EmptyString => (RuneError, 0%nat)
  | String c0 s1 =>
    let b0 := code c0 in
    if (b0 <? RuneSelf)%N then (b0, 1%nat)
    else if in_range 194 223 b0 then
      match s1 with
      | String c1 _ =>
        let b1 := code c1 in
        if is_cont b1
        then (N.lor (N.shiftl (N.land b0 31) 6) (low6 b1), 2%nat)
        else (RuneError, 1%nat)
      | _ => (RuneError, 1%nat)
      end
    else if in_range 224 239 b0 then
      match s1 with
      | String c1 (String c2 _) =>
        let b1 := code c1 in
        let b2 := code c2 in
        let lo := if (b0 =? 224)%N then 160%N else 128%N in
        let hi := if (b0 =? 237)%N then 159%N else 191%N in
        if in_range lo hi b1 && is_cont b2
        then (N.lor (N.lor (N.shiftl (N.land b0 15) 12)
                           (N.shiftl (low6 b1) 6)) (low6 b2), 3%nat)
        else (RuneError, 1%nat)
      | _ => (RuneError, 1%nat)
      end
    else if in_range 240 244 b0 then
      match s1 with
      | String c1 (String c2 (String c3 _)) =>
        let b1 := code c1 in
        let b2 := code c2 in
        let b3 := code c3 in
        let lo := if (b0 =? 240)%N then 144%N else 128%N in
        let hi := if (b0 =? 244)%N then 143%N else 191%N in
        if in_range lo hi b1 && is_cont b2 && is_cont b3
        then (N.lor (N.lor (N.lor (N.shiftl (N.land b0 7) 18)
                                  (N.shiftl (low6 b1) 12))
                           (N.shiftl (low6 b2) 6)) (low6 b3), 4%nat)
        else (RuneError, 1%nat)
      | _ => (RuneError, 1%nat)
      end
    else (RuneError, 1%nat)
  end.

Definition is_surrogate (r : N) : bool := (55296 <=? r)%N && (r <=? 57343)%N.

Definition cont_byte (r : N) (shift : N) : ascii :=
  byte_of (N.lor 128 (N.land (N.shiftr r shift) 63)).

Definition encode3 (r : N) : string :=
  String (byte_of (N.lor 224 (N.shiftr r 12)))
    (String (cont_byte r 6) (String (cont_byte r 0) EmptyString)).

(** [utf8.EncodeRune] / [utf8.AppendRune]: the UTF-8 encoding of a rune;
    a surrogate or a value above [MaxRune] is encoded as [RuneError]. *)
Definition EncodeRune (r : N) : string :=
  if (r <? 128)%N then String (byte_of r) EmptyString
  else if (r <? 2048)%N then
    String (byte_of (N.lor 192 (N.shiftr r 6)))
      (String (cont_byte r 0) EmptyString)
  else if is_surrogate r || (MaxRune <? r)%N then encode3 RuneError
  else if (r <? 65536)%N then encode3 r
  else
    String (byte_of (N.lor 240 (N.shiftr r 18)))
      (String (cont_byte r 12)
        (String (cont_byte r 6) (String (cont_byte r 0) EmptyString))).

End utf8.

Module utf16.

Definition IsSurrogate (r : N) : bool := (55296 <=? r)%N && (r <? 57344)%N.

(** [utf16.DecodeRune r1 r2]: the rune of a surrogate pair, [U+FFFD] when
    the pair is not a high surrogate followed by a low one.  [None] for
    [r2] is the [-1] that [getu4] returns when no escape follows. *)
Definition DecodeRune (r1 : N) (r2 : option N) : N :=
  match r2 with
  | Some r2 =>
    if (55296 <=? r1)%N && (r1 <? 56320)%N && (56320 <=? r2)%N && (r2 <? 57344)%N
    then (N.lor (N.shiftl (r1 - 55296) 10) (r2 - 56320) + 65536)%N
    else utf8.RuneError
  | None => utf8.RuneError
  end.

End utf16.

(** ** strconv *)

Module strconv.

Definition digit_char (d : N) : ascii := byte_of (48 + d).

(** The loop of [formatBits] in base 10: the digits of [n], most
    significant first, prepended to [acc].  A [uint64] has at most 20
    digits. *)
Fixpoint format_digits (fuel : nat) (n : N) (acc : string) : string :=
  match fuel with
  | O => acc
  | S fuel' =>
    let acc' := String (digit_char (n mod 10)) acc in
    if (n <? 10)%N then acc' else format_digits fuel' (n / 10) acc'
  end.

Definition FormatUint (n : N) : string := format_digits 20 n EmptyString.

(** [strconv.AppendInt(nil, i, 10)] for an [int64] value. *)
Definition FormatInt (i : Z) : string :=
  if (i <? 0)%Z then String "-" (FormatUint (Z.to_N (- i)))
  else FormatUint (Z.to_N i).

Definition is_digit (c : ascii) : bool := (48 <=? code c)%N && (code c <=? 57)%N.

(** The digit loop of [ParseUint] in base 10: [None] on a byte that is
    not a digit. *)
Fixpoint parse_digits (s : string) (acc : N) : option N :=
  match s with
  | EmptyString => Some acc
  | String c s' =>
    if is_digit c then parse_digits s' (acc * 10 + (code c - 48))%N else None
  end.

(** [strconv.ParseInt(s, 10, 64)]: an optional sign, then one or more
    decimal digits; [None] for a syntax error and for a value outside
    [int64]. *)
Definition ParseInt (s : string) : option Z :=
  let '(neg, body) :=
    match s with
    | String c s' =>
      if (c =? "-")%char then (true, s')
      else if (c =? "+")%char then (false, s')
      else (false, s)
    | EmptyString => (false, s)
    end in
  match body with
  | EmptyString => None
  | _ =>
    match parse_digits body 0 with
    | None => None
    | Some n =>
      let z := if neg then (- Z.of_N n)%Z else Z.of_N n in
      if (int64_min <=? z)%Z && (z <=? int64_max)%Z then Some z else None
    end
  end.

End strconv.

(** ** encoding/json

    The encoder and decoder of Go's [encoding/json] as they act on a
    struct whose fields are integers and strings with a [json:"name"] tag
    (no [omitempty], no embedded field), which is what the driver's three
    payload types are.  The decoder reads the whole JSON grammar: what it
    does not decode into a field it still has to parse and skip. *)

Module json.

(** *** Encoding *)

(** [hex[n]] for the table [hex = "0123456789abcdef"]. *)
Definition hex (n : N) : ascii :=
  if (n <? 10)%N then byte_of (48 + n) else byte_of (87 + n).

(** [htmlSafeSet[b]]: the ASCII bytes [Marshal] copies into a string
    unescaped: all of [0x20..0x7f] but the double quote, [&], [<], [>]
    and the backslash. *)
Definition htmlSafe (b : ascii) : bool :=
  let n := code b in
  (32 <=? n)%N && (n <? 128)%N
  && negb (n =? 34)%N && negb (n =? 38)%N && negb (n =? 60)%N
  && negb (n =? 62)%N && negb (n =? 92)%N.

(** The [switch b] of [appendString] for an ASCII byte outside
    [htmlSafeSet]. *)
Definition escape_byte (b : ascii) : string :=
  if (b =? backslash)%char || (b =? dquote)%char
  then String backslash (String b EmptyString)
  else if (b =? ch_bs)%char then "\b"
  else if (b =? ch_ff)%char then "\f"
  else if (b =? ch_lf)%char then "\n"
  else if (b =? ch_cr)%char then "\r"
  else if (b =? ch_ht)%char then "\t"
  else "\u00" +:+ String (hex (N.shiftr (code b) 4))
                   (String (hex (N.land (code b) 15)) EmptyString).

(** The loop of [appendString(dst, src, escapeHTML = true)]: one
    iteration for each rune of [src]. *)
Fixpoint escape (fuel : nat) (src : string) : string :=
  match fuel with
  | O => EmptyString
  | S fuel' =>
    match src with
    | EmptyString => EmptyString
    | String b rest =>
      if (code b <? utf8.RuneSelf)%N then
        (if htmlSafe b then String b EmptyString else escape_byte b)
        +:+ escape fuel' rest
      else
        let '(c, size) := utf8.DecodeRune (take utf8.UTFMax src) in
        if (c =? utf8.RuneError)%N && (size =? 1)%nat then
          "\ufffd" +:+ escape fuel' rest
        else if (c =? 8232)%N || (c =? 8233)%N then
          "\u202" +:+ String (hex (N.land c 15)) (escape fuel' (drop size src))
        else take size src +:+ escape fuel' (drop size src)
    end
  end.

Definition appendString (src : string) : string :=
  String dquote (escape (len src) src +:+ String dquote EmptyString).

(** The value encoders of the two field kinds. *)
Definition encodeInt (i : Z) : string := strconv.FormatInt i.
Definition encodeString (s : string) : string := appendString s.

(** One member of an encoded struct: the quoted field name, a colon and
    the encoded value. *)
Definition member (name value : string) : string :=
  appendString name +:+ ":" +:+ value.

Fixpoint join_members (ms : list string) : string :=
  match ms with
  | [] => EmptyString
  | [m] => m
  | m :: ms' => m +:+ "," +:+ join_members ms'
  end.

(** The struct encoder: the members in field order between braces. *)
Definition encodeStruct (ms : list string) : string :=
  "{" +:+ join_members ms +:+ "}".

(** *** Parsing *)

#[local] Set Warnings "-register-all".

Inductive Value : Type :=
| Null
| Bool (b : bool)
| Number (lit : string)
| Str (s : string)
| Array (elems : list Value)
| Object (members : list (string * Value)).

Definition maxNestingDepth : N := 10000.

Definition isSpace (c : ascii) : bool :=
  (c =? " ")%char || (c =? ch_ht)%char || (c =? ch_cr)%char || (c =? ch_lf)%char.

Fixpoint skip_space (s : string) : string :=
  match s with
  | String c s' => if isSpace c then skip_space s' else s
  | EmptyString => s
  end.

(** The longest prefix of decimal digits, and what follows it. *)
Fixpoint span_digits (s : string) : string * string :=
  match s with
  | String c s' =>
    if strconv.is_digit c
    then let '(ds, r) := span_digits s' in (String c ds, r)
    else (EmptyString, s)
  | EmptyString => (EmptyString, s)
  end.

(** One or more digits. *)
Definition digits1 (s : string) : option (string * string) :=
  match span_digits s with
  | (EmptyString, _) => None
  | (ds, r) => Some (ds, r)
  end.

(** The number states of the scanner: an optional minus sign; an integer
    part, which is a single 0 or a digit from 1 to 9 followed by any
    digits; an optional fraction, a dot and one or more digits; an
    optional exponent, e or E, an optional sign and one or more digits.
    The result is the literal and what follows it. *)
Definition scan_int (s : string) : option (string * string) :=
  match s with
  | String c s' =>
    if (c =? "0")%char then Some ("0", s')
    else if strconv.is_digit c
    then let '(ds, r) := span_digits s' in Some (String c ds, r)
    else None
  | EmptyString => None
  end.

Definition scan_frac (s : string) : option (string * string) :=
  match s with
  | String c s' =>
    if (c =? ".")%char then
      match digits1 s' with
      | Some (ds, r) => Some (String c ds, r)
      | None => None
      end
    else Some (EmptyString, s)
  | EmptyString => Some (EmptyString, s)
  end.

Definition scan_exp (s : string) : option (string * string) :=
  match s with
  | String c s' =>
    if (c =? "e")%char || (c =? "E")%char then
      let '(sign, s'') :=
        match s' with
        | String c' r =>
          if (c' =? "+")%char || (c' =? "-")%char
          then (String c' EmptyString, r) else (EmptyString, s')
        | EmptyString => (EmptyString, s')
        end in
      match digits1 s'' with
      | Some (ds, r) => Some (String c (sign +:+ ds), r)
      | None => None
      end
    else Some (EmptyString, s)
  | EmptyString => Some (EmptyString, s)
  end.

Definition scan_number (s : string) : option (string * string) :=
  let '(sign, s0) :=
    match s with
    | String c s' =>
      if (c =? "-")%char then (String c EmptyString, s') else (EmptyString, s)
    | EmptyString => (EmptyString, s)
    end in
  match scan_int s0 with
  | None => None
  | Some (ip, s1) =>
    match scan_frac s1 with
    | None => None
    | Some (fp, s2) =>
      match scan_exp s2 with
      | None => None
      | Some (ep, s3) => Some (sign +:+ ip +:+ fp +:+ ep, s3)
      end
    end
  end.

Definition hex_val (c : ascii) : option N :=
  let n := code c in
  if (48 <=? n)%N && (n <=? 57)%N then Some (n - 48)%N
  else if (97 <=? n)%N && (n <=? 102)%N then Some (n - 87)%N
  else if (65 <=? n)%N && (n <=? 70)%N then Some (n - 55)%N
  else None.

(** Four hexadecimal digits at the head of [s]: their value and the rest. *)
Definition hex4 (s : string) : option (N * string) :=
  match s with
  | String c0 (String c1 (String c2 (String c3 r))) =>
    match hex_val c0, hex_val c1, hex_val c2, hex_val c3 with
    | Some h0, Some h1, Some h2, Some h3 =>
      Some (N.lor (N.lor (N.lor (N.shiftl h0 12) (N.shiftl h1 8))
                         (N.shiftl h2 4)) h3, r)
    | _, _, _, _ => None
    end
  | _ => None
  end.

(** [getu4]: the value of a [\uXXXX] escape at the head of [s]. *)
Definition getu4 (s : string) : option (N * string) :=
  match s with
  | String c0 (String c1 r) =>
    if (c0 =? backslash)%char && (c1 =? "u")%char then hex4 r else None
  | _ => None
  end.

Definition prepend (pre : string) (r : option (string * string))
  : option (string * string) :=
  match r with
  | Some (t, rest) => Some (pre +:+ t, rest)
  | None => None
  end.

(** The string states of the scanner together with [unquoteBytes]: [s]
    starts after the opening quote; the result is the unquoted string
    and what follows the closing quote.  A control byte and a malformed
    escape are syntax errors; bytes that are not well-formed UTF-8 are
    replaced by U+FFFD, as is an unpaired surrogate escape. *)
Fixpoint unquote (fuel : nat) (s : string) : option (string * string) :=
  match fuel with
  | O => None
  | S fuel' =>
    match s with
    | EmptyString => None
    | String c rest =>
      if (c =? dquote)%char then Some (EmptyString, rest)
      else if (c =? backslash)%char then
        match rest with
        | EmptyString => None
        | String e rest' =>
          let simple (b : ascii) :=
            prepend (String b EmptyString) (unquote fuel' rest') in
          if (e =? dquote)%char || (e =? backslash)%char || (e =? "/")%char
          then simple e
          else if (e =? "b")%char then simple ch_bs
          else if (e =? "f")%char then simple ch_ff
          else if (e =? "n")%char then simple ch_lf
          else if (e =? "r")%char then simple ch_cr
          else if (e =? "t")%char then simple ch_ht
          else if (e =? "u")%char then
            match hex4 rest' with
            | None => None
            | Some (rr, rest2) =>
              if utf16.IsSurrogate rr then
                let rr1 := getu4 rest2 in
                let dec := utf16.DecodeRune rr (option_map fst rr1) in
                if negb (dec =? utf8.RuneError)%N
                then prepend (utf8.EncodeRune dec) (unquote fuel' (drop 6 rest2))
                else prepend (utf8.EncodeRune utf8.RuneError) (unquote fuel' rest2)
              else prepend (utf8.EncodeRune rr) (unquote fuel' rest2)
            end
          else None
        end
      else if (code c <? 32)%N then None
      else if (code c <? utf8.RuneSelf)%N
      then prepend (String c EmptyString) (unquote fuel' rest)
      else
        let '(rr, size) := utf8.DecodeRune s in
        prepend (utf8.EncodeRune rr) (unquote fuel' (drop size s))
    end
  end.

Definition literal (word : string) (v : Value) (s : string)
  : option (Value * string) :=
  if String.prefix word s then Some (v, drop (len word) s) else None.

(** The scanner and the value reader: [parse_value] reads one value at
    the head of [s] (no leading space); [parse_members] reads the members
    of an object from its first key to the closing brace, [parse_elems]
    the elements of an array from its first element to the closing
    bracket.  [depth] is the number of arrays and objects [s] is nested
    in.  [fuel] bounds the recursion; every call consumes a byte, so the
    length of the input is enough. *)
Fixpoint parse_value (fuel : nat) (depth : N) (s : string) {struct fuel}
  : option (Value * string) :=
  match fuel with
  | O => None
  | S fuel' =>
    match s with
    | EmptyString => None
    | String c rest =>
      if (c =? "{")%char then
        if (maxNestingDepth <? depth + 1)%N then None
        else
          match skip_space rest with
          | EmptyString => None
          | String c' r =>
            if (c' =? "}")%char then Some (Object [], r)
            else
              match parse_members fuel' (depth + 1)%N (String c' r) with
              | Some (ms, r') => Some (Object ms, r')
              | None => None
              end
          end
      else if (c =? "[")%char then
        if (maxNestingDepth <? depth + 1)%N then None
        else
          match skip_space rest with
          | EmptyString => None
          | String c' r =>
            if (c' =? "]")%char then Some (Array [], r)
            else
              match parse_elems fuel' (depth + 1)%N (String c' r) with
              | Some (vs, r') => Some (Array vs, r')
              | None => None
              end
          end
      else if (c =? dquote)%char then
        match unquote (len rest) rest with
        | Some (t, r) => Some (Str t, r)
        | None => None
        end
      else if (c =? "t")%char then literal "true" (Bool true) s
      else if (c =? "f")%char then literal "false" (Bool false) s
      else if (c =? "n")%char then literal "null" Null s
      else if (c =? "-")%char || strconv.is_digit c then
        match scan_number s with
        | Some (lit, r) => Some (Number lit, r)
        | None => None
        end
      else None
    end
  end
with parse_members (fuel : nat) (depth : N) (s : string) {struct fuel}
  : option (list (string * Value) * string) :=
  match fuel with
  | O => None
  | S fuel' =>
    match s with
    | EmptyString => None
    | String c rest =>
      if (c =? dquote)%char then
        match unquote (len rest) rest with
        | None => None
        | Some (key, r1) =>
          match skip_space r1 with
          | EmptyString => None
          | String c1 r2 =>
            if (c1 =? ":")%char then
              match parse_value fuel' depth (skip_space r2) with
              | None => None
              | Some (v, r3) =>
                match skip_space r3 with
                | EmptyString => None
                | String c3 r4 =>
                  if (c3 =? "}")%char then Some ([(key, v)], r4)
                  else if (c3 =? ",")%char then
                    match parse_members fuel' depth (skip_space r4) with
                    | Some (ms, r5) => Some ((key, v) :: ms, r5)
                    | None => None
                    end
                  else None
                end
              end
            else None
          end
        end
      else None
    end
  end
with parse_elems (fuel : nat) (depth : N) (s : string) {struct fuel}
  : option (list Value * string) :=
  match fuel with
  | O => None
  | S fuel' =>
    match parse_value fuel' depth s with
    | None => None
    | Some (v, r1) =>
      match skip_space r1 with
      | EmptyString => None
      | String c r2 =>
        if (c =? "]")%char then Some ([v], r2)
        else if (c =? ",")%char then
          match parse_elems fuel' depth (skip_space r2) with
          | Some (vs, r3) => Some (v :: vs, r3)
          | None => None
          end
        else None
      end
    end
  end.

(** [checkValid] and the value reader on a whole input: one value, with
    white space allowed around it and nothing else. *)
Definition parse (data : string) : option Value :=
  match parse_value (S (2 * len data)) 0 (skip_space data) with
  | Some (v, rest) =>
    match skip_space rest with
    | EmptyString => Some v
    | String _ _ => None
    end
  | None => None
  end.

(** *** Decoding into a struct *)

Inductive Error : Type :=
| SyntaxError
| UnmarshalTypeError (value : string) (field : string).

(** What [literalStore], [array] and [object] do with a value for a field
    of kind [A]: store it, leave the field alone (a JSON [null]), or
    report a type error that describes the value. *)
Inductive Stored (A : Type) : Type :=
| Keep
| Put (a : A)
| Mismatch (value : string).
Arguments Keep {A}.
Arguments Put {A} a.
Arguments Mismatch {A} value.

Definition describe (v : Value) : string :=
  match v with
  | Null => "null"
  | Bool _ => "bool"
  | Number _ => "number"
  | Str _ => "string"
  | Array _ => "array"
  | Object _ => "object"
  end.

(** A field of kind [int] or [int64]. *)
Definition storeInt (v : Value) : Stored Z :=
  match v with
  | Null => Keep
  | Number lit =>
    match strconv.ParseInt lit with
    | Some z => Put z
    | None => Mismatch ("number " +:+ lit)
    end
  | _ => Mismatch (describe v)
  end.

(** A field of kind [string]. *)
Definition storeString (v : Value) : Stored string :=
  match v with
  | Null => Keep
  | Str s => Put s
  | _ => Mismatch (describe v)
  end.

(** A field of a struct [T] as the decoder sees it: its JSON name and
    how a value is stored into it. *)
Record Field (T : Type) : Type := mkField {
  name : string;
  store : Value -> T -> Stored T
}.
Arguments mkField {T} name store.
Arguments name {T} f.
Arguments store {T} f v t.

Definition intField {T : Type} (n : string) (set : T -> Z -> T) : Field T :=
  mkField n (fun v t =>
    match storeInt v with
    | Keep => Keep
    | Put z => Put (set t z)
    | Mismatch d => Mismatch d
    end).

Definition stringField {T : Type} (n : string) (set : T -> string -> T)
  : Field T :=
  mkField n (fun v t =>
    match storeString v with
    | Keep => Keep
    | Put z => Put (set t z)
    | Mismatch d => Mismatch d
    end).

(** [foldRune] on the runes that matter for a field name made of ASCII
    bytes: the only runes outside ASCII whose case-folding orbit meets
    ASCII are U+017F (long s) and U+212A (Kelvin sign). *)
Definition foldRune (r : N) : N :=
  if (r =? 383)%N then 83%N else if (r =? 8490)%N then 75%N else r.

(** [foldName]: a key with ASCII letters in upper case and every other
    rune replaced by its fold. *)
Fixpoint foldName (fuel : nat) (s : string) : string :=
  match fuel with
  | O => EmptyString
  | S fuel' =>
    match s with
    | EmptyString => EmptyString
    | String c rest =>
      if (code c <? utf8.RuneSelf)%N then
        String (if (97 <=? code c)%N && (code c <=? 122)%N
                then byte_of (code c - 32) else c)
               (foldName fuel' rest)
      else
        let '(r, n) := utf8.DecodeRune s in
        utf8.EncodeRune (foldRune r) +:+ foldName fuel' (drop n s)
    end
  end.

Definition fold (s : string) : string := foldName (len s) s.

(** The field a key selects: the field of that exact name, else the first
    field whose name is equal to the key under case folding. *)
Definition find_field {T : Type} (fields : list (Field T)) (key : string)
  : option (Field T) :=
  match List.find (fun f => String.eqb (name f) key) fields with
  | Some f => Some f
  | None =>
    List.find (fun f => String.eqb (fold (name f)) (fold key)) fields
  end.

(** [saveError]: the first error is the one [Unmarshal] returns. *)
Definition saveError (saved : option Error) (e : Error) : option Error :=
  match saved with
  | Some _ => saved
  | None => Some e
  end.

(** [object] on a struct: the members are stored in input order; a key
    that selects no field is skipped, a value of the wrong kind is
    reported and skipped, and decoding goes on. *)
Fixpoint decode_members {T : Type} (fields : list (Field T))
    (ms : list (string * Value)) (t : T) (saved : option Error)
  : T * option Error :=
  match ms with
  | [] => (t, saved)
  | (key, v) :: ms' =>
    match find_field fields key with
    | None => decode_members fields ms' t saved
    | Some f =>
      match store f v t with
      | Keep => decode_members fields ms' t saved
      | Put t' => decode_members fields ms' t' saved
      | Mismatch d =>
        decode_members fields ms' t
          (saveError saved (UnmarshalTypeError d (name f)))
      end
    end
  end.

(** [json.Unmarshal(data, &t)] for a struct [t] with the given fields:
    the struct after the call and the error returned.  Invalid JSON
    leaves [t] untouched. *)
Definition Unmarshal {T : Type} (fields : list (Field T)) (data : bytes) (t : T)
  : T * option Error :=
  match parse data with
  | None => (t, Some SyntaxError)
  | Some Null => (t, None)
  | Some (Object ms) => decode_members fields ms t None
  | Some v => (t, Some (UnmarshalTypeError (describe v) EmptyString))
  end.

End json.


(** ** Effects

    What a handler or [main] does to the outside world is recorded as a
    trace of events; a run ends by returning a value or by a run-time
    panic. *)

Module Eff.

(** The error value of a wrapper: [fmt.Errorf(format, err)]. *)
Inductive error : Type :=
| Errorf (format : string) (cause : json.Error).

(** An argument of a formatted print. *)
Inductive Arg : Type :=
| AInt (i : Z)
| AStr (s : string)
| AMegabytes (n : Z)      (* float64(n)/1024/1024 *)
| ADuration (d : Z)
| ATimeFormat (layout : string)   (* time.Now().Format(layout) *)
| AErr (msg : string)
| AJsonErr (e : json.Error).

(** A scheduling option of [client.Enqueue]. *)
Inductive Option_ : Type :=
| ProcessIn (d : Z)
| ProcessAt (t : Z).

Inductive Handler : Type :=
| WelcomeHandler
| EmailHandler
| ServerInfoHandler.

Inductive Event : Type :=
| Printf (format : string) (args : list Arg)
| Println (line : string)
| LogPrintf (format : string) (args : list Arg)
| Sleep (d : Z)
| Getenv (key : string)
| NewClient (addr password : string)
| NewServer (concurrency : Z) (queues : list (string * Z))
| NewServeMux
| HandleFunc (pattern : string) (h : Handler)
| WgAdd (n : Z)
| WgDone
| WgWait
| GoConsumer
| ServerRun
| NewScheduler
| SchedulerRegister (cronspec : string) (typ : string) (payload : bytes)
| SchedulerStart
| SchedulerShutdown
| Enqueue (typ : string) (payload : bytes) (opts : list Option_)
| SignalNotify (sigs : list string)
| SignalReceive
| ServerShutdown
| ClientClose.

Inductive Outcome (A : Type) : Type :=
| Returned (a : A)
| Panicked (msg : string).
Arguments Returned {A} a.
Arguments Panicked {A} msg.

(** A run: the events so far and how it ended. *)
Definition Run (A : Type) : Type := list Event * Outcome A.

Definition ret {A : Type} (a : A) : Run A := ([], Returned a).

Definition bind {A B : Type} (m : Run A) (k : A -> Run B) : Run B :=
  match m with
  | (t, Returned a) => let '(t', o) := k a in (t ++ t', o)
  | (t, Panicked msg) => (t, Panicked msg)
  end.

Definition emit (e : Event) : Run unit := ([e], Returned tt).
Definition panic {A : Type} (msg : string) : Run A := ([], Panicked msg).

Definition trace {A : Type} (m : Run A) : list Event := fst m.
Definition outcome {A : Type} (m : Run A) : Outcome A := snd m.

End Eff.
Import Eff.

(** [Run] is a monad in stdpp's sense, which gives the notations
    [x ← m; k] and [m;; k]. *)
#[global] Instance Run_ret : MRet Run := @ret.
#[global] Instance Run_bind : MBind Run := fun A B k m => bind m k.

(** ** context, runtime, asynq: the types the sources name *)

Module context.
(** [context.Context]: the handlers receive one and do not look at it. *)
Inductive Context : Type :=
| Background
| WithTask (id : string).
End context.

Module runtime.

(** The fields of [runtime.MemStats] the server-info handler reads. *)
Record MemStats : Type := mkMemStats {
  Alloc : Z;          (* uint64 *)
  Sys : Z;            (* uint64 *)
  NumGC : Z;          (* uint32 *)
  PauseTotalNs : Z;   (* uint64 *)
  HeapAlloc : Z;      (* uint64 *)
  HeapSys : Z;        (* uint64 *)
  HeapObjects : Z     (* uint64 *)
}.

Definition wf_MemStats (m : MemStats) : Prop :=
  is_uint64 (Alloc m) /\ is_uint64 (Sys m) /\ is_uint32 (NumGC m)
  /\ is_uint64 (PauseTotalNs m) /\ is_uint64 (HeapAlloc m)
  /\ is_uint64 (HeapSys m) /\ is_uint64 (HeapObjects m).

(** What the Go run time reports when a handler asks:
    [runtime.ReadMemStats], [runtime.NumCPU], [runtime.NumGoroutine]. *)
Record State : Type := mkState {
  ReadMemStats : MemStats;
  NumCPU : Z;
  NumGoroutine : Z
}.

(** A run-time state used to instantiate the theorems. *)
Definition sample_state : State :=
  mkState (mkMemStats 1048576 8388608 3 900000 524288 4194304 1200) 8 12.

(** Unsigned 64-bit division; a zero divisor is a run-time panic. *)
Definition div_uint64 (a b : Z) : Run Z :=
  if (b =? 0)%Z then panic "runtime error: integer divide by zero"
  else mret (a / b)%Z.

End runtime.

Module asynq.

(** [asynq.Task]: a type name and payload bytes, built by
    [asynq.NewTask]. *)
Record Task : Type := NewTask {
  Type_ : string;
  Payload : bytes
}.

End asynq.

(** ** common/task.go *)

Module common.

Definition TypeWelcomeMessage : string := "welcome:message".
Definition TypeEmailTask : string := "email:send".
Definition TypeServerInfo : string := "server:info".

Module WelcomePayload.
Record t : Type := mk {
  UserID : Z;          (* int,    json:"user_id" *)
  Username : string;   (* string, json:"username" *)
  Message : string     (* string, json:"message" *)
}.
Definition zero : t := mk 0 EmptyString EmptyString.
Definition wf (p : t) : Prop := is_int64 (UserID p).
End WelcomePayload.

Module EmailPayload.
Record t : Type := mk {
  UserID : Z;          (* int,    json:"user_id" *)
  Email : string;      (* string, json:"email" *)
  Subject : string;    (* string, json:"subject" *)
  Message : string     (* string, json:"message" *)
}.
Definition zero : t := mk 0 EmptyString EmptyString EmptyString.
Definition wf (p : t) : Prop := is_int64 (UserID p).
End EmailPayload.

Module ServerInfoPayload.
Record t : Type := mk {
  Timestamp : Z;       (* int64,  json:"timestamp" *)
  Source : string      (* string, json:"source" *)
}.
Definition zero : t := mk 0 EmptyString.
Definition wf (p : t) : Prop := is_int64 (Timestamp p).
End ServerInfoPayload.

(** HandleWelcomeTask processes welcome message tasks. *)
Definition HandleWelcomeTask (ctx : context.Context) (p : WelcomePayload.t)
  : Run (option error) :=
  emit (Printf "👋 [Welcome] Hello %s (ID: %d)! %s\n"
          [AStr (WelcomePayload.Username p); AInt (WelcomePayload.UserID p);
           AStr (WelcomePayload.Message p)]);;
  emit (Sleep (dur_mul 200 Millisecond));;
  mret None.

(** HandleEmailTask processes email sending tasks. *)
Definition HandleEmailTask (ctx : context.Context) (p : EmailPayload.t)
  : Run (option error) :=
  emit (Printf "📧 [Email] Sending email to %s (UserID: %d)\n"
          [AStr (EmailPayload.Email p); AInt (EmailPayload.UserID p)]);;
  emit (Printf "   Subject: %s\n" [AStr (EmailPayload.Subject p)]);;
  emit (Printf "   Message: %s\n" [AStr (EmailPayload.Message p)]);;
  emit (Println "   ✅ Email sent successfully!");;
  emit (Sleep (dur_mul 300 Millisecond));;
  mret None.

(** HandleServerInfoTask processes server info tasks and prints current
    server information; [rt] is what the run time reports during the
    call. *)
Definition HandleServerInfoTask (rt : runtime.State)
    (ctx : context.Context) (p : ServerInfoPayload.t) : Run (option error) :=
  let m := runtime.ReadMemStats rt in
  emit (Printf "🖥️  [Server Info] %s - 系统状态报告\n"
          [ATimeFormat "2006-01-02 15:04:05"]);;
  emit (Printf "   📅 时间戳: %d\n" [AInt (ServerInfoPayload.Timestamp p)]);;
  emit (Printf "   🔢 CPU核心数: %d\n" [AInt (runtime.NumCPU rt)]);;
  emit (Printf "   🧵 当前Goroutines: %d\n" [AInt (runtime.NumGoroutine rt)]);;
  emit (Printf "   💾 分配内存: %.2f MB\n" [AMegabytes (runtime.Alloc m)]);;
  emit (Printf "   🔄 系统内存: %.2f MB\n" [AMegabytes (runtime.Sys m)]);;
  emit (Printf "   🗑️  GC次数: %d\n" [AInt (runtime.NumGC m)]);;
  (if (0 <? runtime.NumGC m)%Z then
     q ← runtime.div_uint64 (runtime.PauseTotalNs m)
                            (to_uint64 (runtime.NumGC m));
     emit (Printf "   ⏱️  平均GC暂停时间: %v\n" [ADuration (wrap64 q)])
   else
     emit (Printf "   ⏱️  平均GC暂停时间: N/A\n" []));;
  emit (Printf "   📊 堆使用: %.2f MB\n" [AMegabytes (runtime.HeapAlloc m)]);;
  emit (Printf "   📈 堆系统: %.2f MB\n" [AMegabytes (runtime.HeapSys m)]);;
  emit (Printf "   🏗️  堆对象数: %d\n" [AInt (runtime.HeapObjects m)]);;
  emit (Printf "   📋 来源: %s\n" [AStr (ServerInfoPayload.Source p)]);;
  emit (Println "   ✅ 服务器信息收集完成");;
  mret None.


(** The two forms of the average-pause line of [HandleServerInfoTask]. *)
Definition avg_pause_line (q : Z) : Event :=
  Printf "   ⏱️  平均GC暂停时间: %v\n" [ADuration q].

Definition avg_pause_na : Event :=
  Printf "   ⏱️  平均GC暂停时间: N/A\n" [].

(** *** The JSON form of the payloads

    What [json.Marshal] and [json.Unmarshal] make of the struct types
    above, from their field kinds and [json] tags.  Encoding a struct of
    integers and strings has no failing case: the error is always
    [nil]. *)

Definition Marshal_WelcomePayload (p : WelcomePayload.t)
  : bytes * option json.Error :=
  (json.encodeStruct
     [json.member "user_id" (json.encodeInt (WelcomePayload.UserID p));
      json.member "username" (json.encodeString (WelcomePayload.Username p));
      json.member "message" (json.encodeString (WelcomePayload.Message p))],
   None).

Definition WelcomePayload_fields : list (json.Field WelcomePayload.t) :=
  [json.intField "user_id" (fun p v =>
     WelcomePayload.mk v (WelcomePayload.Username p) (WelcomePayload.Message p));
   json.stringField "username" (fun p v =>
     WelcomePayload.mk (WelcomePayload.UserID p) v (WelcomePayload.Message p));
   json.stringField "message" (fun p v =>
     WelcomePayload.mk (WelcomePayload.UserID p) (WelcomePayload.Username p) v)].

Definition Marshal_EmailPayload (p : EmailPayload.t)
  : bytes * option json.Error :=
  (json.encodeStruct
     [json.member "user_id" (json.encodeInt (EmailPayload.UserID p));
      json.member "email" (json.encodeString (EmailPayload.Email p));
      json.member "subject" (json.encodeString (EmailPayload.Subject p));
      json.member "message" (json.encodeString (EmailPayload.Message p))],
   None).

Definition EmailPayload_fields : list (json.Field EmailPayload.t) :=
  [json.intField "user_id" (fun p v =>
     EmailPayload.mk v (EmailPayload.Email p) (EmailPayload.Subject p)
                     (EmailPayload.Message p));
   json.stringField "email" (fun p v =>
     EmailPayload.mk (EmailPayload.UserID p) v (EmailPayload.Subject p)
                     (EmailPayload.Message p));
   json.stringField "subject" (fun p v =>
     EmailPayload.mk (EmailPayload.UserID p) (EmailPayload.Email p) v
                     (EmailPayload.Message p));
   json.stringField "message" (fun p v =>
     EmailPayload.mk (EmailPayload.UserID p) (EmailPayload.Email p)
                     (EmailPayload.Subject p) v)].

Definition Marshal_ServerInfoPayload (p : ServerInfoPayload.t)
  : bytes * option json.Error :=
  (json.encodeStruct
     [json.member "timestamp" (json.encodeInt (ServerInfoPayload.Timestamp p));
      json.member "source" (json.encodeString (ServerInfoPayload.Source p))],
   None).

Definition ServerInfoPayload_fields : list (json.Field ServerInfoPayload.t) :=
  [json.intField "timestamp" (fun p v =>
     ServerInfoPayload.mk v (ServerInfoPayload.Source p));
   json.stringField "source" (fun p v =>
     ServerInfoPayload.mk (ServerInfoPayload.Timestamp p) v)].

End common.

(** ** Vocabulary for the JSON form of the payloads *)

Module codec.
Import common.

(** A string of ASCII bytes only. *)
Fixpoint all_ascii (s : string) : bool :=
  match s with
  | EmptyString => true
  | String b r => (code b <? utf8.RuneSelf)%N && all_ascii r
  end.

(** What [appendString] writes for one ASCII byte. *)
Definition piece (b : ascii) : string :=
  if json.htmlSafe b then String b EmptyString else json.escape_byte b.

(** Inside an object a number ends at a comma or at the closing brace. *)
Definition is_number_end (s : string) : Prop :=
  match s with
  | String c _ => c = ","%char \/ c = "}"%char
  | EmptyString => False
  end.

Definition starts_nonspace (s : string) : Prop :=
  match s with
  | String c _ => json.isSpace c = false
  | EmptyString => True
  end.

(** The text [vt] is an encoded value that the reader turns into [v],
    whatever follows it inside an object. *)
Definition encodes (vt : string) (v : json.Value) : Prop :=
  starts_nonspace vt
  /\ forall f d c r, c = ","%char \/ c = "}"%char ->
       json.parse_value (S f) d (vt +:+ String c r) = Some (v, String c r).

(** A member of an encoded struct: its name, the text of its value and
    the value the reader makes of that text. *)
Definition Member : Type := string * string * json.Value.

Definition member_text (m : Member) : string := json.member m.1.1 m.1.2.

Definition member_value (m : Member) : string * json.Value := (m.1.1, m.2).

Definition good_member (m : Member) : Prop :=
  all_ascii m.1.1 = true /\ encodes m.1.2 m.2.

(** Payloads within the ranges of their integer types whose strings are
    ASCII. *)
Definition ascii_welcome (p : WelcomePayload.t) : Prop :=
  WelcomePayload.wf p
  /\ all_ascii (WelcomePayload.Username p) = true
  /\ all_ascii (WelcomePayload.Message p) = true.

Definition ascii_email (p : EmailPayload.t) : Prop :=
  EmailPayload.wf p
  /\ all_ascii (EmailPayload.Email p) = true
  /\ all_ascii (EmailPayload.Subject p) = true
  /\ all_ascii (EmailPayload.Message p) = true.

Definition ascii_server_info (p : ServerInfoPayload.t) : Prop :=
  ServerInfoPayload.wf p
  /\ all_ascii (ServerInfoPayload.Source p) = true.

(** A payload of any of the three types, the wrapper that handles it,
    its bytes under [json.Marshal] and what a wrapper's [json.Unmarshal]
    makes of payload bytes. *)
(** vocabulary *)
Inductive Payload : Type :=
| Welcome (p : WelcomePayload.t)
| Email (p : EmailPayload.t)
| ServerInfo (p : ServerInfoPayload.t).

Definition handler_for (p : Payload) : Handler :=
  match p with
  | Welcome _ => WelcomeHandler
  | Email _ => EmailHandler
  | ServerInfo _ => ServerInfoHandler
  end.

Definition marshal (p : Payload) : bytes :=
  match p with
  | Welcome p => fst (Marshal_WelcomePayload p)
  | Email p => fst (Marshal_EmailPayload p)
  | ServerInfo p => fst (Marshal_ServerInfoPayload p)
  end.

Definition unmarshal (h : Handler) (data : bytes) : option Payload :=
  match h with
  | WelcomeHandler =>
    match json.Unmarshal WelcomePayload_fields data WelcomePayload.zero with
    | (p, None) => Some (Welcome p)
    | (_, Some _) => None
    end
  | EmailHandler =>
    match json.Unmarshal EmailPayload_fields data EmailPayload.zero with
    | (p, None) => Some (Email p)
    | (_, Some _) => None
    end
  | ServerInfoHandler =>
    match json.Unmarshal ServerInfoPayload_fields data ServerInfoPayload.zero with
    | (p, None) => Some (ServerInfo p)
    | (_, Some _) => None
    end
  end.

Definition ascii_payload (p : Payload) : Prop :=
  match p with
  | Welcome p => ascii_welcome p
  | Email p => ascii_email p
  | ServerInfo p => ascii_server_info p
  end.

(** *** Strings that are not ASCII

    [ValidString s]: [s] is well-formed UTF-8, that is, every byte outside
    ASCII starts a sequence [utf8.DecodeRune] accepts. *)
Fixpoint valid_from (fuel : nat) (s : string) : bool :=
  match fuel with
  | O => match s with EmptyString => true | String _ _ => false end
  | S fuel' =>
    match s with
    | EmptyString => true
    | String b rest =>
      if (code b <? utf8.RuneSelf)%N then valid_from fuel' rest
      else
        let '(c, size) := utf8.DecodeRune s in
        if (c =? utf8.RuneError)%N && (size =? 1)%nat then false
        else valid_from fuel' (drop size s)
    end
  end.

Definition ValidString (s : string) : bool := valid_from (len s) s.

(** [coerce s]: [s] with every byte that starts no well-formed UTF-8
    sequence replaced by U+FFFD (the bytes EF BF BD); the well-formed
    sequences and the ASCII bytes are kept. *)
Fixpoint coerce_from (fuel : nat) (s : string) : string :=
  match fuel with
  | O => EmptyString
  | S fuel' =>
    match s with
    | EmptyString => EmptyString
    | String b rest =>
      if (code b <? utf8.RuneSelf)%N then String b (coerce_from fuel' rest)
      else
        let '(c, size) := utf8.DecodeRune s in
        if (c =? utf8.RuneError)%N && (size =? 1)%nat
        then utf8.EncodeRune utf8.RuneError +:+ coerce_from fuel' rest
        else take size s +:+ coerce_from fuel' (drop size s)
    end
  end.

Definition coerce (s : string) : string := coerce_from (len s) s.

(** A payload whose integer field is within the range of its type, the
    payload with its strings coerced, and whether its strings are
    well-formed UTF-8. *)
Definition wf_payload (p : Payload) : Prop :=
  match p with
  | Welcome p => WelcomePayload.wf p
  | Email p => EmailPayload.wf p
  | ServerInfo p => ServerInfoPayload.wf p
  end.

Definition coerce_payload (p : Payload) : Payload :=
  match p with
  | Welcome p =>
    Welcome (WelcomePayload.mk (WelcomePayload.UserID p)
               (coerce (WelcomePayload.Username p))
               (coerce (WelcomePayload.Message p)))
  | Email p =>
    Email (EmailPayload.mk (EmailPayload.UserID p)
             (coerce (EmailPayload.Email p))
             (coerce (EmailPayload.Subject p))
             (coerce (EmailPayload.Message p)))
  | ServerInfo p =>
    ServerInfo (ServerInfoPayload.mk (ServerInfoPayload.Timestamp p)
                  (coerce (ServerInfoPayload.Source p)))
  end.

Definition valid_strings (p : Payload) : bool :=
  match p with
  | Welcome p =>
    ValidString (WelcomePayload.Username p) && ValidString (WelcomePayload.Message p)
  | Email p =>
    ValidString (EmailPayload.Email p) && ValidString (EmailPayload.Subject p)
    && ValidString (EmailPayload.Message p)
  | ServerInfo p => ValidString (ServerInfoPayload.Source p)
  end.

(** The zero value of the struct a wrapper decodes into. *)
Definition zero_payload (h : Handler) : Payload :=
  match h with
  | WelcomeHandler => Welcome WelcomePayload.zero
  | EmailHandler => Email EmailPayload.zero
  | ServerInfoHandler => ServerInfo ServerInfoPayload.zero
  end.

(** Whether a key selects a field of the struct a wrapper decodes into,
    and whether an object member leaves that struct as it is: its key
    selects no field, or its value is [null]. *)
Definition selects (h : Handler) (key : string) : bool :=
  match h with
  | WelcomeHandler =>
    match json.find_field WelcomePayload_fields key with Some _ => true | None => false end
  | EmailHandler =>
    match json.find_field EmailPayload_fields key with Some _ => true | None => false end
  | ServerInfoHandler =>
    match json.find_field ServerInfoPayload_fields key with Some _ => true | None => false end
  end.

Definition ignored (h : Handler) (m : string * json.Value) : bool :=
  match snd m with
  | json.Null => true
  | _ => negb (selects h (fst m))
  end.

(** The members [json.Marshal] writes for a payload, each with the value
    the reader makes of its text. *)
Definition members (p : Payload) : list Member :=
  match p with
  | Welcome p =>
    [("user_id", json.encodeInt (WelcomePayload.UserID p),
        json.Number (strconv.FormatInt (WelcomePayload.UserID p)));
     ("username", json.encodeString (WelcomePayload.Username p),
        json.Str (coerce (WelcomePayload.Username p)));
     ("message", json.encodeString (WelcomePayload.Message p),
        json.Str (coerce (WelcomePayload.Message p)))]
  | Email p =>
    [("user_id", json.encodeInt (EmailPayload.UserID p),
        json.Number (strconv.FormatInt (EmailPayload.UserID p)));
     ("email", json.encodeString (EmailPayload.Email p),
        json.Str (coerce (EmailPayload.Email p)));
     ("subject", json.encodeString (EmailPayload.Subject p),
        json.Str (coerce (EmailPayload.Subject p)));
     ("message", json.encodeString (EmailPayload.Message p),
        json.Str (coerce (EmailPayload.Message p)))]
  | ServerInfo p =>
    [("timestamp", json.encodeInt (ServerInfoPayload.Timestamp p),
        json.Number (strconv.FormatInt (ServerInfoPayload.Timestamp p)));
     ("source", json.encodeString (ServerInfoPayload.Source p),
        json.Str (coerce (ServerInfoPayload.Source p)))]
  end.

(** What a wrapper makes of the bytes of a payload of any of the three
    types: the fields whose names its struct shares with the payload,
    with coerced strings, and zero values elsewhere. *)
Definition reinterpret (h : Handler) (p : Payload) : Payload :=
  match h, p with
  | WelcomeHandler, Welcome _ | EmailHandler, Email _
  | ServerInfoHandler, ServerInfo _ => coerce_payload p
  | WelcomeHandler, Email p =>
    Welcome (WelcomePayload.mk (EmailPayload.UserID p) EmptyString
               (coerce (EmailPayload.Message p)))
  | EmailHandler, Welcome p =>
    Email (EmailPayload.mk (WelcomePayload.UserID p) EmptyString EmptyString
             (coerce (WelcomePayload.Message p)))
  | _, _ => zero_payload h
  end.

(** The bytes of a payload with its member names spelled as [keys], and
    what it is for a key to spell a name in another letter case. *)
Definition marshal_keys (keys : list string) (p : Payload) : bytes :=
  json.encodeStruct
    (zip_with (fun k (m : Member) => json.member k m.1.2) keys (members p)).

Definition respells (k : string) (m : Member) : Prop :=
  all_ascii k = true /\ json.fold k = json.fold m.1.1.






End codec.

(** ** main.go *)

Module driver.

(** HandleWelcomeTask wraps the common handler for Asynq. *)
Definition HandleWelcomeTask (ctx : context.Context) (t : asynq.Task)
  : Run (option error) :=
  let '(p, err) :=
    json.Unmarshal common.WelcomePayload_fields (asynq.Payload t)
                   common.WelcomePayload.zero in
  match err with
  | Some e => mret (Some (Errorf "failed to unmarshal welcome payload: %v" e))
  | None => common.HandleWelcomeTask ctx p
  end.

(** HandleEmailTask wraps the common handler for Asynq. *)
Definition HandleEmailTask (ctx : context.Context) (t : asynq.Task)
  : Run (option error) :=
  let '(p, err) :=
    json.Unmarshal common.EmailPayload_fields (asynq.Payload t)
                   common.EmailPayload.zero in
  match err with
  | Some e => mret (Some (Errorf "failed to unmarshal email payload: %v" e))
  | None => common.HandleEmailTask ctx p
  end.

(** HandleServerInfoTask wraps the common handler for Asynq. *)
Definition HandleServerInfoTask (rt : runtime.State)
    (ctx : context.Context) (t : asynq.Task) : Run (option error) :=
  let '(p, err) :=
    json.Unmarshal common.ServerInfoPayload_fields (asynq.Payload t)
                   common.ServerInfoPayload.zero in
  match err with
  | Some e =>
    mret (Some (Errorf "failed to unmarshal server info payload: %v" e))
  | None => common.HandleServerInfoTask rt ctx p
  end.

(** The function a [ServeMux] entry stands for. *)
Definition handler_of (h : Handler) (rt : runtime.State)
  : context.Context -> asynq.Task -> Run (option error) :=
  match h with
  | WelcomeHandler => HandleWelcomeTask
  | EmailHandler => HandleEmailTask
  | ServerInfoHandler => HandleServerInfoTask rt
  end.

(** What [main] reads from outside: the environment, the clock at the
    one place it is read, and what the queue library answers.  An error
    is its message; [client.Enqueue] answers with a task id or an
    error. *)
Record World : Type := mkWorld {
  Getenv : string -> string;
  NowUnix : Z;                                                   (* int64 *)
  RunResult : option string;
  RegisterResult : string -> asynq.Task -> option string;
  StartResult : option string;
  EnqueueResult : asynq.Task -> list Option_ -> string + string
}.

Definition wf_World (w : World) : Prop := is_int64 (NowUnix w).

(** A world used to instantiate the theorems: nothing set in the
    environment, no library error. *)
Definition sample_world : World :=
  mkWorld (fun _ => EmptyString) 1700000000 None (fun _ _ => None) None
          (fun _ _ => inl "task-id").

(** [defer d]: [d] runs when the body is left, by return or by panic. *)
Definition defer {A : Type} (d : Event) (body : Run A) : Run A :=
  let '(t, o) := body in (t ++ [d], o).

Definition welcomeTasks : list common.WelcomePayload.t :=
  [common.WelcomePayload.mk 1 "Alice" "Welcome to our amazing platform!";
   common.WelcomePayload.mk 2 "Bob" "Thanks for joining our community!";
   common.WelcomePayload.mk 3 "Charlie" "We're excited to have you here!"].

Definition emailTasks : list common.EmailPayload.t :=
  [common.EmailPayload.mk 4 "alice@example.com" "Welcome!"
     "Welcome to our platform, Alice!";
   common.EmailPayload.mk 5 "bob@example.com" "Getting Started"
     "Here are some tips to get you started, Bob.";
   common.EmailPayload.mk 6 "charlie@example.com" "Weekly Newsletter"
     "Check out this week's highlights!"].

Definition serverInfoPayload (w : World) : common.ServerInfoPayload.t :=
  common.ServerInfoPayload.mk (NowUnix w) "periodic-monitor".

(** The goroutine [main] starts for the consumer. *)
Definition consumer (w : World) : Run unit :=
  defer WgDone (
    emit (Println "🐰 Consumer started, waiting for tasks...");;
    emit ServerRun;;
    match RunResult w with
    | Some e => emit (LogPrintf "❌ Consumer error: %v" [AErr e])
    | None => mret tt
    end).

(** [client.Enqueue(task, opts...)] and the report that follows it. *)
Definition enqueue_and_report (w : World) (task : asynq.Task)
    (opts : list Option_) (what who : string) : Run unit :=
  emit (Enqueue (asynq.Type_ task) (asynq.Payload task) opts);;
  match EnqueueResult w task opts with
  | inr e =>
    emit (LogPrintf ("❌ Failed to enqueue " +:+ what +:+ " task for %s: %v")
            [AStr who; AErr e])
  | inl id =>
    emit (Printf ("✅ Enqueued " +:+ what +:+ " task for %s (ID: %s)\n")
            [AStr who; AStr id])
  end.

(** [for i, task := range welcomeTasks], from index [i]. *)
Fixpoint welcome_loop (w : World) (i : Z) (tasks : list common.WelcomePayload.t)
  : Run unit :=
  match tasks with
  | [] => mret tt
  | task :: tasks' =>
    (let '(payload, err) := common.Marshal_WelcomePayload task in
     match err with
     | Some e =>
       emit (LogPrintf "❌ Failed to marshal welcome task for %s: %v"
               [AStr (common.WelcomePayload.Username task); AJsonErr e])
     | None =>
       let opts :=
         if (Z.rem i 2 =? 0)%Z then []
         else [ProcessIn (dur_mul (dur_mul i 300) Millisecond)] in
       enqueue_and_report w
         (asynq.NewTask common.TypeWelcomeMessage payload) opts
         "welcome" (common.WelcomePayload.Username task)
     end);;
    welcome_loop w (i + 1) tasks'
  end.

(** [for i, task := range emailTasks], from index [i]. *)
Fixpoint email_loop (w : World) (i : Z) (tasks : list common.EmailPayload.t)
  : Run unit :=
  match tasks with
  | [] => mret tt
  | task :: tasks' =>
    (let '(payload, err) := common.Marshal_EmailPayload task in
     match err with
     | Some e =>
       emit (LogPrintf "❌ Failed to marshal email task for %s: %v"
               [AStr (common.EmailPayload.Email task); AJsonErr e])
     | None =>
       let opts :=
         if (Z.rem i 2 =? 0)%Z then []
         else [ProcessIn (dur_mul (dur_mul (i + 1) 500) Millisecond)] in
       enqueue_and_report w
         (asynq.NewTask common.TypeEmailTask payload) opts
         "email" (common.EmailPayload.Email task)
     end);;
    email_loop w (i + 1) tasks'
  end.

(** The periodic server-info registration. *)
Definition register_server_info (w : World) : Run unit :=
  let '(payload, err) :=
    common.Marshal_ServerInfoPayload (serverInfoPayload w) in
  match err with
  | Some e =>
    emit (LogPrintf "❌ Failed to marshal server info payload: %v" [AJsonErr e])
  | None =>
    let task := asynq.NewTask common.TypeServerInfo payload in
    emit (SchedulerRegister "@every 30s" (asynq.Type_ task) (asynq.Payload task));;
    match RegisterResult w "@every 30s" task with
    | Some e =>
      emit (LogPrintf "❌ Failed to register server info scheduler: %v" [AErr e])
    | None =>
      emit (Println "⏰ Server info scheduler registered - runs every 30 seconds")
    end
  end.

Definition main (w : World) : Run unit :=
  let redisAddr :=
    if String.eqb (Getenv w "REDIS_ADDR") EmptyString
    then "localhost:6380" else Getenv w "REDIS_ADDR" in
  let password := Getenv w "REDIS_PASSWORD" in
  emit (NewClient redisAddr password);;
  defer ClientClose (
    emit (NewServer 5 [("critical", 6%Z); ("default", 3%Z); ("low", 1%Z)]);;
    emit NewServeMux;;
    emit (HandleFunc common.TypeWelcomeMessage WelcomeHandler);;
    emit (HandleFunc common.TypeEmailTask EmailHandler);;
    emit (HandleFunc common.TypeServerInfo ServerInfoHandler);;
    emit (Println "🚀 Starting Asynq Demo...");;
    emit (Printf "📍 Redis: %s\n" [AStr redisAddr]);;
    emit (WgAdd 1);;
    emit GoConsumer;;
    emit (Sleep (dur_mul 1 Second));;
    emit NewScheduler;;
    register_server_info w;;
    emit SchedulerStart;;
    match StartResult w with
    | Some e => emit (LogPrintf "❌ Failed to start scheduler: %v" [AErr e])
    | None => mret tt
    end;;
    emit (Println "📤 Creating welcome message tasks...");;
    welcome_loop w 0 welcomeTasks;;
    emit (Println "📤 Creating email tasks...");;
    email_loop w 0 emailTasks;;
    emit (Println "🎉 All tasks created! Consumer will process them shortly.");;
    emit (Println "Press Ctrl+C to stop...");;
    emit (SignalNotify ["SIGINT"; "SIGTERM"]);;
    emit SignalReceive;;
    emit (Println "\n🛑 Shutting down...");;
    emit SchedulerShutdown;;
    emit ServerShutdown;;
    emit WgWait;;
    emit (Println "✅ Shutdown complete")).

(** *** Executions of the two goroutines

    The events of [main] up to the [go] statement, then any interleaving
    of the rest of [main] with the consumer goroutine.  Every order the
    Go scheduler can produce is among them. *)

Inductive interleave {A : Type} : list A -> list A -> list A -> Prop :=
| interleave_nil : interleave [] [] []
| interleave_l a l r m : interleave l r m -> interleave (a :: l) r (a :: m)
| interleave_r a l r m : interleave l r m -> interleave l (a :: r) (a :: m).

Definition is_go (e : Event) : bool :=
  match e with GoConsumer => true | _ => false end.

(** The events before the first [go] statement, and those after it. *)
Fixpoint split_go (t : list Event) : list Event * list Event :=
  match t with
  | [] => ([], [])
  | e :: t' =>
    if is_go e then ([e], t')
    else let '(pre, post) := split_go t' in (e :: pre, post)
  end.

Definition execution (w : World) (ex : list Event) : Prop :=
  exists m,
    interleave (snd (split_go (trace (main w)))) (trace (consumer w)) m
    /\ ex = fst (split_go (trace (main w))) ++ m.

(** One execution: the consumer runs to its end as soon as it is
    started. *)
Definition consumer_first (w : World) : list Event :=
  fst (split_go (trace (main w))) ++ trace (consumer w)
  ++ snd (split_go (trace (main w))).

(** *** Vocabulary for the traces of [main] *)

Definition redisAddr (w : World) : string :=
    if String.eqb (Getenv w "REDIS_ADDR") EmptyString
    then "localhost:6380" else Getenv w "REDIS_ADDR".

Definition start_report (w : World) : Run unit :=
    match StartResult w with
    | Some e => emit (LogPrintf "❌ Failed to start scheduler: %v" [AErr e])
    | None => mret tt
    end.

Definition consumer_report (w : World) : list Event :=
    match RunResult w with
    | Some e => [LogPrintf "❌ Consumer error: %v" [AErr e]]
    | None => []
    end.

Definition setup_events (w : World) : list Event :=
  [NewClient (redisAddr w) (Getenv w "REDIS_PASSWORD");
   NewServer 5 [("critical", 6%Z); ("default", 3%Z); ("low", 1%Z)];
   NewServeMux;
   HandleFunc common.TypeWelcomeMessage WelcomeHandler;
   HandleFunc common.TypeEmailTask EmailHandler;
   HandleFunc common.TypeServerInfo ServerInfoHandler;
   Println "🚀 Starting Asynq Demo...";
   Printf "📍 Redis: %s\n" [AStr (redisAddr w)];
   WgAdd 1;
   GoConsumer].

Definition produce_events (w : World) : list Event :=
  [Sleep (dur_mul 1 Second); NewScheduler]
  ++ trace (register_server_info w)
  ++ [SchedulerStart]
  ++ trace (start_report w)
  ++ [Println "📤 Creating welcome message tasks..."]
  ++ trace (welcome_loop w 0 welcomeTasks)
  ++ [Println "📤 Creating email tasks..."]
  ++ trace (email_loop w 0 emailTasks)
  ++ [Println "🎉 All tasks created! Consumer will process them shortly.";
      Println "Press Ctrl+C to stop...";
      SignalNotify ["SIGINT"; "SIGTERM"]].

Definition shutdown_events : list Event :=
  [SignalReceive;
   Println "\n🛑 Shutting down...";
   SchedulerShutdown;
   ServerShutdown;
   WgWait;
   Println "✅ Shutdown complete";
   ClientClose].

(** The library calls of a trace: everything but the prints and logs. *)
Definition is_print (e : Event) : bool :=
  match e with
  | Printf _ _ | Println _ | LogPrintf _ _ => true
  | _ => false
  end.

Definition calls (t : list Event) : list Event :=
  List.filter (fun e => negb (is_print e)) t.

Definition is_shutdown_step (e : Event) : bool :=
  match e with
  | SchedulerShutdown | ServerShutdown | WgWait | ClientClose => true
  | _ => false
  end.

Definition is_handle_func (e : Event) : bool :=
  match e with HandleFunc _ _ => true | _ => false end.

Definition is_register (e : Event) : bool :=
  match e with SchedulerRegister _ _ _ => true | _ => false end.

(** The tasks and the [Enqueue] calls of the two producer loops. *)
Definition welcome_task (p : common.WelcomePayload.t) : asynq.Task :=
  asynq.NewTask common.TypeWelcomeMessage (fst (common.Marshal_WelcomePayload p)).

Definition email_task (p : common.EmailPayload.t) : asynq.Task :=
  asynq.NewTask common.TypeEmailTask (fst (common.Marshal_EmailPayload p)).

Definition server_info_task (w : World) : asynq.Task :=
  asynq.NewTask common.TypeServerInfo
    (fst (common.Marshal_ServerInfoPayload (serverInfoPayload w))).

Definition enqueue_call (t : asynq.Task) (opts : list Option_) : Event :=
  Enqueue (asynq.Type_ t) (asynq.Payload t) opts.

Definition welcome_opts (i : Z) : list Option_ :=
  if (Z.rem i 2 =? 0)%Z then []
  else [ProcessIn (dur_mul (dur_mul i 300) Millisecond)].

Definition email_opts (i : Z) : list Option_ :=
  if (Z.rem i 2 =? 0)%Z then []
  else [ProcessIn (dur_mul (dur_mul (i + 1) 500) Millisecond)].

Fixpoint welcome_calls (i : Z) (tasks : list common.WelcomePayload.t) : list Event :=
  match tasks with
  | [] => []
  | p :: ps => enqueue_call (welcome_task p) (welcome_opts i) :: welcome_calls (i + 1) ps
  end.

Fixpoint email_calls (i : Z) (tasks : list common.EmailPayload.t) : list Event :=
  match tasks with
  | [] => []
  | p :: ps => enqueue_call (email_task p) (email_opts i) :: email_calls (i + 1) ps
  end.

Definition setup_calls (w : World) : list Event :=
  [NewClient (redisAddr w) (Getenv w "REDIS_PASSWORD");
   NewServer 5 [("critical", 6%Z); ("default", 3%Z); ("low", 1%Z)];
   NewServeMux;
   HandleFunc common.TypeWelcomeMessage WelcomeHandler;
   HandleFunc common.TypeEmailTask EmailHandler;
   HandleFunc common.TypeServerInfo ServerInfoHandler;
   WgAdd 1;
   GoConsumer].

Definition produce_calls (w : World) : list Event :=
  [Sleep (dur_mul 1 Second); NewScheduler;
   SchedulerRegister "@every 30s" common.TypeServerInfo
     (asynq.Payload (server_info_task w));
   SchedulerStart]
  ++ welcome_calls 0 welcomeTasks
  ++ email_calls 0 emailTasks
  ++ [SignalNotify ["SIGINT"; "SIGTERM"]].

Definition shutdown_calls : list Event :=
  [SignalReceive; SchedulerShutdown; ServerShutdown; WgWait; ClientClose].

(** What a wrapper's [json.Unmarshal] reports on payload bytes, the
    format of the error the wrapper returns, and the task type [main]
    registers the wrapper for. *)
Definition decode_error (h : Handler) (data : bytes) : option json.Error :=
  match h with
  | WelcomeHandler =>
    snd (json.Unmarshal common.WelcomePayload_fields data common.WelcomePayload.zero)
  | EmailHandler =>
    snd (json.Unmarshal common.EmailPayload_fields data common.EmailPayload.zero)
  | ServerInfoHandler =>
    snd (json.Unmarshal common.ServerInfoPayload_fields data
           common.ServerInfoPayload.zero)
  end.

Definition wrap_format (h : Handler) : string :=
  match h with
  | WelcomeHandler => "failed to unmarshal welcome payload: %v"
  | EmailHandler => "failed to unmarshal email payload: %v"
  | ServerInfoHandler => "failed to unmarshal server info payload: %v"
  end.

Definition pattern_of (h : Handler) : string :=
  match h with
  | WelcomeHandler => common.TypeWelcomeMessage
  | EmailHandler => common.TypeEmailTask
  | ServerInfoHandler => common.TypeServerInfo
  end.

(** The payloads [main] marshals. *)
Definition payloads (w : World) : list codec.Payload :=
  map codec.Welcome welcomeTasks ++ map codec.Email emailTasks
  ++ [codec.ServerInfo (serverInfoPayload w)].

(** The common handler a wrapper passes a decoded payload to. *)
Definition run_common (rt : runtime.State) (ctx : context.Context)
    (p : codec.Payload) : Run (option error) :=
  match p with
  | codec.Welcome p => common.HandleWelcomeTask ctx p
  | codec.Email p => common.HandleEmailTask ctx p
  | codec.ServerInfo p => common.HandleServerInfoTask rt ctx p
  end.

(** The calls that move the [WaitGroup] counter, and [srv.Run]. *)
Definition is_wg_or_run (e : Event) : bool :=
  match e with
  | WgAdd _ | WgDone | ServerRun => true
  | _ => false
  end.

(** The calls that open and close the client. *)
Definition is_client_call (e : Event) : bool :=
  match e with
  | NewClient _ _ | ClientClose => true
  | _ => false
  end.

(** A world in which every library call that can fail does. *)
Definition failing_world : World :=
  mkWorld (fun _ => EmptyString) 1700000000 (Some "connection refused")
          (fun _ _ => Some "connection refused") (Some "connection refused")
          (fun _ _ => inr "connection refused").

(** The [Enqueue] calls of the two producer loops from index [i], with
    the delays written as numbers of nanoseconds. *)
Definition welcome_enqueue (i : Z) (k : nat) (p : common.WelcomePayload.t) : Event :=
  Enqueue common.TypeWelcomeMessage (codec.marshal (codec.Welcome p))
    (if Z.even (i + Z.of_nat k) then []
     else [ProcessIn ((i + Z.of_nat k) * 300000000)]).

Definition email_enqueue (i : Z) (k : nat) (p : common.EmailPayload.t) : Event :=
  Enqueue common.TypeEmailTask (codec.marshal (codec.Email p))
    (if Z.even (i + Z.of_nat k) then []
     else [ProcessIn ((i + Z.of_nat k + 1) * 500000000)]).

(** The queue weights [main] configures the server with. *)
Definition server_queues : list (string * Z) :=
  [("critical", 6%Z); ("default", 3%Z); ("low", 1%Z)].

End driver.

(** ** The task-queue core of the specification

    The queue itself (store, dispatcher, scheduler, client validation) is
    the job of the asynq library and its backing store; the repository
    only configures and calls it.  The definitions of this module follow
    sections 3 and 4 of the specification. *)

Module core.

(** Modelled from the spec: the states of a Task Envelope (section 3);
    the queue library that implements them is not part of the
    repository. *)
Inductive State : Type := pending | scheduled | active | retry | archived.

#[global] Instance State_eq_dec : EqDecision State.
Proof. solve_decision. Defined.

(** Modelled from the spec: the Task Envelope of section 3. *)
Record Envelope : Type := mkEnvelope {
  type : string;
  payload : bytes;
  queue : string;
  id : nat;
  state : State;
  process_at : Z;
  max_retry : nat;
  retry_count : nat;
  last_error : option string
}.

Definition with_state (s : State) (e : Envelope) : Envelope :=
  mkEnvelope (type e) (payload e) (queue e) (id e) s (process_at e)
             (max_retry e) (retry_count e) (last_error e).

(** Modelled from the spec: the Store Adapter's arena of envelopes
    indexed by id (sections 4.2 and 9), with the lease expiry of every
    active task and the next id to assign. *)
Record Store : Type := mkStore {
  tasks : gmap nat Envelope;
  leases : gmap nat Z;
  next_id : nat
}.

Definition empty : Store := mkStore ∅ ∅ 0.

(** Modelled from the spec: [enqueue(envelope)] of section 4.2, on a
    reachable backend: a new envelope with a fresh id goes into pending
    when its [process_at] is not after [now], into scheduled otherwise.
    The result is the new id and the store. *)
Definition enqueue (now : Z) (ty : string) (data : bytes) (q : string)
    (at_ : Z) (retries : nat) (st : Store) : nat * Store :=
  let i := next_id st in
  let e := mkEnvelope ty data q i
             (if (at_ <=? now)%Z then pending else scheduled)
             at_ retries 0 None in
  (i, mkStore (<[i := e]> (tasks st)) (leases st) (S i)).

(** Modelled from the spec: the claim of [dequeue] (section 4.2) on the
    task the weighted selection chose: a pending task whose [process_at]
    has come becomes active and gets a lease; [None] is
    [NoTaskAvailable]. *)
Definition claim (i : nat) (now lease : Z) (st : Store) : option Store :=
  match tasks st !! i with
  | Some e =>
    if decide (state e = pending) then
      if (process_at e <=? now)%Z then
        Some (mkStore (<[i := with_state active e]> (tasks st))
                      (<[i := (now + lease)%Z]> (leases st)) (next_id st))
      else None
    else None
  | None => None
  end.

(** Modelled from the spec: [ack(task_id)] of section 4.2: an active
    task that was processed is removed. *)
Definition ack (i : nat) (st : Store) : Store :=
  match tasks st !! i with
  | Some e =>
    if decide (state e = active)
    then mkStore (delete i (tasks st)) (delete i (leases st)) (next_id st)
    else st
  | None => st
  end.

(** Modelled from the spec: [retry(task_id, error, backoff)] of section
    4.2: "transitions active to retry, increments [retry_count], sets
    [process_at = now + backoff]; if [retry_count] exceeds [max_retry],
    transitions to archived (dead) instead". *)
Definition retry_envelope (err : string) (backoff now : Z) (e : Envelope)
  : Envelope :=
  let n := S (retry_count e) in
  if (max_retry e <? n)%nat
  then mkEnvelope (type e) (payload e) (queue e) (id e) archived
                  (process_at e) (max_retry e) n (Some err)
  else mkEnvelope (type e) (payload e) (queue e) (id e) retry
                  (now + backoff)%Z (max_retry e) n (Some err).

Definition retry_task (i : nat) (err : string) (backoff now : Z) (st : Store)
  : Store :=
  match tasks st !! i with
  | Some e =>
    if decide (state e = active)
    then mkStore (<[i := retry_envelope err backoff now e]> (tasks st))
                 (delete i (leases st)) (next_id st)
    else st
  | None => st
  end.

(** Modelled from the spec: the permanent failure of section 4.5: a task
    whose type has no handler is archived at once. *)
Definition archive (i : nat) (err : string) (st : Store) : Store :=
  match tasks st !! i with
  | Some e =>
    if decide (state e = active)
    then mkStore (<[i := mkEnvelope (type e) (payload e) (queue e) (id e)
                          archived (process_at e) (max_retry e)
                          (retry_count e) (Some err)]> (tasks st))
                 (delete i (leases st)) (next_id st)
    else st
  | None => st
  end.

(** Modelled from the spec: [promote_scheduled()] of section 4.2: a
    scheduled task whose [process_at] has elapsed becomes pending.  The
    specification names no other way out of the retry state, so a task
    waiting for its retry is promoted by the same sweep. *)
Definition promote_envelope (now : Z) (e : Envelope) : Envelope :=
  if (bool_decide (state e = scheduled) || bool_decide (state e = retry))
     && (process_at e <=? now)%Z
  then with_state pending e else e.

Definition promote_scheduled (now : Z) (st : Store) : Store :=
  mkStore (promote_envelope now <$> tasks st) (leases st) (next_id st).

(** Modelled from the spec: [reclaim_expired_leases()] of section 4.2:
    an active task whose lease has expired goes back to pending. *)
Definition lease_expired (now : Z) (ls : gmap nat Z) (i : nat) : bool :=
  match ls !! i with
  | Some t => (t <=? now)%Z
  | None => false
  end.

Definition reclaim_expired_leases (now : Z) (st : Store) : Store :=
  mkStore
    ((fun e => if bool_decide (state e = active)
                  && lease_expired now (leases st) (id e)
               then with_state pending e else e) <$> tasks st)
    (filter (fun kv => negb (kv.2 <=? now)%Z) (leases st))
    (next_id st).

(** Modelled from the spec: the exponential backoff of section 4.3,
    [base * 2 ^ retry_count], capped. *)
Definition backoff (base cap : Z) (retried : nat) : Z :=
  Z.min cap (base * 2 ^ Z.of_nat retried).

(** Modelled from the spec: the scheduling modifiers of an enqueue
    (section 4.1): [process_in] or [process_at] or neither; "supplying
    both is a configuration error". *)
Inductive ClientError : Type := ConfigurationError.

Definition is_process_in (o : Option_) : bool :=
  match o with ProcessIn _ => true | ProcessAt _ => false end.
Definition is_process_at (o : Option_) : bool :=
  match o with ProcessAt _ => true | ProcessIn _ => false end.

Definition resolve_options (now : Z) (opts : list Option_)
  : ClientError + Z :=
  if existsb is_process_in opts && existsb is_process_at opts
  then inl ConfigurationError
  else
    match opts with
    | [] => inr now
    | ProcessIn d :: _ => inr (now + d)%Z
    | ProcessAt t :: _ => inr t
    end.

(** Modelled from the spec: the Client API of section 6,
    [enqueue(type, payload, [process_in|process_at], [queue])], giving
    a task id or an error; the queue defaults to the default queue. *)
Definition default_queue : string := "default".
Definition default_max_retry : nat := 25.

Definition client_enqueue (now : Z) (task : asynq.Task)
    (opts : list Option_) (st : Store) : ClientError + nat * Store :=
  match resolve_options now opts with
  | inl e => inl e
  | inr at_ =>
    inr (enqueue now (asynq.Type_ task) (asynq.Payload task) default_queue
                 at_ default_max_retry st)
  end.

(** Modelled from the spec: the Handler Registry of section 4.5: a map
    from a type to a processing function on the payload bytes. *)
Abbreviation Registry :=
  (gmap string (context.Context -> asynq.Task -> Run (option error))).

(** How one execution of a handler ended, as the Dispatcher sees it: a
    returned error and a panic are both failures. *)
Definition handler_failed (r : Run (option error)) : bool :=
  match outcome r with
  | Returned None => false
  | Returned (Some _) => true
  | Panicked _ => true
  end.

(** Modelled from the spec: one worker slot of the Dispatcher (section
    4.3) on the task it claimed: the handler of the task's type runs on
    the payload; success is acknowledged, failure goes to [retry_task]
    with the backoff, a type without a handler is archived. *)
Definition execute (reg : Registry) (base cap now : Z) (i : nat) (st : Store)
  : Store :=
  match tasks st !! i with
  | Some e =>
    match reg !! type e with
    | None => archive i "HandlerNotFound" st
    | Some h =>
      if handler_failed (h (context.WithTask (type e))
                           (asynq.NewTask (type e) (payload e)))
      then retry_task i "handler failed" (backoff base cap (retry_count e)) now st
      else ack i st
    end
  | None => st
  end.

(** One attempt: claim the task, then execute it. *)
Definition attempt (reg : Registry) (base cap now lease : Z) (i : nat)
    (st : Store) : option Store :=
  match claim i now lease st with
  | Some st' => Some (execute reg base cap now i st')
  | None => None
  end.

(** Modelled from the spec: a Schedule Entry (section 3) and the
    Scheduler's tick (section 4.4).  [every] is the interval of the
    entry; a firing enqueues the bound task template as a new envelope
    with a fresh id and [process_at = now], and moves the next-fire
    time. *)
Record Entry : Type := mkEntry {
  spec : string;
  every : Z;
  template : asynq.Task;
  next_fire : Z
}.

Inductive SchedulerError : Type := InvalidSpec.

(** The interval of an ["@every <n>s"] specification, in seconds. *)
Definition parse_every (s : string) : option Z :=
  if String.prefix "@every " s then
    match json.span_digits (drop 7 s) with
    | (ds, "s") =>
      match strconv.ParseInt ds with
      | Some n => if (0 <? n)%Z then Some n else None
      | None => None
      end
    | _ => None
    end
  else None.

Definition register (now : Z) (cronspec : string) (task : asynq.Task)
    (entries : list Entry) : SchedulerError + list Entry :=
  match parse_every cronspec with
  | Some d => inr (entries ++ [mkEntry cronspec d task (now + d)%Z])
  | None => inl InvalidSpec
  end.

(** The envelopes one tick at [now] injects, and the entries after it. *)
Fixpoint tick (now : Z) (entries : list Entry) (st : Store)
  : list Entry * Store :=
  match entries with
  | [] => ([], st)
  | en :: rest =>
    if (next_fire en <=? now)%Z then
      let st' := snd (enqueue now (asynq.Type_ (template en))
                        (asynq.Payload (template en)) default_queue now
                        default_max_retry st) in
      let '(rest', st'') := tick now rest st' in
      (mkEntry (spec en) (every en) (template en) (now + every en)%Z :: rest',
       st'')
    else
      let '(rest', st'') := tick now rest st in (en :: rest', st'')
  end.

(** The ticks of the timer at the given times, in order. *)
Fixpoint ticks (times : list Z) (entries : list Entry) (st : Store)
  : list Entry * Store :=
  match times with
  | [] => (entries, st)
  | now :: times' =>
    let '(entries', st') := tick now entries st in ticks times' entries' st'
  end.

(** Modelled from the spec: the operations that change the store, as
    the labels of a transition system.  A step that is not enabled (a
    claim of a task that is not ready) is [None]. *)
Inductive Op : Type :=
| OpEnqueue (now : Z) (task : asynq.Task) (opts : list Option_)
| OpClaim (i : nat) (now lease : Z)
| OpAck (i : nat)
| OpRetry (i : nat) (err : string) (backoff now : Z)
| OpArchive (i : nat) (err : string)
| OpPromote (now : Z)
| OpReclaim (now : Z).

Definition step (op : Op) (st : Store) : option Store :=
  match op with
  | OpEnqueue now task opts =>
    match client_enqueue now task opts st with
    | inr (_, st') => Some st'
    | inl _ => None
    end
  | OpClaim i now lease => claim i now lease st
  | OpAck i => Some (ack i st)
  | OpRetry i err b now => Some (retry_task i err b now st)
  | OpArchive i err => Some (archive i err st)
  | OpPromote now => Some (promote_scheduled now st)
  | OpReclaim now => Some (reclaim_expired_leases now st)
  end.

Fixpoint run (ops : list Op) (st : Store) : option Store :=
  match ops with
  | [] => Some st
  | op :: ops' =>
    match step op st with
    | Some st' => run ops' st'
    | None => None
    end
  end.

(** *** Vocabulary for the properties of the core *)

(** One poll of the Dispatcher for task [i] at [now]: the promotion
    sweep, then an attempt if the task can be claimed.  The first
    component counts the attempts made. *)
Definition poll (reg : Registry) (base cap lease : Z) (i : nat)
    (acc : nat * Store) (now : Z) : nat * Store :=
  let st := promote_scheduled now (snd acc) in
  match attempt reg base cap now lease i st with
  | Some st' => (S (fst acc), st')
  | None => (fst acc, st)
  end.

Definition polls (reg : Registry) (base cap lease : Z) (i : nat)
    (times : list Z) (acc : nat * Store) : nat * Store :=
  fold_left (poll reg base cap lease i) times acc.

(** The times [t0], [t0 + cap], [t0 + 2 * cap], ... *)
(** times t0, t0 + cap, ... *)
Fixpoint spaced (t0 cap : Z) (n : nat) : list Z :=
  match n with
  | O => []
  | S n' => t0 :: spaced (t0 + cap) cap n'
  end.

(** The handler registered for [ty] fails on every task. *)
Definition always_fails (reg : Registry) (ty : string) : Prop :=
  exists h, reg !! ty = Some h /\ forall ctx t, handler_failed (h ctx t) = true.

(** A handler that fails on every task, and a registry that holds it. *)
Definition failing_handler (ctx : context.Context) (t : asynq.Task)
  : Run (option error) :=
  mret (Some (Errorf "job failed: %v" json.SyntaxError)).

Definition failing_registry : Registry := {[ "job" := failing_handler ]}.

(** What holds of task [i] after [n] failed attempts. *)
Record task_inv (ty : string) (retries : nat) (i n : nat) (st : Store) (e : Envelope) : Prop := {
  inv_lookup : tasks st !! i = Some e;
  inv_type : type e = ty;
  inv_max : max_retry e = retries;
  inv_count : retry_count e = n;
  inv_bound : (n <= retries + 1)%nat;
  inv_archived : state e = archived <-> n = (retries + 1)%nat;
  inv_not_active : state e <> active
}.

(** The task the Dispatcher hands to the handler when it executes [i]. *)
Definition delivered (i : nat) (st : Store) : option asynq.Task :=
  match tasks st !! i with
  | Some e => Some (asynq.NewTask (type e) (payload e))
  | None => None
  end.

(** Every id in use is below the next id to assign. *)
Definition wf_store (st : Store) : Prop :=
  forall i e, tasks st !! i = Some e -> (i < next_id st)%nat.

(** [st'] holds the task [i] of [st] with the same type and payload, or
    not at all. *)
Definition keeps (st st' : Store) : Prop :=
  (next_id st <= next_id st')%nat
  /\ forall i e', tasks st' !! i = Some e' ->
       (i < next_id st)%nat ->
       exists e, tasks st !! i = Some e /\ type e' = type e /\ payload e' = payload e.

(** Every envelope of [st'] that [st] did not hold carries the type and
    payload of the template [T]. *)
Definition fired_from (T : asynq.Task) (st st' : Store) : Prop :=
  (next_id st <= next_id st')%nat
  /\ forall i e, tasks st' !! i = Some e -> (next_id st <= i)%nat ->
       type e = asynq.Type_ T /\ payload e = asynq.Payload T.

(** *** The weighted selection of the Dispatcher *)

(** Modelled from the spec: the server configuration of section 6, a
    "map of queue name -> weight (positive integers)", as the list
    [main] gives to [asynq.NewServer]; a queue that is not configured
    has weight 0. *)
Definition weight (qs : list (string * Z)) (q : string) : Z :=
  match List.find (fun kv => String.eqb (fst kv) q) qs with
  | Some kv => snd kv
  | None => 0
  end.

(** Modelled from the spec: the weighted round-robin that section 4.3
    allows ("maintains a weighted round-robin or randomized-weighted
    selection across configured queues; on each free worker slot,
    selects a queue proportional to weight").  The dispatch slots are
    dealt in rounds: a round gives each queue as many slots as its
    weight, in the order of the configuration, and slot [n] is slot
    [n mod (the sum of the weights)] of its round.  The randomised
    selection that the specification allows as well is not modelled. *)
Definition round (qs : list (string * Z)) : list string :=
  flat_map (fun kv => repeat (fst kv) (Z.to_nat (snd kv))) qs.

Definition select_queue (qs : list (string * Z)) (slot : nat) : option string :=
  nth_error (round qs) (slot mod length (round qs)).

(** Whether slot [slot] is a dispatch opportunity of [q], and the number
    of dispatch opportunities of [q] among the slots [0 .. n - 1]. *)
Definition selected (qs : list (string * Z)) (q : string) (slot : nat) : bool :=
  match select_queue qs slot with
  | Some q' => String.eqb q' q
  | None => false
  end.

Fixpoint opportunities (qs : list (string * Z)) (q : string) (n : nat) : nat :=
  match n with
  | O => O
  | S n' => opportunities qs q n' + (if selected qs q n' then 1 else 0)
  end.

(** Modelled from the spec: the queues the Dispatcher falls back to
    when the selected one has no ready task (section 4.3, "falls back to
    lower-priority queues if empty"): the queues of lower weight,
    heaviest first. *)
Fixpoint insert_by_weight (kv : string * Z) (l : list (string * Z))
  : list (string * Z) :=
  match l with
  | [] => [kv]
  | x :: l' =>
    if (snd x <? snd kv)%Z then kv :: l else x :: insert_by_weight kv l'
  end.

Definition by_weight (qs : list (string * Z)) : list (string * Z) :=
  fold_right insert_by_weight [] qs.

Definition lower_queues (qs : list (string * Z)) (q : string) : list string :=
  map fst (List.filter (fun kv => (snd kv <? weight qs q)%Z) (by_weight qs)).

(** The ready tasks of a queue: pending, in that queue, with a
    [process_at] that has come; [backlog] is their number. *)
Definition is_ready (now : Z) (q : string) (st : Store) (i : nat) : bool :=
  match tasks st !! i with
  | Some e =>
    bool_decide (state e = pending) && (process_at e <=? now)%Z
    && String.eqb (queue e) q
  | None => false
  end.

Definition ready_ids (now : Z) (q : string) (st : Store) : list nat :=
  List.filter (is_ready now q st) (seq 0 (next_id st)).

Definition backlog (now : Z) (q : string) (st : Store) : nat :=
  length (ready_ids now q st).

(** Modelled from the spec: [dequeue] of section 4.2 on one queue
    ("atomically claims and returns one ready task ..., transitioning it
    to active and recording a lease expiry.  Returns [NoTaskAvailable]
    when nothing is ready").  The specification asks for no order
    within a queue; the ready task of least id is taken. *)
Definition dequeue (q : string) (now lease : Z) (st : Store)
  : option (nat * Store) :=
  match ready_ids now q st with
  | i :: _ =>
    match claim i now lease st with
    | Some st' => Some (i, st')
    | None => None
    end
  | [] => None
  end.

Fixpoint dequeue_first (order : list string) (now lease : Z) (st : Store)
  : option (nat * Store) :=
  match order with
  | [] => None
  | q :: rest =>
    match dequeue q now lease st with
    | Some r => Some r
    | None => dequeue_first rest now lease st
    end
  end.

(** Modelled from the spec: one free worker slot of the Dispatcher
    (section 4.3): it "selects a queue proportional to weight, attempts
    dequeue from it, falls back to lower-priority queues if empty". *)
Definition dispatch_slot (qs : list (string * Z)) (slot : nat) (now lease : Z)
    (st : Store) : option (nat * Store) :=
  match select_queue qs slot with
  | Some q => dequeue_first (q :: lower_queues qs q) now lease st
  | None => None
  end.

(** The queues of the tasks the Dispatcher claims in the [n] slots from
    [slot] on, in the order of the claims; a slot that finds no task
    adds nothing. *)
Fixpoint dispatches (qs : list (string * Z)) (now lease : Z) (slot n : nat)
    (st : Store) : list string :=
  match n with
  | O => []
  | S n' =>
    match dispatch_slot qs slot now lease st with
    | Some (i, st') =>
      match tasks st !! i with
      | Some e => queue e
      | None => EmptyString
      end :: dispatches qs now lease (S slot) n' st'
    | None => dispatches qs now lease (S slot) n' st
    end
  end.

(** The number of dispatches from queue [q] in a list of dispatches. *)
Definition dispatch_count (q : string) (l : list string) : nat :=
  length (List.filter (String.eqb q) l).

(** A store with [n] ready tasks in each of the three queues of
    [main], used to instantiate the theorems. *)
Fixpoint fill (n : nat) (st : Store) : Store :=
  match n with
  | O => st
  | S n' =>
    fill n'
      (snd (enqueue 0 "job" "{}" "low" 0 0
         (snd (enqueue 0 "job" "{}" "default" 0 0
            (snd (enqueue 0 "job" "{}" "critical" 0 0 st))))))
  end.

End core.

(** ** The ServeMux of [main], as the registry the Dispatcher consults *)

Module mux.
Import core.

Fixpoint registry_of (rt : runtime.State) (t : list Event) : Registry :=
  match t with
  | [] => ∅
  | HandleFunc pat h :: t' => <[pat := driver.handler_of h rt]> (registry_of rt t')
  | _ :: t' => registry_of rt t'
  end.

Definition registry (w : driver.World) (rt : runtime.State) : Registry :=
  registry_of rt (trace (driver.main w)).

End mux.

(** * The handlers and the traces of the driver *)

Section DriverTraces.
Import common.
Import driver.

Lemma trace_bind {A B} (m : Run A) (k : A -> Run B) a :
  outcome m = Returned a -> trace (m ≫= k) = trace m ++ trace (k a).
Proof.
  destruct m as [t o]. simpl. intros ->. unfold mbind, Run_bind, bind.
  destruct (k a). reflexivity.
Qed.

Lemma outcome_bind {A B} (m : Run A) (k : A -> Run B) a :
  outcome m = Returned a -> outcome (m ≫= k) = outcome (k a).
Proof.
  destruct m as [t o]. simpl. intros ->. unfold mbind, Run_bind, bind.
  destruct (k a). reflexivity.
Qed.

Lemma welcome_returns ctx p : outcome (common.HandleWelcomeTask ctx p) = Returned None.
Proof. reflexivity. Qed.

Lemma email_returns ctx p : outcome (common.HandleEmailTask ctx p) = Returned None.
Proof. reflexivity. Qed.

Lemma to_uint64_uint32 z : is_uint32 z -> to_uint64 z = z.
Proof.
  unfold is_uint32, uint32_max, to_uint64. intros H.
  apply Z.mod_small. lia.
Qed.

Lemma server_info_returns rt ctx p :
  runtime.wf_MemStats (runtime.ReadMemStats rt) ->
  outcome (common.HandleServerInfoTask rt ctx p) = Returned None.
Proof.
  intros (_ & _ & Hgc & _).
  unfold common.HandleServerInfoTask.
  destruct (0 <? runtime.NumGC (runtime.ReadMemStats rt))%Z eqn:E.
  - unfold runtime.div_uint64. rewrite to_uint64_uint32 by assumption.
    apply Z.ltb_lt in E.
    destruct (runtime.NumGC (runtime.ReadMemStats rt) =? 0)%Z eqn:E0.
    + apply Z.eqb_eq in E0. lia.
    + reflexivity.
  - reflexivity.
Qed.



Lemma enqueue_and_report_outcome w task opts what who :
  outcome (enqueue_and_report w task opts what who) = Returned tt.
Proof.
  unfold enqueue_and_report. destruct (EnqueueResult w task opts); reflexivity.
Qed.

Lemma enqueue_and_report_trace w task opts what who :
  exists e, trace (enqueue_and_report w task opts what who)
    = [Enqueue (asynq.Type_ task) (asynq.Payload task) opts; e]
    /\ (exists f a, e = Printf f a \/ e = LogPrintf f a).
Proof.
  unfold enqueue_and_report. destruct (EnqueueResult w task opts); eexists; split; try reflexivity; eauto.
Qed.

Lemma welcome_loop_outcome w tasks : forall i, outcome (welcome_loop w i tasks) = Returned tt.
Proof.
  induction tasks as [|t ts IH]; intros i; [reflexivity|].
  cbn [welcome_loop]. 
  erewrite outcome_bind; [apply IH|].
  unfold common.Marshal_WelcomePayload. apply enqueue_and_report_outcome.
Qed.

Lemma email_loop_outcome w tasks : forall i, outcome (email_loop w i tasks) = Returned tt.
Proof.
  induction tasks as [|t ts IH]; intros i; [reflexivity|].
  cbn [email_loop]. 
  erewrite outcome_bind; [apply IH|].
  unfold common.Marshal_EmailPayload. apply enqueue_and_report_outcome.
Qed.

Lemma register_server_info_outcome w : outcome (register_server_info w) = Returned tt.
Proof.
  unfold register_server_info, common.Marshal_ServerInfoPayload.
  destruct (RegisterResult w _ _); reflexivity.
Qed.


Lemma start_report_outcome w : outcome (start_report w) = Returned tt.
Proof. unfold start_report. destruct (StartResult w); reflexivity. Qed.

Lemma trace_defer {A} d (body : Run A) : trace (defer d body) = trace body ++ [d].
Proof. destruct body. reflexivity. Qed.

Lemma trace_emit_bind {B} e (k : unit -> Run B) : trace (emit e ≫= k) = e :: trace (k tt).
Proof. unfold mbind, Run_bind, bind, emit. destruct (k tt). reflexivity. Qed.





Lemma main_trace w :
  trace (main w) = setup_events w ++ produce_events w ++ shutdown_events.
Proof.
  unfold main. fold (redisAddr w). fold (start_report w).
  rewrite trace_emit_bind, trace_defer.
  repeat rewrite trace_emit_bind.
  rewrite (trace_bind _ _ tt) by apply register_server_info_outcome.
  rewrite trace_emit_bind.
  rewrite (trace_bind _ _ tt) by apply start_report_outcome.
  rewrite trace_emit_bind.
  rewrite (trace_bind _ _ tt) by apply welcome_loop_outcome.
  rewrite trace_emit_bind.
  rewrite (trace_bind _ _ tt) by apply email_loop_outcome.
  repeat rewrite trace_emit_bind.
  unfold setup_events, produce_events, shutdown_events.
  change (trace (emit (Println "✅ Shutdown complete"))) with [Println "✅ Shutdown complete"].
  repeat (progress cbn [app] || rewrite <- app_assoc). reflexivity.
Qed.

Section Interleave.
Context {A : Type}.
Implicit Types l r m : list A.

Lemma interleave_In l r m x : interleave l r m -> In x m <-> In x l \/ In x r.
Proof.
  induction 1; simpl; [tauto| |]; rewrite IHinterleave; tauto.
Qed.

Lemma interleave_filter (f : A -> bool) l r m :
  interleave l r m -> List.filter f r = [] -> List.filter f m = List.filter f l.
Proof.
  induction 1 as [|a l r m H IH|a l r m H IH]; simpl; intros Hr; [reflexivity| |].
  - rewrite IH by assumption. reflexivity.
  - destruct (f a); [discriminate|]. auto.
Qed.

Lemma interleave_split_l l1 a l2 r m :
  interleave (l1 ++ a :: l2) r m ->
  exists m1 m2 r1 r2, m = m1 ++ a :: m2 /\ r = r1 ++ r2
    /\ interleave l1 r1 m1 /\ interleave l2 r2 m2.
Proof.
  remember (l1 ++ a :: l2) as l eqn:El. intros H. revert l1 El.
  induction H as [|b l r m H IH|b l r m H IH]; intros l1 El.
  - destruct l1; discriminate.
  - destruct l1 as [|c l1]; simpl in El; injection El as -> ->.
    + exists [], m, [], r. repeat split; [constructor|assumption].
    + destruct (IH l1 eq_refl) as (m1 & m2 & r1 & r2 & -> & -> & H1 & H2).
      exists (c :: m1), m2, r1, r2. repeat split; [constructor|]; assumption.
  - destruct (IH l1 El) as (m1 & m2 & r1 & r2 & -> & -> & H1 & H2).
    exists (b :: m1), m2, (b :: r1), r2. repeat split; [constructor|]; assumption.
Qed.

Lemma interleave_sym l r m : interleave l r m -> interleave r l m.
Proof. induction 1; constructor; assumption. Qed.

Lemma interleave_split_r l r1 a r2 m :
  interleave l (r1 ++ a :: r2) m ->
  exists m1 m2 l1 l2, m = m1 ++ a :: m2 /\ l = l1 ++ l2
    /\ interleave l1 r1 m1 /\ interleave l2 r2 m2.
Proof.
  intros H. apply interleave_sym, interleave_split_l in H.
  destruct H as (m1 & m2 & l1 & l2 & -> & -> & H1 & H2).
  exists m1, m2, l1, l2. repeat split; apply interleave_sym; assumption.
Qed.

Lemma interleave_nil_r l : interleave l [] l.
Proof. induction l; constructor; assumption. Qed.

Lemma interleave_right_first l r : interleave l r (r ++ l).
Proof. induction r; simpl; [apply interleave_nil_r | constructor; assumption]. Qed.

End Interleave.

Lemma split_go_main w :
  split_go (trace (main w)) = (setup_events w, produce_events w ++ shutdown_events).
Proof. rewrite main_trace. reflexivity. Qed.


Lemma consumer_trace w :
  trace (consumer w) =
  [Println "🐰 Consumer started, waiting for tasks..."; ServerRun]
  ++ consumer_report w ++ [WgDone].
Proof. unfold consumer, consumer_report. destruct (RunResult w); reflexivity. Qed.

Lemma execution_inv w ex :
  execution w ex <->
  exists m, interleave (produce_events w ++ shutdown_events) (trace (consumer w)) m
            /\ ex = setup_events w ++ m.
Proof. unfold execution. rewrite split_go_main. reflexivity. Qed.

Lemma consumer_first_execution w : execution w (consumer_first w).
Proof.
  apply execution_inv.
  exists (trace (consumer w) ++ produce_events w ++ shutdown_events). split.
  - apply interleave_right_first.
  - unfold consumer_first. rewrite split_go_main. reflexivity.
Qed.


Lemma filter_app_nil {A} (f : A -> bool) l1 l2 :
  List.filter f l1 = [] -> List.filter f (l1 ++ l2) = List.filter f l2.
Proof. intros H. rewrite List.filter_app, H. reflexivity. Qed.

Lemma enqueue_and_report_filter f w task opts what who :
  (forall a b c, f (Enqueue a b c) = false) ->
  (forall a b, f (Printf a b) = false) -> (forall a b, f (LogPrintf a b) = false) ->
  List.filter f (trace (enqueue_and_report w task opts what who)) = [].
Proof.
  intros H1 H2 H3. unfold enqueue_and_report.
  destruct (EnqueueResult w task opts); simpl; rewrite H1, ?H2, ?H3; reflexivity.
Qed.



Lemma calls_app t1 t2 : calls (t1 ++ t2) = calls t1 ++ calls t2.
Proof. apply List.filter_app. Qed.

Lemma calls_bind {A B} (m : Run A) (k : A -> Run B) a :
  outcome m = Returned a ->
  calls (trace (m ≫= k)) = calls (trace m) ++ calls (trace (k a)).
Proof. intros H. rewrite (trace_bind _ _ a H). apply calls_app. Qed.

Lemma calls_enqueue_and_report w task opts what who :
  calls (trace (enqueue_and_report w task opts what who))
  = [Enqueue (asynq.Type_ task) (asynq.Payload task) opts].
Proof.
  unfold enqueue_and_report. destruct (EnqueueResult w task opts); reflexivity.
Qed.





Lemma calls_welcome_loop w tasks : forall i,
  calls (trace (welcome_loop w i tasks)) = welcome_calls i tasks.
Proof.
  induction tasks as [|p ps IH]; intros i; [reflexivity|].
  cbn [welcome_loop welcome_calls].
  unfold common.Marshal_WelcomePayload at 1.
  rewrite (calls_bind _ _ tt) by apply enqueue_and_report_outcome.
  rewrite calls_enqueue_and_report, IH. reflexivity.
Qed.

Lemma calls_email_loop w tasks : forall i,
  calls (trace (email_loop w i tasks)) = email_calls i tasks.
Proof.
  induction tasks as [|p ps IH]; intros i; [reflexivity|].
  cbn [email_loop email_calls].
  unfold common.Marshal_EmailPayload at 1.
  rewrite (calls_bind _ _ tt) by apply enqueue_and_report_outcome.
  rewrite calls_enqueue_and_report, IH. reflexivity.
Qed.

Lemma calls_register_server_info w :
  calls (trace (register_server_info w))
  = [SchedulerRegister "@every 30s" common.TypeServerInfo
       (asynq.Payload (server_info_task w))].
Proof.
  unfold register_server_info, common.Marshal_ServerInfoPayload.
  destruct (RegisterResult w _ _); reflexivity.
Qed.

Lemma calls_start_report w : calls (trace (start_report w)) = [].
Proof. unfold start_report. destruct (StartResult w); reflexivity. Qed.




Lemma calls_setup w : calls (setup_events w) = setup_calls w.
Proof. reflexivity. Qed.

Lemma calls_produce w : calls (produce_events w) = produce_calls w.
Proof.
  unfold produce_events. rewrite !calls_app.
  rewrite calls_register_server_info, calls_start_report,
    calls_welcome_loop, calls_email_loop.
  reflexivity.
Qed.

Lemma calls_shutdown : calls shutdown_events = shutdown_calls.
Proof. reflexivity. Qed.

Lemma calls_consumer w : calls (trace (consumer w)) = [ServerRun; WgDone].
Proof. rewrite consumer_trace. unfold consumer_report. destruct (RunResult w); reflexivity. Qed.

Lemma main_calls w :
  calls (trace (main w)) = setup_calls w ++ produce_calls w ++ shutdown_calls.
Proof.
  rewrite main_trace, !calls_app, calls_setup, calls_produce, calls_shutdown.
  reflexivity.
Qed.

Lemma interleave_filter_gen {A} (f : A -> bool) l r m :
  interleave l r m ->
  interleave (List.filter f l) (List.filter f r) (List.filter f m).
Proof.
  induction 1 as [|a l r m H IH|a l r m H IH]; simpl.
  - constructor.
  - destruct (f a); [constructor|]; assumption.
  - destruct (f a); [constructor|]; assumption.
Qed.

Lemma execution_calls w ex :
  execution w ex ->
  exists m, interleave (produce_calls w ++ shutdown_calls) [ServerRun; WgDone] m
            /\ calls ex = setup_calls w ++ m.
Proof.
  intros H. apply execution_inv in H. destruct H as (m & Hm & ->).
  exists (calls m). split.
  - rewrite <- calls_produce, <- calls_shutdown, <- calls_app, <- (calls_consumer w).
    apply interleave_filter_gen. assumption.
  - rewrite calls_app. reflexivity.
Qed.

Lemma In_calls e t : is_print e = false -> In e t <-> In e (calls t).
Proof.
  intros He. unfold calls. rewrite List.filter_In, He. simpl. tauto.
Qed.

Lemma filter_calls (f : Event -> bool) t :
  (forall e, f e = true -> is_print e = false) ->
  List.filter f t = List.filter f (calls t).
Proof.
  intros Hf. unfold calls. induction t as [|e t IH]; [reflexivity|].
  simpl. destruct (f e) eqn:E.
  - rewrite (Hf e E). simpl. rewrite E, IH. reflexivity.
  - destruct (is_print e); simpl; rewrite ?E; exact IH.
Qed.

Lemma shutdown_step_not_print e : is_shutdown_step e = true -> is_print e = false.
Proof. destruct e; simpl; congruence. Qed.

Lemma filter_nil_app_inv {A} (f : A -> bool) l1 l2 :
  List.filter f (l1 ++ l2) = [] -> List.filter f l1 = [] /\ List.filter f l2 = [].
Proof. rewrite List.filter_app. apply app_eq_nil. Qed.

(** Claim C4.  In every execution, the shutdown steps occur once each
    and in the order stop Scheduler, stop server, wait for the consumer,
    close the client; all of them come after the receipt of the signal,
    before which no shutdown step is issued. *)
Theorem C4_shutdown_order w ex :
  execution w ex ->
  List.filter is_shutdown_step ex
    = [SchedulerShutdown; ServerShutdown; WgWait; ClientClose]
  /\ exists pre post,
       ex = pre ++ SignalReceive :: post
       /\ List.filter is_shutdown_step pre = []
       /\ ~ In SignalReceive pre.
Proof.
  intros H. apply execution_inv in H. destruct H as (m & Hm & ->).
  assert (Hc : List.filter is_shutdown_step (trace (consumer w)) = []).
  { rewrite (filter_calls _ _ shutdown_step_not_print), calls_consumer. reflexivity. }
  assert (Hs : List.filter is_shutdown_step (setup_events w) = []) by reflexivity.
  assert (Hp : List.filter is_shutdown_step (produce_events w) = []).
  { rewrite (filter_calls _ _ shutdown_step_not_print), calls_produce. reflexivity. }
  split.
  - rewrite List.filter_app, Hs, (interleave_filter _ _ _ _ Hm Hc).
    rewrite List.filter_app, Hp. reflexivity.
  - change shutdown_events with (SignalReceive :: tl shutdown_events) in Hm.
    apply interleave_split_l in Hm.
    destruct Hm as (m1 & m2 & r1 & r2 & -> & Hr & H1 & H2).
    exists (setup_events w ++ m1), m2. split; [|split].
    + rewrite <- app_assoc. reflexivity.
    + rewrite Hr in Hc. apply filter_nil_app_inv in Hc. destruct Hc as [Hc1 _].
      rewrite List.filter_app, Hs, (interleave_filter _ _ _ _ H1 Hc1). exact Hp.
    + intros Hin. apply in_app_or in Hin. destruct Hin as [Hin|Hin].
      * apply (In_calls SignalReceive _ eq_refl) in Hin. rewrite calls_setup in Hin.
        simpl in Hin. intuition discriminate.
      * apply (interleave_In _ _ _ _ H1) in Hin. destruct Hin as [Hin|Hin].
        -- apply (In_calls SignalReceive _ eq_refl) in Hin. rewrite calls_produce in Hin.
           simpl in Hin. intuition discriminate.
        -- assert (Hin' : In SignalReceive (trace (consumer w))).
           { rewrite Hr. apply in_or_app. left. assumption. }
           apply (In_calls SignalReceive _ eq_refl) in Hin'. rewrite calls_consumer in Hin'.
           simpl in Hin'. intuition discriminate.
Qed.


Lemma execution_In_call w ex e :
  execution w ex -> is_print e = false ->
  In e ex <-> In e (setup_calls w) \/ In e (produce_calls w)
              \/ In e shutdown_calls \/ In e [ServerRun; WgDone].
Proof.
  intros H He. destruct (execution_calls _ _ H) as (m & Hm & Hex).
  rewrite (In_calls e ex He), Hex, in_app_iff, (interleave_In _ _ _ e Hm), in_app_iff.
  tauto.
Qed.

Lemma enqueue_calls_opts w ty data opts :
  In (Enqueue ty data opts) (setup_calls w) \/ In (Enqueue ty data opts) (produce_calls w)
  \/ In (Enqueue ty data opts) shutdown_calls \/ In (Enqueue ty data opts) [ServerRun; WgDone] ->
  opts = [] \/ exists d, opts = [ProcessIn d].
Proof.
  intros H. simpl in H. unfold enqueue_call in H.
  repeat match goal with
  | H : _ \/ _ |- _ => destruct H as [H|H]
  | H : False |- _ => destruct H
  | H : _ = Enqueue _ _ _ |- _ => try discriminate H; injection H as <- <- <-
  end; cbv [welcome_opts email_opts]; simpl; eauto.
Qed.

(** Claim C5.  Every [Enqueue] call of the driver carries at most one
    scheduling modifier, never [ProcessAt], and is accepted by the
    validation of the enqueue options; an enqueue that carries both a
    [ProcessIn] and a [ProcessAt] is a configuration error. *)
Theorem C5_at_most_one_modifier w ex ty data opts :
  execution w ex ->
  In (Enqueue ty data opts) ex ->
  (length opts <= 1)%nat
  /\ existsb core.is_process_at opts = false
  /\ (forall now, exists at_, core.resolve_options now opts = inr at_)
  /\ (forall now opts' d t,
        In (ProcessIn d) opts' -> In (ProcessAt t) opts' ->
        core.resolve_options now opts' = inl core.ConfigurationError).
Proof.
  intros Hex Hin.
  apply (execution_In_call _ _ (Enqueue ty data opts) Hex eq_refl) in Hin.
  apply enqueue_calls_opts in Hin.
  assert (Hboth : forall now opts' d t,
        In (ProcessIn d) opts' -> In (ProcessAt t) opts' ->
        core.resolve_options now opts' = inl core.ConfigurationError).
  { intros now opts' d t H1 H2. unfold core.resolve_options.
    assert (E1 : existsb core.is_process_in opts' = true)
      by (apply existsb_exists; exists (ProcessIn d); auto).
    assert (E2 : existsb core.is_process_at opts' = true)
      by (apply existsb_exists; exists (ProcessAt t); auto).
    rewrite E1, E2. reflexivity. }
  destruct Hin as [->|[d ->]]; simpl; repeat split; auto; intros; eexists; reflexivity.
Qed.

Lemma app_cons_not_in {A} (x : A) (s m l1 l2 : list A) :
  ~ In x s -> s ++ m = l1 ++ x :: l2 ->
  exists m1, l1 = s ++ m1 /\ m = m1 ++ x :: l2.
Proof.
  revert l1. induction s as [|a s IH]; intros l1 Hn E; simpl in *.
  - exists l1. auto.
  - destruct l1 as [|b l1]; simpl in E; injection E as -> E.
    + exfalso. apply Hn. left. reflexivity.
    + destruct (IH l1) as (m1 & -> & ->); [tauto|assumption|].
      exists m1. auto.
Qed.

(** Claim C6.  In every execution, no handler registration follows the
    start of the server; the registrations are exactly the three of
    [main]; and every task type the driver enqueues or registers with
    the scheduler has a handler registered before the server starts. *)
Theorem C6_registration_before_run w ex l1 l2 :
  execution w ex ->
  ex = l1 ++ ServerRun :: l2 ->
  (forall pat h, ~ In (HandleFunc pat h) l2)
  /\ (forall pat h, In (HandleFunc pat h) ex <->
        (pat, h) = (common.TypeWelcomeMessage, WelcomeHandler)
        \/ (pat, h) = (common.TypeEmailTask, EmailHandler)
        \/ (pat, h) = (common.TypeServerInfo, ServerInfoHandler))
  /\ (forall ty data opts, In (Enqueue ty data opts) ex ->
        exists h, In (HandleFunc ty h) l1)
  /\ (forall cronspec ty data, In (SchedulerRegister cronspec ty data) ex ->
        exists h, In (HandleFunc ty h) l1).
Proof.
  intros Hex E.
  assert (Hreg : forall pat h, In (HandleFunc pat h) ex <->
        (pat, h) = (common.TypeWelcomeMessage, WelcomeHandler)
        \/ (pat, h) = (common.TypeEmailTask, EmailHandler)
        \/ (pat, h) = (common.TypeServerInfo, ServerInfoHandler)).
  { intros pat h. rewrite (execution_In_call _ _ (HandleFunc pat h) Hex eq_refl). simpl.
    unfold enqueue_call. split.
    - intros H.
      repeat match goal with
      | H : _ \/ _ |- _ => destruct H as [H|H]
      | H : False |- _ => destruct H
      | H : _ = HandleFunc _ _ |- _ => try discriminate H; injection H as <- <-
      end; auto.
    - intros [H|[H|H]]; injection H as -> ->; left; auto 10. }
  pose proof Hex as Hex'.
  apply execution_inv in Hex'. destruct Hex' as (m & Hm & Hex').
  assert (Hsetup : exists m1, l1 = setup_events w ++ m1 /\ m = m1 ++ ServerRun :: l2).
  { apply app_cons_not_in; [|congruence].
    intros Hin. apply (In_calls ServerRun _ eq_refl) in Hin. rewrite calls_setup in Hin.
    simpl in Hin. intuition discriminate. }
  destruct Hsetup as (m1 & -> & ->).
  assert (Hl1 : forall pat h, In (HandleFunc pat h) ex -> In (HandleFunc pat h) (setup_events w ++ m1)).
  { intros pat h Hin. apply Hreg in Hin. apply in_or_app. left.
    apply (In_calls (HandleFunc pat h) _ eq_refl). rewrite calls_setup.
    destruct Hin as [H|[H|H]]; injection H as -> ->; simpl; auto 10. }
  split; [|split; [exact Hreg|split]].
  - intros pat h Hin.
    assert (Hin' : In (HandleFunc pat h) (m1 ++ ServerRun :: l2))
      by (apply in_or_app; right; right; assumption).
    apply (interleave_In _ _ _ _ Hm) in Hin'.
    destruct Hin' as [Hin'|Hin'].
    + apply (In_calls (HandleFunc pat h) _ eq_refl) in Hin'.
      rewrite calls_app, calls_produce, calls_shutdown in Hin'. simpl in Hin'.
      unfold enqueue_call in Hin'. intuition discriminate.
    + apply (In_calls (HandleFunc pat h) _ eq_refl) in Hin'.
      rewrite calls_consumer in Hin'. simpl in Hin'. intuition discriminate.
  - intros ty data opts Hin.
    apply (execution_In_call _ _ (Enqueue ty data opts) Hex eq_refl) in Hin. simpl in Hin. unfold enqueue_call in Hin.
    repeat match goal with
      | H : _ \/ _ |- _ => destruct H as [H|H]
      | H : False |- _ => destruct H
      | H : _ = Enqueue _ _ _ |- _ => try discriminate H; injection H as <- <- <-
      end; eexists; apply Hl1, Hreg; simpl; eauto.
  - intros cronspec ty data Hin.
    apply (execution_In_call _ _ (SchedulerRegister cronspec ty data) Hex eq_refl) in Hin. simpl in Hin. unfold enqueue_call in Hin.
    repeat match goal with
      | H : _ \/ _ |- _ => destruct H as [H|H]
      | H : False |- _ => destruct H
      | H : _ = SchedulerRegister _ _ _ |- _ => try discriminate H; injection H as <- <- <-
      end; eexists; apply Hl1, Hreg; simpl; eauto.
Qed.





Lemma server_info_no_error rt ctx p e :
  outcome (common.HandleServerInfoTask rt ctx p) <> Returned (Some e).
Proof.
  unfold common.HandleServerInfoTask.
  destruct (0 <? runtime.NumGC (runtime.ReadMemStats rt))%Z.
  - unfold runtime.div_uint64.
    destruct (to_uint64 (runtime.NumGC (runtime.ReadMemStats rt)) =? 0)%Z; discriminate.
  - discriminate.
Qed.

Lemma wrapper_decode_failure rt h ctx t e :
  decode_error h (asynq.Payload t) = Some e ->
  handler_of h rt ctx t = ([], Returned (Some (Errorf (wrap_format h) e))).
Proof.
  destruct h; simpl; unfold HandleWelcomeTask, HandleEmailTask, HandleServerInfoTask;
    destruct (json.Unmarshal _ _ _) as [p err]; simpl; intros ->; reflexivity.
Qed.

Lemma wrapper_decode_success rt h ctx t :
  decode_error h (asynq.Payload t) = None ->
  forall e, outcome (handler_of h rt ctx t) <> Returned (Some e).
Proof.
  destruct h; simpl; unfold HandleWelcomeTask, HandleEmailTask, HandleServerInfoTask;
    destruct (json.Unmarshal _ _ _) as [p err]; simpl; intros -> e;
    [discriminate | discriminate | apply server_info_no_error].
Qed.

(** Claim C3.  Each of the three wrapper handlers returns a non-nil
    error exactly when [json.Unmarshal] of the task payload fails; on a
    decode failure it returns the decode error wrapped by [fmt.Errorf],
    with an empty trace: the common handler, which always prints, is not
    invoked, and the run returns instead of panicking. *)
Theorem C3_wrapper_error_iff_decode_fails rt h ctx t :
  ((exists e, outcome (handler_of h rt ctx t) = Returned (Some e))
   <-> decode_error h (asynq.Payload t) <> None)
  /\ (forall e, decode_error h (asynq.Payload t) = Some e ->
        handler_of h rt ctx t = ([], Returned (Some (Errorf (wrap_format h) e)))).
Proof.
  split.
  - split.
    + intros [e He] Hnone. exact (wrapper_decode_success rt h ctx t Hnone e He).
    + intros Hne. destruct (decode_error h (asynq.Payload t)) as [e|] eqn:E; [|congruence].
      exists (Errorf (wrap_format h) e). rewrite (wrapper_decode_failure rt h ctx t e E).
      reflexivity.
  - apply wrapper_decode_failure.
Qed.

Lemma common_handlers_emit rt ctx :
  (forall p, trace (common.HandleWelcomeTask ctx p) <> [])
  /\ (forall p, trace (common.HandleEmailTask ctx p) <> [])
  /\ (forall p, trace (common.HandleServerInfoTask rt ctx p) <> []).
Proof.
  repeat split; intros p; try discriminate.
  unfold common.HandleServerInfoTask. rewrite trace_emit_bind. discriminate.
Qed.


(** Claim C8.  For every payload and every well-formed [MemStats],
    [HandleServerInfoTask] returns [nil] without a panic; when [NumGC] is
    positive the divisor is not zero and the average-pause line is
    printed, and when [NumGC] is zero the N/A line is printed and no
    division is evaluated. *)
Theorem C8_no_division_by_zero rt ctx p :
  runtime.wf_MemStats (runtime.ReadMemStats rt) ->
  let m := runtime.ReadMemStats rt in
  let r := common.HandleServerInfoTask rt ctx p in
  outcome r = Returned None
  /\ (if (0 <? runtime.NumGC m)%Z
      then to_uint64 (runtime.NumGC m) <> 0%Z
           /\ In (avg_pause_line
                    (wrap64 (runtime.PauseTotalNs m / to_uint64 (runtime.NumGC m)))) (trace r)
           /\ ~ In avg_pause_na (trace r)
      else In avg_pause_na (trace r) /\ forall q, ~ In (avg_pause_line q) (trace r)).
Proof.
  intros Hwf m r. split; [apply server_info_returns; assumption|].
  destruct Hwf as (_ & _ & Hgc & _). fold m in Hgc.
  subst r. unfold common.HandleServerInfoTask. fold m.
  destruct (0 <? runtime.NumGC m)%Z eqn:E.
  - apply Z.ltb_lt in E.
    assert (Hne : to_uint64 (runtime.NumGC m) <> 0%Z)
      by (rewrite to_uint64_uint32 by assumption; lia).
    split; [exact Hne|].
    unfold runtime.div_uint64. apply Z.eqb_neq in Hne. rewrite Hne.
    unfold avg_pause_line, avg_pause_na. simpl. split.
    + auto 20.
    + intuition discriminate.
  - unfold avg_pause_line, avg_pause_na. simpl. split.
    + auto 20.
    + intros q H. intuition discriminate.
Qed.
End DriverTraces.

(** * The retry budget *)

Section RetryBudget.
Import core.

Lemma retry_envelope_spec err b now e :
  retry_count (retry_envelope err b now e) = S (retry_count e)
  /\ max_retry (retry_envelope err b now e) = max_retry e
  /\ type (retry_envelope err b now e) = type e
  /\ payload (retry_envelope err b now e) = payload e
  /\ ((S (retry_count e) <= max_retry e)%nat ->
      state (retry_envelope err b now e) = retry
      /\ process_at (retry_envelope err b now e) = (now + b)%Z)
  /\ ((max_retry e < S (retry_count e))%nat ->
      state (retry_envelope err b now e) = archived).
Proof.
  unfold retry_envelope.
  destruct (max_retry e <? S (retry_count e))%nat eqn:E; simpl.
  - apply Nat.ltb_lt in E. repeat split; auto; lia.
  - apply Nat.ltb_ge in E. repeat split; auto; lia.
Qed.

Lemma promote_lookup now st i :
  tasks (promote_scheduled now st) !! i = promote_envelope now <$> tasks st !! i.
Proof. unfold promote_scheduled. simpl. apply lookup_fmap. Qed.

Lemma poll_inv reg base cap lease ty retries i n st e now :
  always_fails reg ty ->
  task_inv ty retries i n st e ->
  exists e', task_inv ty retries i (fst (poll reg base cap lease i (n, st) now))
               (snd (poll reg base cap lease i (n, st) now)) e'.
Proof.
  intros (h & Hreg & Hfail) [Hl Hty Hmax Hcnt Hb Harch Hact].
  unfold poll. cbn [fst snd].
  set (st1 := promote_scheduled now st).
  set (e1 := promote_envelope now e).
  assert (Hl1 : tasks st1 !! i = Some e1).
  { subst st1 e1. rewrite promote_lookup, Hl. reflexivity. }
  assert (He1 : type e1 = ty /\ max_retry e1 = retries /\ retry_count e1 = n
                /\ state e1 <> active /\ (state e1 = archived <-> n = (retries + 1)%nat)).
  { subst e1. unfold promote_envelope.
    destruct (_ && _) eqn:E; [|tauto]. simpl.
    split; [assumption|]. split; [assumption|]. split; [assumption|].
    split; [discriminate|]. split; [discriminate|].
    intros ->. apply andb_true_iff in E. destruct E as [E _].
    apply orb_true_iff in E. destruct Harch as [_ Harch]. specialize (Harch eq_refl).
    destruct E as [E|E]; apply bool_decide_eq_true in E; congruence. }
  destruct He1 as (Hty1 & Hmax1 & Hcnt1 & Hact1 & Harch1).
  unfold attempt, claim. rewrite Hl1.
  destruct (decide (state e1 = pending)) as [Hp|Hp];
    [destruct (process_at e1 <=? now)%Z eqn:Hat|].
  - (* an attempt *)
    cbn [fst snd]. unfold execute. cbn [tasks]. rewrite lookup_insert_eq.
    cbn [type with_state]. rewrite Hty1, Hreg, Hfail.
    unfold retry_task. cbn [tasks]. rewrite lookup_insert_eq.
    cbn [state with_state]. rewrite decide_True by reflexivity.
    set (e2 := retry_envelope _ _ _ _).
    exists e2.
    destruct (retry_envelope_spec "handler failed"
                (backoff base cap (retry_count (with_state active e1))) now
                (with_state active e1)) as (Hc & Hm & Ht & _ & Hret & Harc).
    fold e2 in Hc, Hm, Ht, Hret, Harc. cbn [retry_count max_retry type with_state] in *.
    assert (Hn : (n <= retries)%nat).
    { destruct (Nat.eq_dec n (retries + 1)) as [Heq|Hne]; [|lia].
      apply Harch1 in Heq. congruence. }
    split; cbn [tasks].
    + rewrite lookup_insert_eq. reflexivity.
    + congruence.
    + congruence.
    + congruence.
    + lia.
    + rewrite Hmax1, Hcnt1 in *. split.
      * intros Ha. destruct (Nat.eq_dec n retries) as [->|Hne]; [lia|].
        destruct Hret as [Hret _]; [lia|]. congruence.
      * intros Heq. apply Harc. lia.
    + rewrite Hmax1, Hcnt1 in *.
      destruct (Nat.eq_dec n retries) as [->|Hne].
      * rewrite Harc by lia. discriminate.
      * destruct Hret as [Hret _]; [lia|]. rewrite Hret. discriminate.
  - exists e1. cbn [fst snd]. split; auto.
  - exists e1. cbn [fst snd]. split; auto.
Qed.

Lemma polls_inv reg base cap lease ty retries i times :
  always_fails reg ty ->
  forall n st e,
  task_inv ty retries i n st e ->
  exists e', task_inv ty retries i (fst (polls reg base cap lease i times (n, st)))
               (snd (polls reg base cap lease i times (n, st))) e'.
Proof.
  intros Hf. unfold polls.
  induction times as [|now times IH]; intros n st e Hinv; cbn [fold_left].
  - exists e. assumption.
  - destruct (poll_inv reg base cap lease ty retries i n st e now Hf Hinv) as (e' & He').
    destruct (poll reg base cap lease i (n, st) now) as [n' st'].
    apply (IH n' st' e' He').
Qed.

Lemma enqueue_inv now ty data q at_ retries st :
  exists e, task_inv ty retries (fst (enqueue now ty data q at_ retries st)) 0
              (snd (enqueue now ty data q at_ retries st)) e
            /\ payload e = data /\ process_at e = at_.
Proof.
  unfold enqueue. cbn [fst snd]. eexists. split; [split|]; cbn [tasks].
  - apply lookup_insert_eq.
  - reflexivity.
  - reflexivity.
  - reflexivity.
  - lia.
  - cbn [state]. split; [|lia]. destruct (at_ <=? now)%Z; discriminate.
  - cbn [state]. destruct (at_ <=? now)%Z; discriminate.
  - split; reflexivity.
Qed.

Lemma backoff_le_cap base cap n : (backoff base cap n <= cap)%Z.
Proof. unfold backoff. lia. Qed.

Lemma poll_progress reg base cap lease ty retries i n st e now :
  always_fails reg ty ->
  task_inv ty retries i n st e ->
  (n <= retries)%nat ->
  (process_at e <= now)%Z ->
  exists e', task_inv ty retries i (S n) (snd (poll reg base cap lease i (n, st) now)) e'
             /\ fst (poll reg base cap lease i (n, st) now) = S n
             /\ ((S n <= retries)%nat -> (process_at e' <= now + cap)%Z).
Proof.
  intros (h & Hreg & Hfail) [Hl Hty Hmax Hcnt Hb Harch Hact] Hn Hat.
  unfold poll. cbn [fst snd].
  assert (Hna : state e <> archived) by (intros Ha; apply Harch in Ha; lia).
  assert (Hl1 : tasks (promote_scheduled now st) !! i = Some (with_state pending e)).
  { rewrite promote_lookup, Hl. cbn. f_equal. unfold promote_envelope.
    apply Z.leb_le in Hat. rewrite Hat.
    destruct e as [ty' d q i' s pa mr rc le]. cbn in *.
    destruct s; cbn; try reflexivity; congruence. }
  unfold attempt, claim. rewrite Hl1. cbn [state with_state].
  rewrite decide_True by reflexivity.
  cbn [process_at with_state]. apply Z.leb_le in Hat. rewrite Hat. apply Z.leb_le in Hat.
  cbn [fst snd]. unfold execute. cbn [tasks]. rewrite lookup_insert_eq.
  cbn [type with_state]. rewrite Hty, Hreg, Hfail.
  unfold retry_task. cbn [tasks]. rewrite lookup_insert_eq.
  cbn [state with_state]. rewrite decide_True by reflexivity.
  set (e2 := retry_envelope _ _ _ _).
  exists e2.
  destruct (retry_envelope_spec "handler failed"
              (backoff base cap (retry_count (with_state active (with_state pending e)))) now
              (with_state active (with_state pending e))) as (Hc & Hm & Ht & _ & Hret & Harc).
  fold e2 in Hc, Hm, Ht, Hret, Harc. cbn [retry_count max_retry type with_state] in *.
  rewrite Hmax, Hcnt in *.
  split; [split; cbn [tasks]|split; [reflexivity|]].
  - rewrite lookup_insert_eq. reflexivity.
  - congruence.
  - congruence.
  - congruence.
  - lia.
  - split.
    + intros Ha. destruct (Nat.eq_dec n retries) as [->|Hne]; [lia|].
      destruct Hret as [Hret _]; [lia|]. congruence.
    + intros Heq. apply Harc. lia.
  - destruct (Nat.eq_dec n retries) as [->|Hne].
    + rewrite Harc by lia. discriminate.
    + destruct Hret as [Hret _]; [lia|]. rewrite Hret. discriminate.
  - intros Hlt. destruct Hret as [_ Hret]; [lia|]. rewrite Hret.
    pose proof (backoff_le_cap base cap n). lia.
Qed.

Lemma polls_reach reg base cap lease ty retries i :
  always_fails reg ty ->
  forall k n st e t,
  task_inv ty retries i n st e ->
  (n + k = retries + 1)%nat ->
  (process_at e <= t)%Z ->
  exists e', task_inv ty retries i (retries + 1)
               (snd (polls reg base cap lease i (spaced t cap k) (n, st))) e'
             /\ fst (polls reg base cap lease i (spaced t cap k) (n, st)) = (retries + 1)%nat.
Proof.
  intros Hf. unfold polls.
  induction k as [|k IH]; intros n st e t Hinv Hk Hat; cbn [spaced fold_left].
  - exists e. cbn [fst snd]. replace (retries + 1)%nat with n by lia. auto.
  - destruct (poll_progress reg base cap lease ty retries i n st e t Hf Hinv)
      as (e' & He' & Hfst & Hpa); [lia|assumption|].
    destruct (poll reg base cap lease i (n, st) t) as [n' st']. cbn [fst snd] in *. subst n'.
    destruct k as [|k'].
    + cbn [spaced fold_left fst snd]. exists e'. replace (retries + 1)%nat with (S n) by lia. auto.
    + apply (IH (S n) st' e' (t + cap)%Z He'); [lia|apply Hpa; lia].
Qed.

(** Claim C2.  A task whose handler fails on every attempt: after any
    sequence of polls the number of attempts equals [retry_count], is at
    most [max_retry + 1], and the task is archived exactly when it is
    [max_retry + 1]; polls spaced by the backoff cap do reach the
    archived state, after exactly [max_retry + 1] attempts.  Every retry
    transition increments [retry_count]; it sets [process_at] to
    [now + backoff] while the count stays within [max_retry] and
    archives the task when the count exceeds it. *)
Theorem C2_archived_after_max_retry_plus_one
    reg base cap lease now ty data q at_ retries st0 :
  always_fails reg ty ->
  let i := fst (enqueue now ty data q at_ retries st0) in
  let st1 := snd (enqueue now ty data q at_ retries st0) in
  (forall times,
     let r := polls reg base cap lease i times (0%nat, st1) in
     exists e, tasks (snd r) !! i = Some e
               /\ retry_count e = fst r
               /\ (fst r <= retries + 1)%nat
               /\ (state e = archived <-> fst r = (retries + 1)%nat))
  /\ (let r := polls reg base cap lease i (spaced at_ cap (retries + 1)) (0%nat, st1) in
      fst r = (retries + 1)%nat
      /\ exists e, tasks (snd r) !! i = Some e /\ state e = archived)
  /\ (forall err b t e,
        retry_count (retry_envelope err b t e) = S (retry_count e)
        /\ ((S (retry_count e) <= max_retry e)%nat ->
            state (retry_envelope err b t e) = retry
            /\ process_at (retry_envelope err b t e) = (t + b)%Z)
        /\ ((max_retry e < S (retry_count e))%nat ->
            state (retry_envelope err b t e) = archived)).
Proof.
  intros Hf i st1.
  destruct (enqueue_inv now ty data q at_ retries st0) as (e0 & Hinv0 & _ & Hat0).
  fold i st1 in Hinv0.
  split; [|split].
  - intros times r.
    destruct (polls_inv reg base cap lease ty retries i times Hf 0%nat st1 e0 Hinv0)
      as (e & [Hl _ _ Hc Hb Ha _]).
    exists e. subst r. auto.
  - intros r.
    destruct (polls_reach reg base cap lease ty retries i Hf (retries + 1) 0 st1 e0 at_
                Hinv0) as (e & [Hl _ _ _ _ Ha _] & Hfst); [lia|lia|].
    subst r. split; [assumption|]. exists e. split; [assumption|]. apply Ha. reflexivity.
  - intros err b t e.
    destruct (retry_envelope_spec err b t e) as (H1 & _ & _ & _ & H2 & H3). auto.
Qed.
End RetryBudget.

(** * Integers as decimal text *)

Section Numbers.
Import strconv.
Import codec.

Lemma app_cons c s t : String c s +:+ t = String c (s +:+ t).
Proof. reflexivity. Qed.

Lemma app_nil_l s : EmptyString +:+ s = s.
Proof. reflexivity. Qed.

Lemma app_nil_r s : s +:+ EmptyString = s.
Proof. induction s as [|c s IH]; [reflexivity|]. rewrite app_cons, IH. reflexivity. Qed.

Lemma app_assoc s t u : (s +:+ t) +:+ u = s +:+ (t +:+ u).
Proof. induction s as [|c s IH]; [reflexivity|]. rewrite !app_cons, IH. reflexivity. Qed.

Lemma len_app s t : len (s +:+ t) = (len s + len t)%nat.
Proof. induction s as [|c s IH]; [reflexivity|]. rewrite app_cons. cbn [len String.length]. unfold len in IH. rewrite IH. reflexivity. Qed.


Lemma code_byte_of n : (n < 256)%N -> code (byte_of n) = n.
Proof. intros H. unfold code, byte_of. apply N_ascii_embedding. assumption. Qed.

Lemma byte_of_code c : byte_of (code c) = c.
Proof. apply ascii_N_embedding. Qed.

Lemma is_digit_digit_char d : (d < 10)%N -> is_digit (digit_char d) = true.
Proof.
  intros H. unfold is_digit, digit_char. rewrite code_byte_of by lia.
  apply andb_true_iff. split; apply N.leb_le; lia.
Qed.

Lemma code_digit_char d : (d < 10)%N -> code (digit_char d) = (48 + d)%N.
Proof. intros H. unfold digit_char. apply code_byte_of. lia. Qed.

Lemma format_digits_app fuel : forall n acc rest,
  format_digits fuel n acc +:+ rest = format_digits fuel n (acc +:+ rest).
Proof.
  induction fuel as [|f IH]; intros n acc rest; [reflexivity|].
  cbn [format_digits]. destruct (n <? 10)%N; [reflexivity|]. rewrite IH. reflexivity.
Qed.

Lemma parse_format_digits fuel : forall n acc,
  (n < 10 ^ N.of_nat fuel)%N ->
  parse_digits (format_digits fuel n acc) 0 = parse_digits acc n.
Proof.
  induction fuel as [|f IH]; intros n acc Hn.
  - cbn in Hn. assert (n = 0%N) by lia. subst. reflexivity.
  - cbn [format_digits].
    assert (Hd : (n mod 10 < 10)%N) by (apply N.mod_lt; lia).
    destruct (n <? 10)%N eqn:E.
    + apply N.ltb_lt in E. rewrite N.mod_small by assumption.
      cbn [parse_digits]. rewrite is_digit_digit_char, code_digit_char by assumption.
      f_equal. clear. lia.
    + apply N.ltb_ge in E. rewrite IH.
      * cbn [parse_digits]. rewrite is_digit_digit_char, code_digit_char by assumption.
        f_equal. pose proof (N.div_mod n 10 ltac:(lia)) as H. clear - H. revert H. generalize (n mod 10)%N (n / 10)%N. intros; lia.
      * rewrite Nat2N.inj_succ, N.pow_succ_r' in Hn.
        apply N.Div0.div_lt_upper_bound. lia.
Qed.

Lemma span_format_digits fuel : forall n acc,
  json.span_digits (format_digits fuel n acc)
  = (format_digits fuel n (fst (json.span_digits acc)), snd (json.span_digits acc)).
Proof.
  induction fuel as [|f IH]; intros n acc.
  - cbn [format_digits]. destruct (json.span_digits acc). reflexivity.
  - cbn [format_digits].
    assert (Hd : (n mod 10 < 10)%N) by (apply N.mod_lt; lia).
    assert (Hs : forall acc', json.span_digits (String (digit_char (n mod 10)) acc')
               = (String (digit_char (n mod 10)) (fst (json.span_digits acc')),
                  snd (json.span_digits acc'))).
    { intros acc'. cbn [json.span_digits]. rewrite is_digit_digit_char by assumption.
      destruct (json.span_digits acc'). reflexivity. }
    destruct (n <? 10)%N.
    + apply Hs.
    + rewrite IH, Hs. reflexivity.
Qed.

Lemma format_digits_head fuel : forall n acc,
  (0 < n < 10 ^ N.of_nat fuel)%N ->
  exists c s, format_digits fuel n acc = String c s
              /\ is_digit c = true /\ c <> "0"%char.
Proof.
  induction fuel as [|f IH]; intros n acc Hn.
  - cbn in Hn. lia.
  - cbn [format_digits].
    destruct (n <? 10)%N eqn:E.
    + apply N.ltb_lt in E. rewrite N.mod_small by assumption.
      eexists _, _. split; [reflexivity|]. split; [apply is_digit_digit_char; assumption|].
      intros Hc. apply (f_equal code) in Hc. rewrite code_digit_char in Hc by assumption.
      cbn in Hc. lia.
    + apply N.ltb_ge in E. apply IH.
      rewrite Nat2N.inj_succ, N.pow_succ_r' in Hn. split.
      * apply N.div_str_pos. lia.
      * apply N.Div0.div_lt_upper_bound. lia.
Qed.

Lemma uint64_digits n : (Z.of_N n <= 2 ^ 64)%Z -> (n < 10 ^ N.of_nat 20)%N.
Proof. intros H. change (10 ^ N.of_nat 20)%N with 100000000000000000000%N. lia. Qed.

Lemma FormatUint_head n :
  (n < 10 ^ N.of_nat 20)%N ->
  exists c s, FormatUint n = String c s /\ is_digit c = true.
Proof.
  intros Hn. destruct (N.eq_dec n 0%N) as [->|Hne].
  - exists "0"%char, EmptyString. auto.
  - destruct (format_digits_head 20 n EmptyString) as (c & s & E1 & Hd & _); [lia|].
    exists c, s. auto.
Qed.


Lemma span_digits_end s : is_number_end s -> json.span_digits s = (EmptyString, s).
Proof. destruct s as [|c s]; [intros []|]. intros [->| ->]; reflexivity. Qed.

Lemma scan_frac_end s : is_number_end s -> json.scan_frac s = Some (EmptyString, s).
Proof. destruct s as [|c s]; [intros []|]. intros [->| ->]; reflexivity. Qed.

Lemma scan_exp_end s : is_number_end s -> json.scan_exp s = Some (EmptyString, s).
Proof. destruct s as [|c s]; [intros []|]. intros [->| ->]; reflexivity. Qed.

Lemma scan_int_FormatUint n rest :
  (n < 10 ^ N.of_nat 20)%N -> is_number_end rest ->
  json.scan_int (FormatUint n +:+ rest) = Some (FormatUint n, rest).
Proof.
  intros Hn Hr. unfold FormatUint. rewrite format_digits_app, app_nil_l.
  destruct (N.eq_dec n 0%N) as [->|Hne].
  - reflexivity.
  - destruct (format_digits_head 20 n rest) as (c & s & E & Hd & Hc); [lia|].
    pose proof (span_format_digits 20 n rest) as Hs.
    rewrite (span_digits_end rest Hr) in Hs. cbn [fst snd] in Hs.
    rewrite E in Hs |- *. cbn [json.span_digits] in Hs. rewrite Hd in Hs.
    cbn [json.scan_int].
    apply Ascii.eqb_neq in Hc. rewrite Hc, Hd.
    destruct (json.span_digits s) as [ds r]. rewrite Hs. reflexivity.
Qed.

Lemma digit_not_minus c : is_digit c = true -> (c =? "-")%char = false.
Proof. intros H. apply Ascii.eqb_neq. intros ->. discriminate. Qed.

Lemma scan_number_FormatInt z rest :
  is_int64 z -> is_number_end rest ->
  json.scan_number (FormatInt z +:+ rest) = Some (FormatInt z, rest).
Proof.
  intros Hz Hr. unfold is_int64, int64_min, int64_max in Hz. unfold FormatInt.
  destruct (z <? 0)%Z eqn:E.
  - apply Z.ltb_lt in E.
    rewrite app_cons. unfold json.scan_number. cbn [Ascii.eqb Bool.eqb].
    rewrite scan_int_FormatUint by (try apply uint64_digits; try assumption; lia).
    rewrite scan_frac_end, scan_exp_end by assumption.
    rewrite !app_nil_r. reflexivity.
  - apply Z.ltb_ge in E. unfold json.scan_number.
    destruct (FormatUint_head (Z.to_N z)) as (c & s & Hh & Hd);
      [apply uint64_digits; lia|].
    pose proof (scan_int_FormatUint (Z.to_N z) rest) as Hsi.
    rewrite Hh in Hsi |- *. rewrite app_cons in Hsi |- *.
    rewrite (digit_not_minus c Hd).
    rewrite Hsi by (try apply uint64_digits; try assumption; lia).
    rewrite scan_frac_end, scan_exp_end by assumption.
    rewrite !app_nil_r. reflexivity.
Qed.

Lemma digit_not_plus c : is_digit c = true -> (c =? "+")%char = false.
Proof. intros H. apply Ascii.eqb_neq. intros ->. discriminate. Qed.

Lemma ParseInt_FormatInt z : is_int64 z -> ParseInt (FormatInt z) = Some z.
Proof.
  intros Hz. unfold is_int64, int64_min, int64_max in Hz. unfold FormatInt.
  destruct (z <? 0)%Z eqn:E.
  - apply Z.ltb_lt in E. unfold ParseInt. cbn [Ascii.eqb Bool.eqb].
    destruct (FormatUint_head (Z.to_N (- z))) as (c & s & Hh & Hd);
      [apply uint64_digits; lia|].
    pose proof (parse_format_digits 20 (Z.to_N (- z)) EmptyString) as Hp.
    fold (FormatUint (Z.to_N (- z))) in Hp. rewrite Hh in Hp |- *.
    rewrite Hp by (apply uint64_digits; lia). cbn [parse_digits].
    rewrite Z2N.id by lia.
    replace (- - z)%Z with z by lia.
    unfold int64_min, int64_max.
    destruct (_ <=? z)%Z eqn:E1; [|apply Z.leb_gt in E1; lia].
    destruct (z <=? _)%Z eqn:E2; [|apply Z.leb_gt in E2; lia].
    reflexivity.
  - apply Z.ltb_ge in E. unfold ParseInt.
    destruct (FormatUint_head (Z.to_N z)) as (c & s & Hh & Hd);
      [apply uint64_digits; lia|].
    pose proof (parse_format_digits 20 (Z.to_N z) EmptyString) as Hp.
    fold (FormatUint (Z.to_N z)) in Hp. rewrite Hh in Hp |- *.
    rewrite (digit_not_minus c Hd), (digit_not_plus c Hd).
    rewrite Hp by (apply uint64_digits; lia). cbn [parse_digits].
    rewrite Z2N.id by lia.
    unfold int64_min, int64_max.
    destruct (_ <=? z)%Z eqn:E1; [|apply Z.leb_gt in E1; lia].
    destruct (z <=? _)%Z eqn:E2; [|apply Z.leb_gt in E2; lia].
    reflexivity.
Qed.
End Numbers.

(** * The JSON round trip *)

Section RoundTrip.
Import strconv.
Import codec.
Import common.

Lemma unquote_piece b :
  (code b <? utf8.RuneSelf)%N = true ->
  forall fuel tail,
    json.unquote (S fuel) (piece b +:+ tail)
    = json.prepend (String b EmptyString) (json.unquote fuel tail).
Proof.
  destruct b as [[] [] [] [] [] [] [] []]; intros Hb; try discriminate Hb;
    intros fuel tail; reflexivity.
Qed.

Lemma len_piece_pos b : (1 <= len (piece b))%nat.
Proof.
  destruct b as [[] [] [] [] [] [] [] []]; cbv; lia.
Qed.

Lemma escape_nil fuel : json.escape fuel EmptyString = EmptyString.
Proof. destruct fuel; reflexivity. Qed.

Lemma escape_ascii_cons fuel b r :
  (code b <? utf8.RuneSelf)%N = true ->
  json.escape (S fuel) (String b r) = piece b +:+ json.escape fuel r.
Proof. intros Hb. cbn [json.escape]. rewrite Hb. reflexivity. Qed.

Lemma unquote_escape_ascii s :
  all_ascii s = true ->
  forall fuel1 fuel2 rest,
    (len s <= fuel1)%nat ->
    (len (json.escape fuel1 s) < fuel2)%nat ->
    json.unquote fuel2 (json.escape fuel1 s +:+ String dquote rest) = Some (s, rest).
Proof.
  induction s as [|b r IH]; intros Ha fuel1 fuel2 rest H1 H2.
  - rewrite escape_nil in *. destruct fuel2 as [|f2]; [cbn in H2; lia|]. reflexivity.
  - cbn [all_ascii] in Ha. apply andb_true_iff in Ha. destruct Ha as [Hb Hr].
    destruct fuel1 as [|f1]; [cbn in H1; lia|].
    rewrite (escape_ascii_cons f1 b r Hb) in *.
    rewrite len_app in H2. pose proof (len_piece_pos b) as Hp.
    destruct fuel2 as [|f2]; [lia|].
    rewrite app_assoc, (unquote_piece b Hb).
    rewrite (IH Hr f1 f2 rest); [reflexivity| |lia].
    cbn [len String.length] in H1. unfold len. lia.
Qed.

Lemma parse_value_quote f d X :
  json.parse_value (S f) d (String dquote X)
  = match json.unquote (len X) X with
    | Some (t, r) => Some (json.Str t, r)
    | None => None
    end.
Proof. reflexivity. Qed.

Lemma appendString_app s rest :
  json.appendString s +:+ rest
  = String dquote (json.escape (len s) s +:+ String dquote rest).
Proof. unfold json.appendString. rewrite app_cons, app_assoc. reflexivity. Qed.

Lemma parse_value_string f d s rest :
  all_ascii s = true ->
  json.parse_value (S f) d (json.appendString s +:+ rest) = Some (json.Str s, rest).
Proof.
  intros Ha. rewrite appendString_app, parse_value_quote.
  rewrite (unquote_escape_ascii s Ha); [reflexivity|lia|].
  rewrite len_app. cbn [len String.length]. lia.
Qed.

Lemma digit_cases c :
  is_digit c = true ->
  In c ["0"; "1"; "2"; "3"; "4"; "5"; "6"; "7"; "8"; "9"]%char.
Proof.
  destruct c as [[] [] [] [] [] [] [] []]; intros H; try discriminate H;
    simpl; auto 11.
Qed.

Lemma parse_value_digit f d c s :
  is_digit c = true ->
  json.parse_value (S f) d (String c s)
  = match json.scan_number (String c s) with
    | Some (lit, r) => Some (json.Number lit, r)
    | None => None
    end.
Proof.
  intros H. apply digit_cases in H. simpl in H.
  repeat (destruct H as [<-|H]; [reflexivity|]). destruct H.
Qed.

Lemma parse_value_minus f d s :
  json.parse_value (S f) d (String "-" s)
  = match json.scan_number (String "-" s) with
    | Some (lit, r) => Some (json.Number lit, r)
    | None => None
    end.
Proof. reflexivity. Qed.

Lemma parse_value_int f d z rest :
  is_int64 z -> is_number_end rest ->
  json.parse_value (S f) d (FormatInt z +:+ rest)
  = Some (json.Number (FormatInt z), rest).
Proof.
  intros Hz Hr. pose proof (scan_number_FormatInt z rest Hz Hr) as Hs.
  unfold FormatInt in *.
  destruct (z <? 0)%Z eqn:E.
  - rewrite app_cons in *. rewrite parse_value_minus, Hs. reflexivity.
  - destruct (FormatUint_head (Z.to_N z)) as (c & s & Hh & Hd).
    { apply uint64_digits. destruct Hz as [_ Hz]. unfold int64_max in Hz.
      apply Z.ltb_ge in E. lia. }
    rewrite Hh in *. rewrite app_cons in *.
    rewrite (parse_value_digit _ _ _ _ Hd), Hs. reflexivity.
Qed.


Lemma skip_space_nonspace s : starts_nonspace s -> json.skip_space s = s.
Proof. destruct s as [|c s]; [reflexivity|]. cbn. intros ->. reflexivity. Qed.

Lemma parse_members_quote f d X :
  json.parse_members (S f) d (String dquote X)
  = match json.unquote (len X) X with
    | None => None
    | Some (key, r1) =>
      match json.skip_space r1 with
      | EmptyString => None
      | String c1 r2 =>
        if (c1 =? ":")%char then
          match json.parse_value f d (json.skip_space r2) with
          | None => None
          | Some (v, r3) =>
            match json.skip_space r3 with
            | EmptyString => None
            | String c3 r4 =>
              if (c3 =? "}")%char then Some ([(key, v)], r4)
              else if (c3 =? ",")%char then
                match json.parse_members f d (json.skip_space r4) with
                | Some (ms, r5) => Some ((key, v) :: ms, r5)
                | None => None
                end
              else None
            end
          end
        else None
      end
    end.
Proof. reflexivity. Qed.

(** A member whose value text [vt] parses to [v] and is followed by the
    closing brace. *)
Lemma parse_member_last f d k vt v r :
  all_ascii k = true ->
  starts_nonspace vt ->
  json.parse_value f d (vt +:+ String "}" r) = Some (v, String "}" r) ->
  json.parse_members (S f) d (json.member k vt +:+ String "}" r)
  = Some ([(k, v)], r).
Proof.
  intros Hk Hv Hp. unfold json.member.
  rewrite !app_assoc, appendString_app, parse_members_quote.
  rewrite (unquote_escape_ascii k Hk); [|lia|rewrite len_app; cbn [len String.length]; lia].
  rewrite app_cons, app_nil_l.
  change (json.skip_space (String ":" ?x)) with (String ":" x).
  cbn [Ascii.eqb Bool.eqb].
  rewrite skip_space_nonspace.
  - rewrite Hp. reflexivity.
  - destruct vt; [reflexivity|exact Hv].
Qed.

Lemma parse_member_more f d k vt v r ms r' :
  all_ascii k = true ->
  starts_nonspace vt ->
  starts_nonspace r ->
  json.parse_value f d (vt +:+ String "," r) = Some (v, String "," r) ->
  json.parse_members f d r = Some (ms, r') ->
  json.parse_members (S f) d (json.member k vt +:+ String "," r)
  = Some ((k, v) :: ms, r').
Proof.
  intros Hk Hv Hr Hp Hm. unfold json.member.
  rewrite !app_assoc, appendString_app, parse_members_quote.
  rewrite (unquote_escape_ascii k Hk); [|lia|rewrite len_app; cbn [len String.length]; lia].
  rewrite app_cons, app_nil_l.
  change (json.skip_space (String ":" ?x)) with (String ":" x).
  cbn [Ascii.eqb Bool.eqb].
  rewrite skip_space_nonspace.
  - rewrite Hp. change (json.skip_space (String "," r)) with (String "," r).
    cbn [Ascii.eqb Bool.eqb]. rewrite (skip_space_nonspace r Hr), Hm. reflexivity.
  - destruct vt; [reflexivity|exact Hv].
Qed.

Lemma parse_value_object f d Y :
  json.parse_value (S f) d (String "{" (String dquote Y))
  = if (json.maxNestingDepth <? d + 1)%N then None
    else match json.parse_members f (d + 1)%N (String dquote Y) with
         | Some (ms, r') => Some (json.Object ms, r')
         | None => None
         end.
Proof. reflexivity. Qed.

Lemma starts_nonspace_FormatInt z rest :
  is_int64 z -> starts_nonspace (FormatInt z +:+ rest) /\ starts_nonspace (FormatInt z).
Proof.
  intros [_ Hz]. unfold int64_max in Hz. unfold FormatInt.
  destruct (z <? 0)%Z eqn:E; [split; reflexivity|].
  apply Z.ltb_ge in E.
  destruct (FormatUint_head (Z.to_N z)) as (c & s & -> & Hd); [apply uint64_digits; lia|].
  apply digit_cases in Hd. simpl in Hd.
  repeat (destruct Hd as [<-|Hd]; [split; reflexivity|]). destruct Hd.
Qed.

Lemma len_member k vt : (3 <= len (json.member k vt))%nat.
Proof.
  unfold json.member, json.appendString. rewrite !len_app. cbn [len String.length].
  fold (len (json.escape (String.length k) k +:+ String dquote EmptyString)).
  rewrite len_app. cbn [len String.length]. lia.
Qed.

Lemma fuel_shape n : (3 <= n)%nat -> exists f, (2 * n)%nat = S (S (S (S (S (S f))))).
Proof. intros H. exists (2 * n - 6)%nat. lia. Qed.



Lemma encodes_int z :
  is_int64 z -> encodes (json.encodeInt z) (json.Number (FormatInt z)).
Proof.
  intros Hz. split.
  - apply (starts_nonspace_FormatInt z EmptyString Hz).
  - intros f d c r Hc. apply parse_value_int; assumption.
Qed.

Lemma encodes_string s :
  all_ascii s = true -> encodes (json.encodeString s) (json.Str s).
Proof.
  intros Ha. split.
  - reflexivity.
  - intros f d c r _. apply parse_value_string. assumption.
Qed.


Lemma join_members_cons m m' ms :
  json.join_members (m :: m' :: ms) = m +:+ "," +:+ json.join_members (m' :: ms).
Proof. reflexivity. Qed.

Lemma starts_nonspace_member k vt rest : starts_nonspace (json.member k vt +:+ rest).
Proof. reflexivity. Qed.

Lemma starts_nonspace_join m ms rest :
  starts_nonspace (json.join_members (map member_text (m :: ms)) +:+ rest).
Proof.
  destruct ms as [|m' ms]; cbn [map].
  - apply starts_nonspace_member.
  - rewrite join_members_cons. unfold member_text at 1. rewrite app_assoc.
    apply starts_nonspace_member.
Qed.

Lemma parse_members_join ms :
  Forall good_member ms ->
  forall m f d r,
    good_member m ->
    json.parse_members (S (S (length ms + f))) d
      (json.join_members (map member_text (m :: ms)) +:+ String "}" r)
    = Some (map member_value (m :: ms), r).
Proof.
  induction 1 as [|m' ms Hm' Hms IH]; intros m f d r [Hk [Hns Hv]].
  - cbn [map json.join_members length]. unfold member_text, member_value.
    apply parse_member_last; auto.
  - cbn [map]. rewrite join_members_cons. fold (map member_text (m' :: ms)).
    rewrite !app_assoc. change ("," +:+ ?x) with (String "," x).
    unfold member_text at 1.
    change (map member_value (m :: m' :: ms))
      with ((m.1.1, m.2) :: map member_value (m' :: ms)).
    change (S (S (length (m' :: ms) + f))) with (S (S (S (length ms + f)))).
    apply parse_member_more.
    + exact Hk.
    + exact Hns.
    + apply starts_nonspace_join.
    + apply Hv. auto.
    + apply IH. assumption.
Qed.

Lemma len_join m ms :
  (3 * length (m :: ms) <= len (json.join_members (map member_text (m :: ms))))%nat.
Proof.
  revert m. induction ms as [|m' ms IH]; intros m.
  - cbn [map json.join_members length]. pose proof (len_member m.1.1 m.1.2).
    unfold member_text. revert H. generalize (len (json.member m.1.1 m.1.2)).
    intros; lia.
  - cbn [map]. rewrite join_members_cons. fold (map member_text (m' :: ms)).
    rewrite !len_app. specialize (IH m'). pose proof (len_member m.1.1 m.1.2) as H.
    unfold member_text at 1. cbn [length map] in *. revert H IH.
    generalize (len (json.member m.1.1 m.1.2)).
    generalize (len (json.join_members (member_text m' :: map member_text ms))).
    change (len ",") with 1%nat. intros; lia.
Qed.

Lemma parse_encodeStruct m ms :
  Forall good_member (m :: ms) ->
  json.parse (json.encodeStruct (map member_text (m :: ms)))
  = Some (json.Object (map member_value (m :: ms))).
Proof.
  intros Hg. inversion Hg as [|? ? Hm Hms]; subst.
  unfold json.parse, json.encodeStruct.
  pose proof (len_join m ms) as Hl.
  set (J := json.join_members (map member_text (m :: ms))) in *.
  assert (HJ : exists Y, J = String dquote Y).
  { subst J. destruct ms as [|m' ms']; cbn [map].
    - eexists. reflexivity.
    - rewrite join_members_cons. eexists. reflexivity. }
  destruct HJ as (Y & HJ).
  rewrite app_cons, app_nil_l.
  change ("}" : string) with (String "}" EmptyString).
  rewrite skip_space_nonspace by reflexivity.
  assert (Hf : exists f, (2 * len (String "{" (J +:+ String "}" EmptyString)))%nat
                         = S (S (length ms + f))).
  { exists (2 * len (String "{" (J +:+ String "}" EmptyString)) - 2 - length ms)%nat.
    cbn [len String.length]. fold (len (J +:+ String "}" EmptyString)).
    rewrite len_app. cbn [length] in Hl. lia. }
  destruct Hf as (f & ->).
  pose proof (parse_members_join ms Hms m f 1%N EmptyString Hm) as Hp.
  fold J in Hp. rewrite HJ in *. rewrite app_cons in *.
  rewrite parse_value_object. change (json.maxNestingDepth <? 0 + 1)%N with false.
  cbn iota. change (0 + 1)%N with 1%N. rewrite Hp. reflexivity.
Qed.





Lemma storeInt_FormatInt z :
  is_int64 z -> json.storeInt (json.Number (FormatInt z)) = json.Put z.
Proof. intros Hz. cbn [json.storeInt]. rewrite ParseInt_FormatInt by assumption. reflexivity. Qed.

Lemma Unmarshal_Marshal_WelcomePayload p :
  ascii_welcome p ->
  json.Unmarshal WelcomePayload_fields (fst (Marshal_WelcomePayload p)) WelcomePayload.zero
  = (p, None).
Proof.
  intros (Hwf & Hu & Hm). unfold json.Unmarshal.
  change (fst (Marshal_WelcomePayload p)) with
    (json.encodeStruct (map member_text
       [("user_id", json.encodeInt (WelcomePayload.UserID p),
           json.Number (FormatInt (WelcomePayload.UserID p)));
        ("username", json.encodeString (WelcomePayload.Username p),
           json.Str (WelcomePayload.Username p));
        ("message", json.encodeString (WelcomePayload.Message p),
           json.Str (WelcomePayload.Message p))])).
  rewrite parse_encodeStruct.
  - cbn [map member_value fst snd]. unfold WelcomePayload_fields.
    cbn -[json.storeInt]. rewrite storeInt_FormatInt by exact Hwf.
    destruct p; reflexivity.
  - repeat (apply List.Forall_cons;
            [split; cbn [fst snd];
             first [reflexivity | apply encodes_int; exact Hwf
                   | apply encodes_string; assumption]|]).
    apply List.Forall_nil.
Qed.

Ltac solve_members Hwf :=
  repeat (apply List.Forall_cons;
          [split; cbn [fst snd];
           first [reflexivity | apply encodes_int; exact Hwf
                 | apply encodes_string; assumption]|]);
  apply List.Forall_nil.

Lemma Unmarshal_Marshal_EmailPayload p :
  ascii_email p ->
  json.Unmarshal EmailPayload_fields (fst (Marshal_EmailPayload p)) EmailPayload.zero
  = (p, None).
Proof.
  intros (Hwf & He & Hs & Hm). unfold json.Unmarshal.
  change (fst (Marshal_EmailPayload p)) with
    (json.encodeStruct (map member_text
       [("user_id", json.encodeInt (EmailPayload.UserID p),
           json.Number (FormatInt (EmailPayload.UserID p)));
        ("email", json.encodeString (EmailPayload.Email p),
           json.Str (EmailPayload.Email p));
        ("subject", json.encodeString (EmailPayload.Subject p),
           json.Str (EmailPayload.Subject p));
        ("message", json.encodeString (EmailPayload.Message p),
           json.Str (EmailPayload.Message p))])).
  rewrite parse_encodeStruct.
  - cbn [map member_value fst snd]. unfold EmailPayload_fields.
    cbn -[json.storeInt]. rewrite storeInt_FormatInt by exact Hwf.
    destruct p; reflexivity.
  - solve_members Hwf.
Qed.

Lemma Unmarshal_Marshal_ServerInfoPayload p :
  ascii_server_info p ->
  json.Unmarshal ServerInfoPayload_fields (fst (Marshal_ServerInfoPayload p))
                 ServerInfoPayload.zero
  = (p, None).
Proof.
  intros (Hwf & Hs). unfold json.Unmarshal.
  change (fst (Marshal_ServerInfoPayload p)) with
    (json.encodeStruct (map member_text
       [("timestamp", json.encodeInt (ServerInfoPayload.Timestamp p),
           json.Number (FormatInt (ServerInfoPayload.Timestamp p)));
        ("source", json.encodeString (ServerInfoPayload.Source p),
           json.Str (ServerInfoPayload.Source p))])).
  rewrite parse_encodeStruct.
  - cbn [map member_value fst snd]. unfold ServerInfoPayload_fields.
    cbn -[json.storeInt]. rewrite storeInt_FormatInt by exact Hwf.
    destruct p; reflexivity.
  - solve_members Hwf.
Qed.
End RoundTrip.

(** * The store keeps payloads *)

Section StoreInvariants.
Import core.

Lemma keeps_refl st : keeps st st.
Proof. split; [lia|]. intros i e H _. exists e. auto. Qed.

Lemma keeps_trans st1 st2 st3 : keeps st1 st2 -> keeps st2 st3 -> keeps st1 st3.
Proof.
  intros [Hn1 H1] [Hn2 H2]. split; [lia|].
  intros i e3 H3 Hi. destruct (H2 i e3 H3) as (e2 & He2 & Ht & Hp); [lia|].
  destruct (H1 i e2 He2 Hi) as (e1 & He1 & Ht' & Hp').
  exists e1. split; [assumption|]. split; congruence.
Qed.

Lemma wf_empty : wf_store empty.
Proof. intros i e H. cbn in H. rewrite lookup_empty in H. discriminate. Qed.

Lemma enqueue_wf now ty data q at_ retries st :
  wf_store st -> wf_store (snd (enqueue now ty data q at_ retries st)).
Proof.
  intros Hwf i e. unfold enqueue. cbn [snd tasks next_id].
  destruct (decide (i = next_id st)) as [->|Hne].
  - intros _. lia.
  - rewrite lookup_insert_ne by congruence. intros H. apply Hwf in H. lia.
Qed.

Lemma enqueue_keeps now ty data q at_ retries st :
  keeps st (snd (enqueue now ty data q at_ retries st)).
Proof.
  unfold enqueue. split; cbn [snd tasks next_id]; [lia|].
  intros i e' H Hi. rewrite lookup_insert_ne in H by lia. exists e'. auto.
Qed.

Lemma enqueue_lookup now ty data q at_ retries st :
  delivered (fst (enqueue now ty data q at_ retries st))
            (snd (enqueue now ty data q at_ retries st))
  = Some (asynq.NewTask ty data).
Proof.
  unfold delivered, enqueue. cbn [fst snd tasks]. rewrite lookup_insert_eq. reflexivity.
Qed.

Lemma enqueue_fresh now ty data q at_ retries st :
  fst (enqueue now ty data q at_ retries st) = next_id st
  /\ next_id (snd (enqueue now ty data q at_ retries st)) = S (next_id st).
Proof. split; reflexivity. Qed.

Ltac case_task st i :=
  let E := fresh "E" in
  destruct (tasks st !! i) as [?e|] eqn:E; [|].

Lemma alter_state_wf_keeps (st : Store) i e1 ls :
  wf_store st ->
  (forall e, tasks st !! i = Some e -> type e1 = type e /\ payload e1 = payload e) ->
  is_Some (tasks st !! i) ->
  wf_store (mkStore (<[i := e1]> (tasks st)) ls (next_id st))
  /\ keeps st (mkStore (<[i := e1]> (tasks st)) ls (next_id st)).
Proof.
  intros Hwf He [e0 H0]. split.
  - intros j e. cbn [tasks next_id]. destruct (decide (j = i)) as [->|Hne].
    + intros _. apply (Hwf i e0 H0).
    + rewrite lookup_insert_ne by congruence. apply Hwf.
  - split; cbn [tasks next_id]; [lia|]. intros j e' H _.
    destruct (decide (j = i)) as [->|Hne].
    + rewrite lookup_insert_eq in H. injection H as <-. exists e0.
      destruct (He e0 H0). auto.
    + rewrite lookup_insert_ne in H by congruence. exists e'. auto.
Qed.

Lemma delete_wf_keeps (st : Store) i ls :
  wf_store st ->
  wf_store (mkStore (delete i (tasks st)) ls (next_id st))
  /\ keeps st (mkStore (delete i (tasks st)) ls (next_id st)).
Proof.
  intros Hwf. split.
  - intros j e. cbn [tasks next_id]. intros H.
    apply lookup_delete_Some in H. destruct H as [_ H]. apply (Hwf j e H).
  - split; cbn [tasks next_id]; [lia|]. intros j e' H _.
    apply lookup_delete_Some in H. destruct H as [_ H]. exists e'. auto.
Qed.

Lemma fmap_wf_keeps (st : Store) (g : Envelope -> Envelope) ls :
  wf_store st ->
  (forall e, type (g e) = type e /\ payload (g e) = payload e) ->
  wf_store (mkStore (g <$> tasks st) ls (next_id st))
  /\ keeps st (mkStore (g <$> tasks st) ls (next_id st)).
Proof.
  intros Hwf Hg. split.
  - intros j e. cbn [tasks next_id]. rewrite lookup_fmap. intros H.
    destruct (tasks st !! j) as [e0|] eqn:E; [|discriminate]. apply (Hwf j e0 E).
  - split; cbn [tasks next_id]; [lia|]. intros j e' H _.
    rewrite lookup_fmap in H.
    destruct (tasks st !! j) as [e0|] eqn:E; [|discriminate].
    cbn in H. injection H as <-. exists e0. destruct (Hg e0). auto.
Qed.

Lemma step_wf_keeps op st st' :
  wf_store st -> step op st = Some st' -> wf_store st' /\ keeps st st'.
Proof.
  intros Hwf. destruct op as [now task opts|i now lease|i|i err b now|i err|now|now];
    cbn [step].
  - unfold client_enqueue. destruct (resolve_options now opts) as [?|at_]; [discriminate|].
    intros H. injection H as <-. split; [apply enqueue_wf; assumption|apply enqueue_keeps].
  - unfold claim. destruct (tasks st !! i) as [e|] eqn:E; [|discriminate].
    destruct (decide _); [|discriminate]. destruct (_ <=? _)%Z; [|discriminate].
    intros H. injection H as <-. apply alter_state_wf_keeps; eauto.
    intros e' He'. rewrite E in He'. injection He' as <-. split; reflexivity.
  - intros H. injection H as <-. unfold ack.
    destruct (tasks st !! i) as [e|] eqn:E; [|split; [assumption|apply keeps_refl]].
    destruct (decide _); [|split; [assumption|apply keeps_refl]].
    apply delete_wf_keeps. assumption.
  - intros H. injection H as <-. unfold retry_task.
    destruct (tasks st !! i) as [e|] eqn:E; [|split; [assumption|apply keeps_refl]].
    destruct (decide _); [|split; [assumption|apply keeps_refl]].
    apply alter_state_wf_keeps; eauto.
    intros e' He'. rewrite E in He'. injection He' as <-.
    unfold retry_envelope. destruct (_ <? _)%nat; split; reflexivity.
  - intros H. injection H as <-. unfold archive.
    destruct (tasks st !! i) as [e|] eqn:E; [|split; [assumption|apply keeps_refl]].
    destruct (decide _); [|split; [assumption|apply keeps_refl]].
    apply alter_state_wf_keeps; eauto.
    intros e' He'. rewrite E in He'. injection He' as <-. split; reflexivity.
  - intros H. injection H as <-. unfold promote_scheduled.
    apply fmap_wf_keeps; [assumption|].
    intros e. unfold promote_envelope. destruct (_ && _); split; reflexivity.
  - intros H. injection H as <-. unfold reclaim_expired_leases.
    apply fmap_wf_keeps; [assumption|].
    intros e. destruct (_ && _); split; reflexivity.
Qed.

Lemma run_wf_keeps ops : forall st st',
  wf_store st -> run ops st = Some st' -> wf_store st' /\ keeps st st'.
Proof.
  induction ops as [|op ops IH]; intros st st' Hwf; cbn [run].
  - intros H. injection H as <-. split; [assumption|apply keeps_refl].
  - destruct (step op st) as [st1|] eqn:E; [|discriminate].
    intros H. destruct (step_wf_keeps op st st1 Hwf E) as [Hwf1 Hk1].
    destruct (IH st1 st' Hwf1 H) as [Hwf' Hk']. split; [assumption|].
    eapply keeps_trans; eassumption.
Qed.

Lemma delivered_unchanged now ty data q at_ retries st0 ops st2 t :
  wf_store st0 ->
  let i := fst (enqueue now ty data q at_ retries st0) in
  let st1 := snd (enqueue now ty data q at_ retries st0) in
  run ops st1 = Some st2 ->
  delivered i st2 = Some t ->
  t = asynq.NewTask ty data.
Proof.
  intros Hwf i st1 Hrun Hd.
  destruct (run_wf_keeps ops st1 st2 (enqueue_wf _ _ _ _ _ _ _ Hwf) Hrun) as [_ [_ Hk]].
  unfold delivered in Hd. destruct (tasks st2 !! i) as [e2|] eqn:E2; [|discriminate].
  injection Hd as <-.
  destruct (Hk i e2 E2) as (e1 & He1 & Ht & Hp).
  { subst i st1. cbn. lia. }
  subst i st1. unfold enqueue in He1. cbn [fst snd tasks] in He1.
  rewrite lookup_insert_eq in He1. injection He1 as <-. cbn in Ht, Hp.
  rewrite Ht, Hp. reflexivity.
Qed.


Lemma tick_spec T now entries : forall st,
  Forall (fun en => template en = T) entries ->
  wf_store st ->
  Forall (fun en => template en = T) (fst (tick now entries st))
  /\ wf_store (snd (tick now entries st))
  /\ keeps st (snd (tick now entries st))
  /\ fired_from T st (snd (tick now entries st)).
Proof.
  induction entries as [|en rest IH]; intros st Hall Hwf; cbn [tick].
  - cbn [fst snd]. split; [constructor|]. split; [assumption|].
    split; [apply keeps_refl|].
    split; [lia|]. intros i e H Hi. pose proof (Hwf i e H). lia.
  - inversion Hall as [|? ? Hen Hrest]; subst.
    destruct (next_fire en <=? now)%Z.
    + pose proof (enqueue_wf now (asynq.Type_ (template en))
                    (asynq.Payload (template en)) default_queue now
                    default_max_retry st Hwf) as Hwf1.
      pose proof (enqueue_keeps now (asynq.Type_ (template en))
                    (asynq.Payload (template en)) default_queue now
                    default_max_retry st) as Hk1.
      pose proof (enqueue_lookup now (asynq.Type_ (template en))
                    (asynq.Payload (template en)) default_queue now
                    default_max_retry st) as Hl1.
      destruct (enqueue_fresh now (asynq.Type_ (template en))
                    (asynq.Payload (template en)) default_queue now
                    default_max_retry st) as [Hi1 Hn1].
      set (st1 := snd (enqueue now _ _ default_queue now default_max_retry st)) in *.
      rewrite Hi1 in Hl1.
      destruct (IH st1 Hrest Hwf1) as (Ha & Hw & Hk & Hn & Hf).
      destruct (tick now rest st1) as [rest' st2]. cbn [fst snd] in *.
      split; [constructor; [reflexivity|assumption]|]. split; [assumption|].
      split; [eapply keeps_trans; eassumption|].
      split; [lia|]. intros i e H Hi.
      destruct (decide (next_id st1 <= i)%nat) as [Hge|Hlt]; [apply (Hf i e H Hge)|].
      assert (i = next_id st) by lia. subst i.
      destruct Hk as [_ Hk]. destruct (Hk _ _ H) as (e1 & He1 & Ht & Hp); [lia|].
      unfold delivered in Hl1. rewrite He1 in Hl1. injection Hl1 as Ht1 Hp1.
      split; congruence.
    + destruct (IH st Hrest Hwf) as (Ha & Hw & Hk & Hf).
      destruct (tick now rest st) as [rest' st2]. cbn [fst snd] in *.
      split; [constructor; [reflexivity|assumption]|]. split; [assumption|]. split; assumption.
Qed.

Lemma fired_from_trans T st1 st2 st3 :
  keeps st2 st3 -> fired_from T st1 st2 -> fired_from T st2 st3 -> fired_from T st1 st3.
Proof.
  intros [_ Hk] [Hn1 H1] [Hn2 H2]. split; [lia|].
  intros i e H Hi. destruct (decide (next_id st2 <= i)%nat) as [Hge|Hlt].
  - apply (H2 i e H Hge).
  - destruct (Hk i e H) as (e2 & He2 & Ht & Hp); [lia|].
    destruct (H1 i e2 He2 Hi). split; congruence.
Qed.

Lemma ticks_spec T times : forall entries st,
  Forall (fun en => template en = T) entries ->
  wf_store st ->
  Forall (fun en => template en = T) (fst (ticks times entries st))
  /\ wf_store (snd (ticks times entries st))
  /\ keeps st (snd (ticks times entries st))
  /\ fired_from T st (snd (ticks times entries st)).
Proof.
  induction times as [|now times IH]; intros entries st Hall Hwf; cbn [ticks].
  - cbn [fst snd]. split; [assumption|]. split; [assumption|].
    split; [apply keeps_refl|]. split; [lia|].
    intros i e H Hi. pose proof (Hwf i e H). lia.
  - destruct (tick_spec T now entries st Hall Hwf) as (Ha1 & Hw1 & Hk1 & Hf1).
    destruct (tick now entries st) as [entries1 st1]. cbn [fst snd] in *.
    destruct (IH entries1 st1 Ha1 Hw1) as (Ha & Hw & Hk & Hf).
    split; [assumption|]. split; [assumption|].
    split; [eapply keeps_trans; eassumption|].
    eapply fired_from_trans; eassumption.
Qed.

Lemma parse_every_30s : parse_every "@every 30s" = Some 30%Z.
Proof. reflexivity. Qed.
End StoreInvariants.

(** * From the producer to the handler *)

Section EndToEnd.
Import codec.
Import common.
Import driver.
Import core.
Import mux.

Lemma unmarshal_marshal p :
  ascii_payload p -> unmarshal (handler_for p) (marshal p) = Some p.
Proof.
  destruct p as [p|p|p]; cbn [ascii_payload handler_for marshal unmarshal]; intros H.
  - rewrite Unmarshal_Marshal_WelcomePayload by assumption. reflexivity.
  - rewrite Unmarshal_Marshal_EmailPayload by assumption. reflexivity.
  - rewrite Unmarshal_Marshal_ServerInfoPayload by assumption. reflexivity.
Qed.

Lemma payloads_ascii w p : wf_World w -> In p (payloads w) -> ascii_payload p.
Proof.
  intros Hw Hin. unfold payloads in Hin. cbn in Hin.
  repeat (destruct Hin as [<-|Hin];
          [cbn; unfold ascii_welcome, ascii_email, WelcomePayload.wf, EmailPayload.wf,
             is_int64, int64_min, int64_max; cbn; repeat split; try reflexivity; lia|]).
  destruct Hin as [<-|[]].
  cbn. unfold ascii_server_info, ServerInfoPayload.wf. cbn. split; [exact Hw|reflexivity].
Qed.

Lemma registry_of_filter rt t :
  registry_of rt t = registry_of rt (List.filter is_handle_func t).
Proof.
  induction t as [|e t IH]; [reflexivity|].
  destruct e; cbn [registry_of is_handle_func List.filter]; rewrite <- ?IH; reflexivity.
Qed.

Lemma handle_func_not_print e : is_handle_func e = true -> is_print e = false.
Proof. destruct e; simpl; congruence. Qed.

Lemma registry_main w rt :
  registry w rt
  = <[TypeWelcomeMessage := handler_of WelcomeHandler rt]>
      (<[TypeEmailTask := handler_of EmailHandler rt]>
         (<[TypeServerInfo := handler_of ServerInfoHandler rt]> ∅)).
Proof.
  unfold registry. rewrite registry_of_filter.
  rewrite (filter_calls _ _ handle_func_not_print), main_calls.
  reflexivity.
Qed.

Lemma registry_lookup w rt h :
  registry w rt !! pattern_of h = Some (handler_of h rt).
Proof.
  rewrite registry_main. destruct h; cbn [pattern_of].
  - apply lookup_insert_eq.
  - rewrite lookup_insert_ne by discriminate. apply lookup_insert_eq.
  - rewrite !lookup_insert_ne by discriminate. apply lookup_insert_eq.
Qed.

Lemma driver_payload_events w ex ty data :
  execution w ex ->
  (exists opts, In (Enqueue ty data opts) ex)
  \/ (exists cs, In (SchedulerRegister cs ty data) ex) ->
  exists p, In p (payloads w) /\ ty = pattern_of (handler_for p) /\ data = marshal p.
Proof.
  intros Hex [[opts Hin]|[cs Hin]].
  - apply (execution_In_call _ _ (Enqueue ty data opts) Hex eq_refl) in Hin.
    simpl in Hin. unfold enqueue_call in Hin.
    repeat match goal with
      | H : _ \/ _ |- _ => destruct H as [H|H]
      | H : False |- _ => destruct H
      | H : _ = Enqueue _ _ _ |- _ => try discriminate H; injection H as <- <- <-
      end;
      [exists (Welcome (nth 0 welcomeTasks WelcomePayload.zero))
      |exists (Welcome (nth 1 welcomeTasks WelcomePayload.zero))
      |exists (Welcome (nth 2 welcomeTasks WelcomePayload.zero))
      |exists (Email (nth 0 emailTasks EmailPayload.zero))
      |exists (Email (nth 1 emailTasks EmailPayload.zero))
      |exists (Email (nth 2 emailTasks EmailPayload.zero))];
      (split; [unfold payloads; cbn; auto 10|split; reflexivity]).
  - apply (execution_In_call _ _ (SchedulerRegister cs ty data) Hex eq_refl) in Hin.
    simpl in Hin. unfold enqueue_call in Hin.
    repeat match goal with
      | H : _ \/ _ |- _ => destruct H as [H|H]
      | H : False |- _ => destruct H
      | H : _ = SchedulerRegister _ _ _ |- _ => try discriminate H; injection H as <- <- <-
      end.
    exists (ServerInfo (serverInfoPayload w)).
    split; [unfold payloads; cbn; auto 10|split; reflexivity].
Qed.

(** Claim C1.  In every execution of the driver, the payload bytes of
    every [Enqueue] call and of the scheduler registration are the
    [json.Marshal] bytes of one of the payloads [main] builds; the
    wrapper registered for the task type decodes those bytes back to
    that very payload; and whatever the store does after the envelope is
    enqueued, the task the Dispatcher hands to the handler carries the
    same type and byte-identical payload. *)
Theorem C1_payload_round_trip w ex ty data :
  wf_World w ->
  execution w ex ->
  (exists opts, In (Enqueue ty data opts) ex)
  \/ (exists cs, In (SchedulerRegister cs ty data) ex) ->
  exists p,
    In p (payloads w)
    /\ ty = pattern_of (handler_for p)
    /\ data = marshal p
    /\ unmarshal (handler_for p) data = Some p
    /\ (forall rt, registry w rt !! ty = Some (handler_of (handler_for p) rt))
    /\ (forall now q at_ retries st0 ops st2 t,
          wf_store st0 ->
          run ops (snd (enqueue now ty data q at_ retries st0)) = Some st2 ->
          delivered (fst (enqueue now ty data q at_ retries st0)) st2 = Some t ->
          asynq.Payload t = data
          /\ asynq.Type_ t = ty
          /\ unmarshal (handler_for p) (asynq.Payload t) = Some p).
Proof.
  intros Hw Hex Hin.
  destruct (driver_payload_events w ex ty data Hex Hin) as (p & Hp & -> & ->).
  pose proof (unmarshal_marshal p (payloads_ascii w p Hw Hp)) as Hrt.
  exists p. split; [exact Hp|]. split; [reflexivity|]. split; [reflexivity|].
  split; [exact Hrt|]. split; [intros rt; apply registry_lookup|].
  intros now q at_ retries st0 ops st2 t Hwf Hrun Hd.
  rewrite (delivered_unchanged now _ _ q at_ retries st0 ops st2 t Hwf Hrun Hd).
  cbn [asynq.Payload asynq.Type_]. auto.
Qed.


Lemma wrapper_returns_nil rt h ctx t :
  runtime.wf_MemStats (runtime.ReadMemStats rt) ->
  decode_error h (asynq.Payload t) = None ->
  outcome (handler_of h rt ctx t) = Returned None.
Proof.
  intros Hrt.
  destruct h; simpl; unfold HandleWelcomeTask, HandleEmailTask, HandleServerInfoTask;
    destruct (json.Unmarshal _ _ _) as [p err]; simpl; intros ->;
    [reflexivity | reflexivity | apply server_info_returns; assumption].
Qed.

Lemma attempt_success reg base cap now lease i st st' e h :
  tasks st !! i = Some e ->
  reg !! type e = Some h ->
  (forall ctx t, asynq.Payload t = payload e -> outcome (h ctx t) = Returned None) ->
  attempt reg base cap now lease i st = Some st' ->
  tasks st' !! i = None.
Proof.
  intros He Hreg Hh. unfold attempt, claim. rewrite He.
  destruct (decide (state e = pending)); [|discriminate].
  destruct (process_at e <=? now)%Z; [|discriminate].
  intros H. injection H as <-.
  unfold execute. cbn [tasks]. rewrite lookup_insert_eq. cbn [type with_state payload].
  rewrite Hreg. unfold handler_failed. rewrite Hh by reflexivity.
  unfold ack. cbn [tasks]. rewrite lookup_insert_eq. cbn [state with_state].
  rewrite decide_True by reflexivity. cbn [tasks]. apply lookup_delete_eq.
Qed.

(** Claim C9.  Each of the three common handlers returns [nil] on every
    payload; hence a wrapper returns [nil] whenever the payload bytes
    decode, and a task of one of the three types with such a payload is
    acknowledged and removed by its first attempt: it never reaches the
    retry or the archived state. *)
Theorem C9_common_handlers_return_nil rt :
  runtime.wf_MemStats (runtime.ReadMemStats rt) ->
  (forall ctx p, outcome (common.HandleWelcomeTask ctx p) = Returned None)
  /\ (forall ctx p, outcome (common.HandleEmailTask ctx p) = Returned None)
  /\ (forall ctx p, outcome (common.HandleServerInfoTask rt ctx p) = Returned None)
  /\ (forall h ctx t,
        decode_error h (asynq.Payload t) = None ->
        outcome (handler_of h rt ctx t) = Returned None)
  /\ (forall w h base cap now lease i st st' e,
        tasks st !! i = Some e ->
        type e = pattern_of h ->
        decode_error h (payload e) = None ->
        attempt (registry w rt) base cap now lease i st = Some st' ->
        tasks st' !! i = None).
Proof.
  intros Hrt. split; [reflexivity|]. split; [reflexivity|].
  split; [intros; apply server_info_returns; assumption|].
  split; [intros; apply wrapper_returns_nil; assumption|].
  intros w h base cap now lease i st st' e He Hty Hdec Hat.
  apply (attempt_success (registry w rt) base cap now lease i st st' e (handler_of h rt) He).
  - rewrite Hty. apply registry_lookup.
  - intros ctx t Ht. apply wrapper_returns_nil; [assumption|]. rewrite Ht. assumption.
  - assumption.
Qed.

Lemma register_step_not_print e : is_register e = true -> is_print e = false.
Proof. destruct e; simpl; congruence. Qed.

Lemma registrations w ex :
  execution w ex ->
  List.filter is_register ex
  = [SchedulerRegister "@every 30s" TypeServerInfo (asynq.Payload (server_info_task w))].
Proof.
  intros Hex. destruct (execution_calls w ex Hex) as (m & Hm & Hc).
  rewrite (filter_calls _ _ register_step_not_print), Hc, List.filter_app.
  rewrite (interleave_filter is_register _ _ _ Hm eq_refl). reflexivity.
Qed.

(** Claim C10.  The driver registers the periodic entry exactly once,
    with the bytes marshaled at registration; every envelope a firing of
    that entry injects, at whatever times the scheduler ticks, carries
    those same bytes, and they decode to the timestamp read from the
    clock at registration. *)
Theorem C10_periodic_payload_fixed w :
  wf_World w ->
  let data := fst (Marshal_ServerInfoPayload (serverInfoPayload w)) in
  let task := asynq.NewTask TypeServerInfo data in
  (forall ex, execution w ex ->
     List.filter is_register ex = [SchedulerRegister "@every 30s" TypeServerInfo data])
  /\ (forall now0,
        register now0 "@every 30s" task []
        = inr [mkEntry "@every 30s" 30 task (now0 + 30)])
  /\ (forall now0 times st i e,
        wf_store st ->
        tasks (snd (ticks times [mkEntry "@every 30s" 30 task (now0 + 30)] st)) !! i
          = Some e ->
        (next_id st <= i)%nat ->
        type e = TypeServerInfo
        /\ payload e = data
        /\ json.Unmarshal ServerInfoPayload_fields (payload e) ServerInfoPayload.zero
           = (ServerInfoPayload.mk (NowUnix w) "periodic-monitor", None)).
Proof.
  intros Hw data task. split; [|split].
  - intros ex Hex. apply registrations. assumption.
  - intros now0. reflexivity.
  - intros now0 times st i e Hwf He Hi.
    destruct (ticks_spec task times [mkEntry "@every 30s" 30 task (now0 + 30)] st)
      as (_ & _ & _ & _ & Hf); [repeat constructor|assumption|].
    destruct (Hf i e He Hi) as [Ht Hp]. cbn [asynq.Type_ asynq.Payload task] in Ht, Hp.
    split; [exact Ht|]. split; [exact Hp|]. rewrite Hp. subst data.
    apply Unmarshal_Marshal_ServerInfoPayload.
    split; [exact Hw|reflexivity].
Qed.
End EndToEnd.

(** * The theorems at concrete inputs *)

Section Instances.
Import codec common driver core mux.

Lemma sample_world_wf : wf_World sample_world.
Proof. unfold wf_World, is_int64, int64_min, int64_max. simpl. lia. Qed.

Lemma sample_state_wf : runtime.wf_MemStats (runtime.ReadMemStats runtime.sample_state).
Proof.
  unfold runtime.wf_MemStats, is_uint64, is_uint32, uint64_max, uint32_max.
  simpl. lia.
Qed.

Lemma failing_registry_fails : always_fails failing_registry "job".
Proof.
  exists failing_handler. split; [reflexivity|]. intros ctx t. reflexivity.
Qed.

Lemma alice_enqueued :
  In (Enqueue TypeWelcomeMessage
        (marshal (Welcome (WelcomePayload.mk 1 "Alice"
                             "Welcome to our amazing platform!"))) [])
     (consumer_first sample_world).
Proof. vm_compute. repeat (first [left; reflexivity | right]). Qed.

(** Claim C1 at the first welcome task of the sample world. *)
Lemma C1_payload_round_trip_witness :
  wf_World sample_world
  /\ execution sample_world (consumer_first sample_world)
  /\ exists p,
       In p (payloads sample_world)
       /\ marshal (Welcome (WelcomePayload.mk 1 "Alice"
                              "Welcome to our amazing platform!")) = marshal p
       /\ unmarshal (handler_for p) (marshal p) = Some p.
Proof.
  split; [exact sample_world_wf|]. split; [apply consumer_first_execution|].
  destruct (C1_payload_round_trip sample_world (consumer_first sample_world)
              TypeWelcomeMessage
              (marshal (Welcome (WelcomePayload.mk 1 "Alice"
                                   "Welcome to our amazing platform!")))
              sample_world_wf (consumer_first_execution sample_world)
              (or_introl (ex_intro _ [] alice_enqueued)))
    as (p & Hp & _ & Hm & Hu & _).
  exists p. split; [exact Hp|]. split; [exact Hm|]. rewrite <- Hm. exact Hu.
Defined.

(** Claim C2 with a budget of two retries: three attempts, then archived. *)
Lemma C2_archived_after_max_retry_plus_one_witness :
  always_fails failing_registry "job"
  /\ fst (polls failing_registry 1 8 30
            (fst (enqueue 0 "job" "{}" "default" 0 2 empty))
            (spaced 0 8 3)
            (0%nat, snd (enqueue 0 "job" "{}" "default" 0 2 empty)))
     = 3%nat.
Proof.
  split; [exact failing_registry_fails|].
  exact (proj1 (proj1 (proj2
    (C2_archived_after_max_retry_plus_one failing_registry 1 8 30 0 "job" "{}"
       "default" 0 2 empty failing_registry_fails)))).
Defined.

(** Claim C4 at the execution in which the consumer runs first. *)
Lemma C4_shutdown_order_witness :
  execution sample_world (consumer_first sample_world)
  /\ List.filter is_shutdown_step (consumer_first sample_world)
     = [SchedulerShutdown; ServerShutdown; WgWait; ClientClose].
Proof.
  split; [apply consumer_first_execution|].
  exact (proj1 (C4_shutdown_order sample_world (consumer_first sample_world)
                  (consumer_first_execution sample_world))).
Defined.

Lemma bob_enqueued :
  In (Enqueue TypeWelcomeMessage
        (marshal (Welcome (WelcomePayload.mk 2 "Bob"
                             "Thanks for joining our community!")))
        [ProcessIn 300000000])
     (consumer_first sample_world).
Proof. vm_compute. repeat (first [left; reflexivity | right]). Qed.

(** Claim C5 at the delayed welcome task. *)
Lemma C5_at_most_one_modifier_witness :
  execution sample_world (consumer_first sample_world)
  /\ (length [ProcessIn 300000000] <= 1)%nat.
Proof.
  split; [apply consumer_first_execution|].
  exact (proj1 (C5_at_most_one_modifier sample_world (consumer_first sample_world)
                  _ _ _ (consumer_first_execution sample_world) bob_enqueued)).
Defined.

(** Claim C6 at the execution in which the consumer runs first. *)
Lemma C6_registration_before_run_witness :
  execution sample_world (consumer_first sample_world)
  /\ consumer_first sample_world
     = firstn 11 (consumer_first sample_world)
       ++ ServerRun :: skipn 12 (consumer_first sample_world)
  /\ forall pat h,
       ~ In (HandleFunc pat h) (skipn 12 (consumer_first sample_world)).
Proof.
  assert (E : consumer_first sample_world
              = firstn 11 (consumer_first sample_world)
                ++ ServerRun :: skipn 12 (consumer_first sample_world))
    by (vm_compute; reflexivity).
  split; [apply consumer_first_execution|]. split; [exact E|].
  exact (proj1 (C6_registration_before_run sample_world
                  (consumer_first sample_world) _ _
                  (consumer_first_execution sample_world) E)).
Defined.

(** Claim C8 at the sample run-time state. *)
Lemma C8_no_division_by_zero_witness :
  runtime.wf_MemStats (runtime.ReadMemStats runtime.sample_state)
  /\ outcome (common.HandleServerInfoTask runtime.sample_state
                context.Background (ServerInfoPayload.mk 1700000000 "periodic-monitor"))
     = Returned None.
Proof.
  split; [exact sample_state_wf|].
  exact (proj1 (C8_no_division_by_zero runtime.sample_state context.Background
                  (ServerInfoPayload.mk 1700000000 "periodic-monitor")
                  sample_state_wf)).
Defined.

(** Claim C9 at the sample run-time state. *)
Lemma C9_common_handlers_return_nil_witness :
  runtime.wf_MemStats (runtime.ReadMemStats runtime.sample_state)
  /\ forall ctx p,
       outcome (common.HandleServerInfoTask runtime.sample_state ctx p)
       = Returned None.
Proof.
  split; [exact sample_state_wf|].
  exact (proj1 (proj2 (proj2
    (C9_common_handlers_return_nil runtime.sample_state sample_state_wf)))).
Defined.

(** Claim C10 at the sample world. *)
Lemma C10_periodic_payload_fixed_witness :
  wf_World sample_world
  /\ forall now0,
       register now0 "@every 30s"
         (asynq.NewTask TypeServerInfo
            (fst (Marshal_ServerInfoPayload (serverInfoPayload sample_world)))) []
       = inr [mkEntry "@every 30s" 30
                (asynq.NewTask TypeServerInfo
                   (fst (Marshal_ServerInfoPayload (serverInfoPayload sample_world))))
                (now0 + 30)].
Proof.
  split; [exact sample_world_wf|].
  exact (proj1 (proj2 (C10_periodic_payload_fixed sample_world sample_world_wf))).
Defined.

End Instances.

(** * UTF-8 sequences: [utf8.DecodeRune] and [utf8.EncodeRune] *)

Section Utf8.
Import utf8.

Ltac nlia := zify; Z.to_euclidean_division_equations; lia.

Lemma lor_add_low a k x :
  (x < 2 ^ k)%N -> N.lor (a * 2 ^ k) x = (a * 2 ^ k + x)%N.
Proof.
  intros Hx.
  assert (Hl : N.land (a * 2 ^ k) x = 0%N).
  { apply N.bits_inj_0. intros i. rewrite N.land_spec.
    destruct (N.lt_ge_cases i k) as [Hi|Hi].
    - rewrite N.mul_pow2_bits_low by assumption. reflexivity.
    - rewrite andb_comm.
      replace x with (x mod 2 ^ k)%N by (apply N.mod_small; assumption).
      rewrite N.mod_pow2_bits_high by assumption. reflexivity. }
  rewrite <- N.lxor_lor by assumption.
  symmetry. apply N.add_nocarry_lxor. assumption.
Qed.

Lemma land_low x k : N.land x (N.ones k) = (x mod 2 ^ k)%N.
Proof. apply N.land_ones. Qed.

Lemma low6_mod b : low6 b = (b mod 64)%N.
Proof. unfold low6. apply (land_low b 6). Qed.

Lemma land31 b : N.land b 31 = (b mod 32)%N.
Proof. apply (land_low b 5). Qed.
Lemma land15 b : N.land b 15 = (b mod 16)%N.
Proof. apply (land_low b 4). Qed.
Lemma land7 b : N.land b 7 = (b mod 8)%N.
Proof. apply (land_low b 3). Qed.
Lemma land63 b : N.land b 63 = (b mod 64)%N.
Proof. apply (land_low b 6). Qed.

Lemma shl x k : N.shiftl x k = (x * 2 ^ k)%N.
Proof. apply N.shiftl_mul_pow2. Qed.
Lemma shr x k : N.shiftr x k = (x / 2 ^ k)%N.
Proof. apply N.shiftr_div_pow2. Qed.

(** The rune of a two-byte sequence, as arithmetic. *)
Lemma rune2 n0 n1 :
  N.lor (N.shiftl (N.land n0 31) 6) (low6 n1)
  = ((n0 mod 32) * 64 + n1 mod 64)%N.
Proof.
  rewrite land31, low6_mod, shl. change (2 ^ 6)%N with 64%N.
  apply (lor_add_low _ 6). apply N.mod_lt. discriminate.
Qed.

Lemma rune3 n0 n1 n2 :
  N.lor (N.lor (N.shiftl (N.land n0 15) 12) (N.shiftl (low6 n1) 6)) (low6 n2)
  = ((n0 mod 16) * 4096 + (n1 mod 64) * 64 + n2 mod 64)%N.
Proof.
  rewrite land15, !low6_mod, !shl.
  rewrite (lor_add_low _ 12) by (change (2 ^ 12)%N with 4096%N; change (2 ^ 6)%N with 64%N; nlia).
  change (2 ^ 12)%N with 4096%N. change (2 ^ 6)%N with 64%N.
  replace (n0 mod 16 * 4096 + n1 mod 64 * 64)%N
    with ((n0 mod 16 * 64 + n1 mod 64) * 2 ^ 6)%N by (change (2 ^ 6)%N with 64%N; lia).
  rewrite (lor_add_low _ 6) by (apply N.mod_lt; discriminate).
  change (2 ^ 6)%N with 64%N. lia.
Qed.

Lemma rune4 n0 n1 n2 n3 :
  N.lor (N.lor (N.lor (N.shiftl (N.land n0 7) 18) (N.shiftl (low6 n1) 12))
               (N.shiftl (low6 n2) 6)) (low6 n3)
  = ((n0 mod 8) * 262144 + (n1 mod 64) * 4096 + (n2 mod 64) * 64 + n3 mod 64)%N.
Proof.
  rewrite land7, !low6_mod, !shl.
  rewrite (lor_add_low _ 18)
    by (change (2 ^ 18)%N with 262144%N; change (2 ^ 12)%N with 4096%N; nlia).
  change (2 ^ 18)%N with 262144%N. change (2 ^ 12)%N with 4096%N.
  change (2 ^ 6)%N with 64%N.
  replace (n0 mod 8 * 262144 + n1 mod 64 * 4096)%N
    with ((n0 mod 8 * 64 + n1 mod 64) * 2 ^ 12)%N by (change (2 ^ 12)%N with 4096%N; lia).
  rewrite (lor_add_low _ 12) by (change (2 ^ 12)%N with 4096%N; nlia).
  change (2 ^ 12)%N with 4096%N.
  replace ((n0 mod 8 * 64 + n1 mod 64) * 4096 + n2 mod 64 * 64)%N
    with (((n0 mod 8 * 64 + n1 mod 64) * 64 + n2 mod 64) * 2 ^ 6)%N
    by (change (2 ^ 6)%N with 64%N; lia).
  rewrite (lor_add_low _ 6) by (apply N.mod_lt; discriminate).
  change (2 ^ 6)%N with 64%N. lia.
Qed.

Lemma cont_byte_eq r k :
  cont_byte r k = byte_of (128 + (r / 2 ^ k) mod 64).
Proof.
  unfold cont_byte. rewrite land63, shr. f_equal.
  change 128%N with (2 * 2 ^ 6)%N at 1. rewrite (lor_add_low 2 6); [reflexivity|].
  apply N.mod_lt. discriminate.
Qed.

Lemma lead_byte hi k x :
  (x < 2 ^ k)%N -> N.lor (hi * 2 ^ k) x = (hi * 2 ^ k + x)%N.
Proof. apply lor_add_low. Qed.

Ltac booleans :=
  repeat match goal with
  | H : (_ && _) = true |- _ => apply andb_true_iff in H; destruct H
  | H : (_ <=? _)%N = true |- _ => apply N.leb_le in H
  | H : (_ <? _)%N = true |- _ => apply N.ltb_lt in H
  | H : (_ <? _)%N = false |- _ => apply N.ltb_ge in H
  | H : (_ =? _)%N = true |- _ => apply N.eqb_eq in H
  | H : (_ =? _)%N = false |- _ => apply N.eqb_neq in H
  | H : is_cont _ = true |- _ => unfold is_cont in H
  | H : in_range _ _ _ = true |- _ => unfold in_range in H
  end.

Lemma ltb_true a b : (a < b)%N -> (a <? b)%N = true.
Proof. apply N.ltb_lt. Qed.
Lemma ltb_false a b : (b <= a)%N -> (a <? b)%N = false.
Proof. apply N.ltb_ge. Qed.
Lemma leb_true a b : (a <= b)%N -> (a <=? b)%N = true.
Proof. apply N.leb_le. Qed.
Lemma leb_false a b : (b < a)%N -> (a <=? b)%N = false.
Proof. apply N.leb_gt. Qed.

Lemma code_lt c : (code c < 256)%N.
Proof. apply N_ascii_bounded. Qed.

Lemma byte_of_eq c n : n = code c -> byte_of n = c.
Proof. intros ->. apply byte_of_code. Qed.

Lemma encode2 c0 c1 :
  (194 <= code c0 <= 223)%N -> (128 <= code c1 <= 191)%N ->
  EncodeRune ((code c0 mod 32) * 64 + code c1 mod 64)
  = String c0 (String c1 EmptyString).
Proof.
  intros H0 H1. unfold EncodeRune.
  rewrite ltb_false by nlia. rewrite ltb_true by nlia.
  rewrite cont_byte_eq, shr.
  change 192%N with (3 * 2 ^ 6)%N. rewrite (lor_add_low 3 6) by (change (2 ^ 6)%N with 64%N; nlia).
  change (2 ^ 6)%N with 64%N. change (2 ^ 0)%N with 1%N.
  f_equal; [|f_equal]; apply byte_of_eq; nlia.
Qed.

Lemma encode3_eq c0 c1 c2 :
  (224 <= code c0 <= 239)%N ->
  ((if (code c0 =? 224)%N then 160 else 128) <= code c1
   <= (if (code c0 =? 237)%N then 159 else 191))%N ->
  (128 <= code c2 <= 191)%N ->
  EncodeRune ((code c0 mod 16) * 4096 + (code c1 mod 64) * 64 + code c2 mod 64)
  = String c0 (String c1 (String c2 EmptyString)).
Proof.
  intros H0 H1 H2.
  assert (Hr : (2048 <= (code c0 mod 16) * 4096 + (code c1 mod 64) * 64 + code c2 mod 64 < 65536
               /\ ~ (55296 <= (code c0 mod 16) * 4096 + (code c1 mod 64) * 64 + code c2 mod 64 <= 57343))%N).
  { destruct (code c0 =? 224)%N eqn:E0; destruct (code c0 =? 237)%N eqn:E1; booleans; nlia. }
  destruct Hr as [[Hlo Hhi] Hsur].
  unfold EncodeRune, is_surrogate, MaxRune, encode3.
  rewrite ltb_false by nlia. rewrite ltb_false by nlia.
  assert (Hs : ((55296 <=? code c0 mod 16 * 4096 + code c1 mod 64 * 64 + code c2 mod 64)
                && (code c0 mod 16 * 4096 + code c1 mod 64 * 64 + code c2 mod 64 <=? 57343))%N = false).
  { apply andb_false_iff.
    destruct (N.le_gt_cases 55296 (code c0 mod 16 * 4096 + code c1 mod 64 * 64 + code c2 mod 64)).
    - right. apply leb_false. lia.
    - left. apply leb_false. lia. }
  rewrite Hs. rewrite ltb_false by lia. cbn [orb]. rewrite ltb_true by lia.
  rewrite !cont_byte_eq, shr.
  change 224%N with (7 * 2 ^ 5)%N.
  rewrite (lor_add_low 7 5) by (change (2 ^ 5)%N with 32%N; change (2 ^ 12)%N with 4096%N; nlia).
  change (2 ^ 5)%N with 32%N. change (2 ^ 12)%N with 4096%N.
  change (2 ^ 6)%N with 64%N. change (2 ^ 0)%N with 1%N.
  destruct (code c0 =? 224)%N eqn:E0; destruct (code c0 =? 237)%N eqn:E1; booleans;
    (f_equal; [|f_equal; [|f_equal]]; apply byte_of_eq; nlia).
Qed.

Lemma encode4_eq c0 c1 c2 c3 :
  (240 <= code c0 <= 244)%N ->
  ((if (code c0 =? 240)%N then 144 else 128) <= code c1
   <= (if (code c0 =? 244)%N then 143 else 191))%N ->
  (128 <= code c2 <= 191)%N ->
  (128 <= code c3 <= 191)%N ->
  EncodeRune ((code c0 mod 8) * 262144 + (code c1 mod 64) * 4096
              + (code c2 mod 64) * 64 + code c3 mod 64)
  = String c0 (String c1 (String c2 (String c3 EmptyString))).
Proof.
  intros H0 H1 H2 H3.
  set (r := ((code c0 mod 8) * 262144 + (code c1 mod 64) * 4096
              + (code c2 mod 64) * 64 + code c3 mod 64)%N).
  assert (Hr : (65536 <= r <= 1114111)%N).
  { subst r. destruct (code c0 =? 240)%N eqn:E0; destruct (code c0 =? 244)%N eqn:E1;
      booleans; nlia. }
  unfold EncodeRune, is_surrogate, MaxRune.
  rewrite ltb_false by lia. rewrite ltb_false by lia.
  rewrite (leb_false r 57343) by lia. rewrite andb_false_r.
  rewrite ltb_false by lia. cbn [orb]. rewrite ltb_false by lia.
  rewrite !cont_byte_eq, shr.
  change 240%N with (15 * 2 ^ 4)%N.
  rewrite (lor_add_low 15 4)
    by (change (2 ^ 4)%N with 16%N; change (2 ^ 18)%N with 262144%N; nlia).
  change (2 ^ 4)%N with 16%N. change (2 ^ 18)%N with 262144%N.
  change (2 ^ 12)%N with 4096%N.
  change (2 ^ 6)%N with 64%N. change (2 ^ 0)%N with 1%N.
  subst r.
  destruct (code c0 =? 240)%N eqn:E0; destruct (code c0 =? 244)%N eqn:E1; booleans;
    (f_equal; [|f_equal; [|f_equal; [|f_equal]]]; apply byte_of_eq; nlia).
Qed.

(** What [DecodeRune] finds at a byte outside ASCII, when it is the start
    of a well-formed sequence: the sequence [bs], which [EncodeRune]
    gives back, and which decodes the same whatever follows it. *)
Lemma decode_multibyte c0 s1 c size :
  (128 <= code c0)%N ->
  DecodeRune (String c0 s1) = (c, size) ->
  ((c =? RuneError)%N && (size =? 1)%nat) = false ->
  exists bs r,
    String c0 s1 = bs +:+ r
    /\ len bs = size
    /\ (2 <= size <= 4)%nat
    /\ EncodeRune c = bs
    /\ (forall tail, DecodeRune (bs +:+ tail) = (c, size)).
Proof.
  intros Hhi. unfold DecodeRune at 1. unfold RuneSelf.
  rewrite ltb_false by assumption.
  destruct (in_range 194 223 (code c0)) eqn:R2.
  { destruct s1 as [|c1 r]; [intros H; injection H as <- <-; discriminate|].
    destruct (is_cont (code c1)) eqn:C1; [|intros H; injection H as <- <-; discriminate].
    rewrite rune2. intros H _. injection H as <- <-. booleans.
    exists (String c0 (String c1 EmptyString)), r.
    split; [reflexivity|]. split; [reflexivity|]. split; [lia|].
    split; [apply encode2; lia|].
    intros tail. change (DecodeRune (String c0 (String c1 tail)) = (((code c0 mod 32) * 64 + code c1 mod 64)%N, 2%nat)).
    unfold DecodeRune, RuneSelf.
    rewrite ltb_false by assumption.
    unfold in_range, is_cont. rewrite !leb_true by assumption. cbn [andb].
    rewrite rune2. reflexivity. }
  destruct (in_range 224 239 (code c0)) eqn:R3.
  { destruct s1 as [|c1 [|c2 r]]; try (intros H; injection H as <- <-; discriminate).
    destruct (in_range _ _ (code c1) && is_cont (code c2)) eqn:C;
      [|intros H; injection H as <- <-; discriminate].
    rewrite rune3. intros H _. injection H as <- <-.
    assert (Htail : forall tail,
      DecodeRune (String c0 (String c1 (String c2 tail)))
      = (((code c0 mod 16) * 4096 + (code c1 mod 64) * 64 + code c2 mod 64)%N, 3%nat)).
    { intros tail. unfold DecodeRune, RuneSelf.
      rewrite ltb_false by assumption. rewrite R2, R3, C, rune3. reflexivity. }
    booleans.
    exists (String c0 (String c1 (String c2 EmptyString))), r.
    split; [reflexivity|]. split; [reflexivity|]. split; [lia|].
    split; [apply encode3_eq; lia|].
    exact Htail. }
  destruct (in_range 240 244 (code c0)) eqn:R4.
  { destruct s1 as [|c1 [|c2 [|c3 r]]]; try (intros H; injection H as <- <-; discriminate).
    destruct (in_range _ _ (code c1) && is_cont (code c2) && is_cont (code c3)) eqn:C;
      [|intros H; injection H as <- <-; discriminate].
    rewrite rune4. intros H _. injection H as <- <-.
    assert (Htail : forall tail,
      DecodeRune (String c0 (String c1 (String c2 (String c3 tail))))
      = (((code c0 mod 8) * 262144 + (code c1 mod 64) * 4096
          + (code c2 mod 64) * 64 + code c3 mod 64)%N, 4%nat)).
    { intros tail. unfold DecodeRune, RuneSelf.
      rewrite ltb_false by assumption. rewrite R2, R3, R4, C, rune4. reflexivity. }
    booleans.
    exists (String c0 (String c1 (String c2 (String c3 EmptyString)))), r.
    split; [reflexivity|]. split; [reflexivity|]. split; [lia|].
    split; [apply encode4_eq; lia|].
    exact Htail. }
  intros H. injection H as <- <-. discriminate.
Qed.

End Utf8.

(** * Strings outside ASCII through [appendString] and the reader *)

Section Strings.
Import codec strconv.

Lemma take_app_len bs r : take (len bs) (bs +:+ r) = bs.
Proof. induction bs as [|b bs IH]; [destruct r; reflexivity|]. cbn. f_equal. exact IH. Qed.

Lemma drop_app_len bs r : drop (len bs) (bs +:+ r) = r.
Proof. induction bs as [|b bs IH]; [reflexivity|]. exact IH. Qed.

Lemma len_drop n s : (len (drop n s) <= len s - n)%nat.
Proof.
  unfold len. revert s. induction n as [|n IH]; intros s; [cbn; lia|].
  destruct s as [|b s]; [cbn; lia|]. cbn [drop String.length]. apply IH.
Qed.

Lemma take_take_app n bs r : (len bs <= n)%nat -> exists t, take n (bs +:+ r) = bs +:+ t.
Proof.
  revert n. induction bs as [|b bs IH]; intros n Hn.
  - exists (take n r). reflexivity.
  - destruct n as [|n]; [cbn in Hn; lia|].
    destruct (IH n) as (t & Ht); [cbn in Hn; unfold len; lia|].
    exists t. rewrite !app_cons. cbn [take]. f_equal. exact Ht.
Qed.

Lemma high_not_special c :
  (128 <= code c)%N ->
  (c =? dquote)%char = false /\ (c =? backslash)%char = false
  /\ (code c <? 32)%N = false /\ (code c <? utf8.RuneSelf)%N = false.
Proof.
  intros H. repeat split.
  - apply Ascii.eqb_neq. intros ->. cbv in H. apply H. reflexivity.
  - apply Ascii.eqb_neq. intros ->. cbv in H. apply H. reflexivity.
  - apply N.ltb_ge. lia.
  - apply N.ltb_ge. exact H.
Qed.

Lemma unquote_multibyte fuel c0 X c size :
  (128 <= code c0)%N ->
  utf8.DecodeRune (String c0 X) = (c, size) ->
  json.unquote (S fuel) (String c0 X)
  = json.prepend (utf8.EncodeRune c) (json.unquote fuel (drop size (String c0 X))).
Proof.
  intros H Hd. destruct (high_not_special c0 H) as (H1 & H2 & H3 & H4).
  cbn [json.unquote]. rewrite H1, H2, H3, H4, Hd. reflexivity.
Qed.

Lemma unquote_replacement fuel tail :
  json.unquote (S fuel) (("\uff" +:+ "fd") +:+ tail)
  = json.prepend (utf8.EncodeRune utf8.RuneError) (json.unquote fuel tail).
Proof. reflexivity. Qed.

Lemma unquote_separator fuel c tail :
  c = 8232%N \/ c = 8233%N ->
  json.unquote (S fuel) ("\u202" +:+ String (json.hex (N.land c 15)) tail)
  = json.prepend (utf8.EncodeRune c) (json.unquote fuel tail).
Proof. intros [-> | ->]; reflexivity. Qed.

Lemma prepend_some pre t rest :
  json.prepend pre (Some (t, rest)) = Some (pre +:+ t, rest).
Proof. reflexivity. Qed.

Lemma DecodeRune_take s : utf8.DecodeRune (take utf8.UTFMax s) = utf8.DecodeRune s.
Proof.
  destruct s as [|c0 [|c1 [|c2 [|c3 r]]]]; reflexivity.
Qed.

Lemma len_escape_replacement E : len (("\uff" +:+ "fd") +:+ E) = (6 + len E)%nat.
Proof. reflexivity. Qed.

Lemma unquote_escape fuel1 : forall s fuel2 fuel3 rest,
  (len s <= fuel1)%nat ->
  (len s <= fuel3)%nat ->
  (len (json.escape fuel1 s) < fuel2)%nat ->
  json.unquote fuel2 (json.escape fuel1 s +:+ String dquote rest)
  = Some (coerce_from fuel3 s, rest).
Proof.
  induction fuel1 as [|f1 IH]; intros s fuel2 fuel3 rest H1 H3 H2.
  - destruct s; [|cbn in H1; lia]. destruct fuel2; [cbn in H2; lia|].
    destruct fuel3; reflexivity.
  - destruct s as [|b r].
    { destruct fuel2; [cbn in H2; lia|]. destruct fuel3; reflexivity. }
    destruct fuel3 as [|f3]; [cbn in H3; lia|].
    assert (Hr1 : (len r <= f1)%nat) by (cbn in H1; unfold len; lia).
    assert (Hr3 : (len r <= f3)%nat) by (cbn in H3; unfold len; lia).
    cbn [json.escape coerce_from] in *.
    rewrite DecodeRune_take in *.
    destruct (code b <? utf8.RuneSelf)%N eqn:Hb.
    + fold (piece b) in *. rewrite len_app in H2. pose proof (len_piece_pos b).
      destruct fuel2 as [|f2]; [lia|].
      rewrite app_assoc, (unquote_piece b Hb).
      rewrite (IH r f2 f3 rest Hr1 Hr3) by lia. reflexivity.
    + apply N.ltb_ge in Hb. unfold utf8.RuneSelf in Hb.
      destruct (utf8.DecodeRune (String b r)) as [c size] eqn:Hd.
      destruct ((c =? utf8.RuneError)%N && (size =? 1)%nat) eqn:Herr.
      * (* not well formed: one byte becomes U+FFFD *)
        change ("\ufffd" : string) with ("\uff" +:+ "fd") in *.
        rewrite len_escape_replacement in H2.
        destruct fuel2 as [|f2]; [lia|].
        rewrite app_assoc, unquote_replacement.
        rewrite (IH r f2 f3 rest Hr1 Hr3) by lia. reflexivity.
      * destruct (decode_multibyte b r c size Hb Hd Herr)
          as (bs & r' & Hs & Hlen & Hsz & Henc & Htail).
        assert (Htk : take size (String b r) = bs)
          by (rewrite Hs, <- Hlen; apply take_app_len).
        assert (Hdr : drop size (String b r) = r')
          by (rewrite Hs, <- Hlen; apply drop_app_len).
        rewrite Htk, Hdr in *.
        assert (Hl : (len r' + size = S (len r))%nat).
        { apply (f_equal len) in Hs. rewrite len_app in Hs.
          cbn [len String.length] in Hs. unfold len in *. lia. }
        assert (Hr1' : (len r' <= f1)%nat) by lia.
        assert (Hr3' : (len r' <= f3)%nat) by lia.
        destruct ((c =? 8232)%N || (c =? 8233)%N) eqn:Hsep.
        -- assert (Hc : c = 8232%N \/ c = 8233%N).
           { apply orb_true_iff in Hsep. destruct Hsep as [E|E]; apply N.eqb_eq in E; auto. }
           assert (Hlen2 : len ("\u202" +:+ String (json.hex (N.land c 15))
                                  (json.escape f1 r'))
                           = (6 + len (json.escape f1 r'))%nat) by reflexivity.
           rewrite Hlen2 in H2. destruct fuel2 as [|f2]; [lia|].
           change (("\u202" +:+ String (json.hex (N.land c 15)) (json.escape f1 r'))
                   +:+ String dquote rest)
             with ("\u202" +:+ String (json.hex (N.land c 15))
                     (json.escape f1 r' +:+ String dquote rest)).
           rewrite (unquote_separator f2 c _ Hc).
           rewrite (IH r' f2 f3 rest Hr1' Hr3') by lia.
           rewrite Henc. reflexivity.
        -- rewrite len_app in H2. destruct fuel2 as [|f2]; [lia|].
           rewrite app_assoc.
           assert (Hb0 : exists bs', bs = String b bs').
           { destruct bs as [|b' bs']; [cbn in Hlen; lia|].
             rewrite app_cons in Hs. injection Hs as <- _. eauto. }
           destruct Hb0 as (bs' & ->).
           rewrite app_cons.
           rewrite (unquote_multibyte f2 b _ c size Hb).
           ++ rewrite <- app_cons, <- Hlen, drop_app_len.
              rewrite (IH r' f2 f3 rest Hr1' Hr3') by lia.
              rewrite Henc. reflexivity.
           ++ rewrite <- app_cons. apply Htail.
Qed.

Lemma app_inv_head_str p a b : p +:+ a = p +:+ b -> a = b.
Proof.
  induction p as [|c p IH]; [auto|]. rewrite !app_cons. intros H. injection H as H. auto.
Qed.

Lemma take_drop n s : take n s +:+ drop n s = s.
Proof.
  revert s. induction n as [|n IH]; intros s; [reflexivity|].
  destruct s as [|b s]; [reflexivity|]. cbn [take drop]. rewrite app_cons, IH. reflexivity.
Qed.

Lemma coerce_valid fuel : forall s,
  (len s <= fuel)%nat ->
  (valid_from fuel s = true <-> coerce_from fuel s = s).
Proof.
  induction fuel as [|f IH]; intros s Hl.
  - destruct s; [split; reflexivity|cbn in Hl; lia].
  - destruct s as [|b r]; [split; reflexivity|].
    assert (Hr : (len r <= f)%nat) by (cbn in Hl; unfold len; lia).
    cbn [valid_from coerce_from].
    destruct (code b <? utf8.RuneSelf)%N eqn:Hb.
    + rewrite (IH r Hr). split; [intros ->; reflexivity|intros H; injection H; auto].
    + apply N.ltb_ge in Hb. unfold utf8.RuneSelf in Hb.
      destruct (utf8.DecodeRune (String b r)) as [c size] eqn:Hd.
      destruct ((c =? utf8.RuneError)%N && (size =? 1)%nat) eqn:Herr.
      * split; [discriminate|]. intros H.
        change (utf8.EncodeRune utf8.RuneError +:+ coerce_from f r)
          with (String "239" (String "191" (String "189" (coerce_from f r)))) in H.
        rewrite <- H in Hd. injection H as <- _.
        apply andb_true_iff in Herr. destruct Herr as [_ Hsz].
        apply Nat.eqb_eq in Hsz. subst size.
        cbv in Hd. discriminate.
      * destruct (decode_multibyte b r c size Hb Hd Herr)
          as (bs & r' & Hs & Hlen & Hsz & Henc & Htail).
        assert (Htk : take size (String b r) = bs)
          by (rewrite Hs, <- Hlen; apply take_app_len).
        assert (Hdr : drop size (String b r) = r')
          by (rewrite Hs, <- Hlen; apply drop_app_len).
        rewrite Htk, Hdr.
        assert (Hr' : (len r' <= f)%nat).
        { apply (f_equal len) in Hs. rewrite len_app in Hs.
          cbn [len String.length] in Hs. unfold len in *. lia. }
        rewrite (IH r' Hr'). rewrite Hs. split.
        -- intros ->. reflexivity.
        -- apply app_inv_head_str.
Qed.

Lemma coerce_ValidString s : ValidString s = true <-> coerce s = s.
Proof. apply coerce_valid. lia. Qed.

Lemma parse_value_string_gen f d s rest :
  json.parse_value (S f) d (json.appendString s +:+ rest)
  = Some (json.Str (coerce s), rest).
Proof.
  rewrite appendString_app, parse_value_quote.
  rewrite (unquote_escape (len s) s _ (len s)); [reflexivity|lia|lia|].
  rewrite len_app. cbn [len String.length]. lia.
Qed.

Lemma encodes_string_gen s : encodes (json.encodeString s) (json.Str (coerce s)).
Proof.
  split.
  - reflexivity.
  - intros f d c r _. apply parse_value_string_gen.
Qed.

End Strings.

(** * The round trip for all strings *)

Section General.
Import strconv codec common.

Ltac solve_members_gen Hwf :=
  repeat (apply List.Forall_cons;
          [split; cbn [fst snd];
           first [reflexivity | apply encodes_int; exact Hwf
                 | apply encodes_string_gen]|]);
  apply List.Forall_nil.

Lemma Unmarshal_Marshal_WelcomePayload_gen p :
  WelcomePayload.wf p ->
  json.Unmarshal WelcomePayload_fields (fst (Marshal_WelcomePayload p)) WelcomePayload.zero
  = (WelcomePayload.mk (WelcomePayload.UserID p)
       (coerce (WelcomePayload.Username p)) (coerce (WelcomePayload.Message p)), None).
Proof.
  intros Hwf. unfold json.Unmarshal.
  change (fst (Marshal_WelcomePayload p)) with
    (json.encodeStruct (map member_text
       [("user_id", json.encodeInt (WelcomePayload.UserID p),
           json.Number (FormatInt (WelcomePayload.UserID p)));
        ("username", json.encodeString (WelcomePayload.Username p),
           json.Str (coerce (WelcomePayload.Username p)));
        ("message", json.encodeString (WelcomePayload.Message p),
           json.Str (coerce (WelcomePayload.Message p)))])).
  rewrite parse_encodeStruct.
  - cbn [map member_value fst snd]. unfold WelcomePayload_fields.
    cbn -[json.storeInt coerce]. rewrite storeInt_FormatInt by exact Hwf.
    reflexivity.
  - solve_members_gen Hwf.
Qed.

Lemma Unmarshal_Marshal_EmailPayload_gen p :
  EmailPayload.wf p ->
  json.Unmarshal EmailPayload_fields (fst (Marshal_EmailPayload p)) EmailPayload.zero
  = (EmailPayload.mk (EmailPayload.UserID p) (coerce (EmailPayload.Email p))
       (coerce (EmailPayload.Subject p)) (coerce (EmailPayload.Message p)), None).
Proof.
  intros Hwf. unfold json.Unmarshal.
  change (fst (Marshal_EmailPayload p)) with
    (json.encodeStruct (map member_text
       [("user_id", json.encodeInt (EmailPayload.UserID p),
           json.Number (FormatInt (EmailPayload.UserID p)));
        ("email", json.encodeString (EmailPayload.Email p),
           json.Str (coerce (EmailPayload.Email p)));
        ("subject", json.encodeString (EmailPayload.Subject p),
           json.Str (coerce (EmailPayload.Subject p)));
        ("message", json.encodeString (EmailPayload.Message p),
           json.Str (coerce (EmailPayload.Message p)))])).
  rewrite parse_encodeStruct.
  - cbn [map member_value fst snd]. unfold EmailPayload_fields.
    cbn -[json.storeInt coerce]. rewrite storeInt_FormatInt by exact Hwf.
    reflexivity.
  - solve_members_gen Hwf.
Qed.

Lemma Unmarshal_Marshal_ServerInfoPayload_gen p :
  ServerInfoPayload.wf p ->
  json.Unmarshal ServerInfoPayload_fields (fst (Marshal_ServerInfoPayload p))
                 ServerInfoPayload.zero
  = (ServerInfoPayload.mk (ServerInfoPayload.Timestamp p)
       (coerce (ServerInfoPayload.Source p)), None).
Proof.
  intros Hwf. unfold json.Unmarshal.
  change (fst (Marshal_ServerInfoPayload p)) with
    (json.encodeStruct (map member_text
       [("timestamp", json.encodeInt (ServerInfoPayload.Timestamp p),
           json.Number (FormatInt (ServerInfoPayload.Timestamp p)));
        ("source", json.encodeString (ServerInfoPayload.Source p),
           json.Str (coerce (ServerInfoPayload.Source p)))])).
  rewrite parse_encodeStruct.
  - cbn [map member_value fst snd]. unfold ServerInfoPayload_fields.
    cbn -[json.storeInt coerce]. rewrite storeInt_FormatInt by exact Hwf.
    reflexivity.
  - solve_members_gen Hwf.
Qed.

Lemma unmarshal_marshal_gen p :
  wf_payload p -> unmarshal (handler_for p) (marshal p) = Some (coerce_payload p).
Proof.
  destruct p as [p|p|p]; cbn [wf_payload handler_for marshal unmarshal coerce_payload];
    intros H.
  - rewrite Unmarshal_Marshal_WelcomePayload_gen by assumption. reflexivity.
  - rewrite Unmarshal_Marshal_EmailPayload_gen by assumption. reflexivity.
  - rewrite Unmarshal_Marshal_ServerInfoPayload_gen by assumption. reflexivity.
Qed.

Lemma coerce_payload_valid p : coerce_payload p = p <-> valid_strings p = true.
Proof.
  destruct p as [[u n m]|[u e s m]|[t s]]; cbn [coerce_payload valid_strings
    WelcomePayload.UserID WelcomePayload.Username WelcomePayload.Message
    EmailPayload.UserID EmailPayload.Email EmailPayload.Subject EmailPayload.Message
    ServerInfoPayload.Timestamp ServerInfoPayload.Source];
    rewrite ?andb_true_iff, !coerce_ValidString; split.
  - intros H. injection H. auto.
  - intros [-> ->]. reflexivity.
  - intros H. injection H. auto.
  - intros [[-> ->] ->]. reflexivity.
  - intros H. injection H. auto.
  - intros ->. reflexivity.
Qed.

(** Property X1.  For a payload of any of the three types whose integer
    field is within the range of its Go type, [json.Unmarshal] of the
    [json.Marshal] bytes reports no error and yields the payload with
    its strings coerced to valid UTF-8; it yields the payload itself
    exactly when the strings of the payload are well-formed UTF-8. *)
Theorem X1_round_trip_all_strings p :
  wf_payload p ->
  unmarshal (handler_for p) (marshal p) = Some (coerce_payload p)
  /\ (unmarshal (handler_for p) (marshal p) = Some p <-> valid_strings p = true).
Proof.
  intros Hwf. rewrite (unmarshal_marshal_gen p Hwf). split; [reflexivity|].
  rewrite <- coerce_payload_valid. split; [intros H; injection H; auto|intros ->; reflexivity].
Qed.

End General.

(** * The wrappers on payload bytes *)

Section Wrappers.
Import strconv codec common driver.

Lemma wrapper_unmarshal rt h ctx ty data p :
  unmarshal h data = Some p ->
  handler_of h rt ctx (asynq.NewTask ty data) = run_common rt ctx p.
Proof.
  destruct h; cbn [unmarshal handler_of];
    unfold driver.HandleWelcomeTask, driver.HandleEmailTask, driver.HandleServerInfoTask;
    cbn [asynq.Payload];
    [destruct (json.Unmarshal WelcomePayload_fields data WelcomePayload.zero) as [q [e|]]
    |destruct (json.Unmarshal EmailPayload_fields data EmailPayload.zero) as [q [e|]]
    |destruct (json.Unmarshal ServerInfoPayload_fields data ServerInfoPayload.zero)
       as [q [e|]]];
    intros H; try discriminate H; injection H as <-; reflexivity.
Qed.

(** Property X2.  A wrapper of main.go applied to a task that carries
    the [json.Marshal] bytes of a payload of its type behaves as the
    common handler on that payload with coerced strings: the same
    output, the same pause, the same result.  When the strings of the
    payload are well-formed UTF-8 it is the common handler on the
    payload itself.  The task type plays no part. *)
Theorem X2_wrapper_after_marshal rt ctx ty p :
  wf_payload p ->
  handler_of (handler_for p) rt ctx (asynq.NewTask ty (marshal p))
  = run_common rt ctx (coerce_payload p)
  /\ (valid_strings p = true ->
      handler_of (handler_for p) rt ctx (asynq.NewTask ty (marshal p))
      = run_common rt ctx p).
Proof.
  intros Hwf.
  rewrite (wrapper_unmarshal rt _ ctx ty _ _ (unmarshal_marshal_gen p Hwf)).
  split; [reflexivity|]. intros Hv. apply coerce_payload_valid in Hv.
  rewrite Hv. reflexivity.
Qed.

Lemma wrapper_error rt h ctx ty data e :
  decode_error h data = Some e ->
  handler_of h rt ctx (asynq.NewTask ty data)
  = ([], Returned (Some (Errorf (wrap_format h) e))).
Proof. intros H. apply wrapper_decode_failure. exact H. Qed.

Lemma decode_error_syntax h data :
  json.parse data = None -> decode_error h data = Some json.SyntaxError.
Proof.
  intros H. destruct h; cbn [decode_error]; unfold json.Unmarshal; rewrite H; reflexivity.
Qed.

(** parse of an encoded struct followed by more bytes *)
Lemma parse_encodeStruct_rest m ms rest :
  Forall good_member (m :: ms) ->
  json.parse (json.encodeStruct (map member_text (m :: ms)) +:+ rest)
  = match json.skip_space rest with
    | EmptyString => Some (json.Object (map member_value (m :: ms)))
    | String _ _ => None
    end.
Proof.
  intros Hg. inversion Hg as [|? ? Hm Hms]; subst.
  unfold json.parse, json.encodeStruct.
  pose proof (len_join m ms) as Hl.
  set (J := json.join_members (map member_text (m :: ms))) in *.
  assert (HJ : exists Y, J = String dquote Y).
  { subst J. destruct ms as [|m' ms']; cbn [map].
    - eexists. reflexivity.
    - rewrite join_members_cons. eexists. reflexivity. }
  destruct HJ as (Y & HJ).
  rewrite !app_cons, !app_nil_l.
  change ("}" : string) with (String "}" EmptyString).
  rewrite app_assoc, app_cons, app_nil_l.
  rewrite skip_space_nonspace by reflexivity.
  assert (Hf : exists f, (2 * len (String "{" (J +:+ String "}" rest)))%nat
                         = S (S (length ms + f))).
  { exists (2 * len (String "{" (J +:+ String "}" rest)) - 2 - length ms)%nat.
    cbn [len String.length]. fold (len (J +:+ String "}" rest)).
    rewrite len_app. cbn [length] in Hl. lia. }
  destruct Hf as (f & ->).
  pose proof (parse_members_join ms Hms m f 1%N rest Hm) as Hp.
  fold J in Hp. rewrite HJ in *. rewrite app_cons in *.
  rewrite parse_value_object. change (json.maxNestingDepth <? 0 + 1)%N with false.
  cbn iota. change (0 + 1)%N with 1%N. rewrite Hp. reflexivity.
Qed.

Lemma marshal_members p : marshal p = json.encodeStruct (map member_text (members p)).
Proof. destruct p; reflexivity. Qed.

Lemma members_good p : wf_payload p -> Forall good_member (members p).
Proof.
  destruct p as [p|p|p]; cbn [wf_payload members]; intros Hwf;
    repeat (apply List.Forall_cons;
            [split; cbn [fst snd];
             first [reflexivity | apply encodes_int; exact Hwf
                   | apply encodes_string_gen]|]);
    apply List.Forall_nil.
Qed.

Lemma members_cons p : exists m ms, members p = m :: ms.
Proof. destruct p; eexists; eexists; reflexivity. Qed.

Lemma parse_marshal_rest p rest :
  wf_payload p ->
  json.parse (marshal p +:+ rest)
  = match json.skip_space rest with
    | EmptyString => Some (json.Object (map member_value (members p)))
    | String _ _ => None
    end.
Proof.
  intros Hwf. rewrite marshal_members. pose proof (members_good p Hwf) as Hg.
  destruct (members_cons p) as (m & ms & E). rewrite E in *.
  apply parse_encodeStruct_rest. exact Hg.
Qed.

Lemma handler_of_parse rt h ctx ty d1 d2 :
  json.parse d1 = json.parse d2 ->
  handler_of h rt ctx (asynq.NewTask ty d1) = handler_of h rt ctx (asynq.NewTask ty d2).
Proof.
  intros H. destruct h; cbn [handler_of];
    unfold driver.HandleWelcomeTask, driver.HandleEmailTask, driver.HandleServerInfoTask,
      json.Unmarshal; cbn [asynq.Payload]; rewrite H; reflexivity.
Qed.

(** Property X3.  On payload bytes that are not valid JSON, in
    particular on an empty payload or one of white space only, every
    wrapper returns its [failed to unmarshal] error around a syntax
    error, prints nothing and does not call the common handler. *)
Theorem X3_wrapper_rejects_invalid_json rt h ctx ty data :
  json.parse data = None \/ json.skip_space data = EmptyString ->
  handler_of h rt ctx (asynq.NewTask ty data)
  = ([], Returned (Some (Errorf (wrap_format h) json.SyntaxError))).
Proof.
  intros H. apply wrapper_error, decode_error_syntax.
  destruct H as [H|H]; [exact H|]. unfold json.parse. rewrite H. reflexivity.
Qed.

(** Property X4.  Bytes after a marshaled payload: when they are JSON
    white space only, every wrapper behaves as on the payload alone;
    when they hold anything else, as with two payloads in a row, every
    wrapper returns its error around a syntax error and prints
    nothing. *)
Theorem X4_wrapper_trailing_bytes rt h ctx ty p extra :
  wf_payload p ->
  (json.skip_space extra = EmptyString ->
   handler_of h rt ctx (asynq.NewTask ty (marshal p +:+ extra))
   = handler_of h rt ctx (asynq.NewTask ty (marshal p)))
  /\ (json.skip_space extra <> EmptyString ->
      handler_of h rt ctx (asynq.NewTask ty (marshal p +:+ extra))
      = ([], Returned (Some (Errorf (wrap_format h) json.SyntaxError)))).
Proof.
  intros Hwf. split; intros Hx.
  - apply handler_of_parse. rewrite parse_marshal_rest by exact Hwf.
    rewrite <- (app_nil_r (marshal p)).
    rewrite parse_marshal_rest by exact Hwf. rewrite Hx. reflexivity.
  - apply wrapper_error, decode_error_syntax.
    rewrite parse_marshal_rest by exact Hwf.
    destruct (json.skip_space extra); [congruence|reflexivity].
Qed.

Lemma decode_members_ignored {T} (fields : list (json.Field T)) (sel : string -> bool) ms :
  (forall k, sel k = match json.find_field fields k with Some _ => true | None => false end) ->
  (forall f v t, In f fields -> v = json.Null -> json.store f v t = json.Keep) ->
  forallb (fun m => match snd m with json.Null => true | _ => negb (sel (fst m)) end) ms = true ->
  forall t saved, json.decode_members fields ms t saved = (t, saved).
Proof.
  intros Hsel Hnull. induction ms as [|[k v] ms IH]; intros Hall t saved; [reflexivity|].
  cbn [forallb] in Hall. apply andb_true_iff in Hall as [Hm Hall].
  cbn [json.decode_members]. cbn [fst snd] in Hm.
  destruct (json.find_field fields k) as [f|] eqn:Hf; [|apply IH; exact Hall].
  assert (Hin : In f fields).
  { unfold json.find_field in Hf.
    destruct (find _ fields) eqn:E1.
    - injection Hf as <-. apply find_some in E1. tauto.
    - apply find_some in Hf. tauto. }
  destruct v; try (rewrite Hsel, Hf in Hm; discriminate Hm).
  rewrite (Hnull f json.Null t Hin eq_refl). apply IH. exact Hall.
Qed.

Lemma store_null_welcome f v t :
  In f WelcomePayload_fields -> v = json.Null -> json.store f v t = json.Keep.
Proof. intros H ->. cbn in H. intuition; subst; reflexivity. Qed.
Lemma store_null_email f v t :
  In f EmailPayload_fields -> v = json.Null -> json.store f v t = json.Keep.
Proof. intros H ->. cbn in H. intuition; subst; reflexivity. Qed.
Lemma store_null_server_info f v t :
  In f ServerInfoPayload_fields -> v = json.Null -> json.store f v t = json.Keep.
Proof. intros H ->. cbn in H. intuition; subst; reflexivity. Qed.

Lemma unmarshal_ignored h data ms :
  json.parse data = Some json.Null
  \/ (json.parse data = Some (json.Object ms) /\ forallb (ignored h) ms = true) ->
  unmarshal h data = Some (zero_payload h).
Proof.
  intros H. destruct h; cbn [unmarshal zero_payload]; unfold json.Unmarshal;
    (destruct H as [->|[-> Hall]]; [reflexivity|]).
  - rewrite (decode_members_ignored WelcomePayload_fields (selects WelcomeHandler) ms);
      [reflexivity|reflexivity|apply store_null_welcome|exact Hall].
  - rewrite (decode_members_ignored EmailPayload_fields (selects EmailHandler) ms);
      [reflexivity|reflexivity|apply store_null_email|exact Hall].
  - rewrite (decode_members_ignored ServerInfoPayload_fields (selects ServerInfoHandler) ms);
      [reflexivity|reflexivity|apply store_null_server_info|exact Hall].
Qed.

(** Property X5.  Decoding is lenient: on the JSON value [null], and on
    an object each of whose members has a key that selects no field of
    the wrapper's struct or has the value [null], a wrapper reports no
    error and runs the common handler on the zero value of its
    struct. *)
Theorem X5_wrapper_lenient_decoding rt h ctx ty data ms :
  json.parse data = Some json.Null
  \/ (json.parse data = Some (json.Object ms) /\ forallb (ignored h) ms = true) ->
  handler_of h rt ctx (asynq.NewTask ty data) = run_common rt ctx (zero_payload h).
Proof. intros H. apply wrapper_unmarshal, (unmarshal_ignored h data ms), H. Qed.

(** Property X6.  On valid JSON that is neither an object nor [null]
    (a boolean, a number, a string or an array), every wrapper returns
    its error around a type error that names the kind of the value and
    no field, and prints nothing. *)
Theorem X6_wrapper_rejects_non_object rt h ctx ty data v :
  json.parse data = Some v ->
  v <> json.Null -> (forall ms, v <> json.Object ms) ->
  handler_of h rt ctx (asynq.NewTask ty data)
  = ([], Returned (Some (Errorf (wrap_format h)
                           (json.UnmarshalTypeError (json.describe v) EmptyString)))).
Proof.
  intros Hp Hn Ho. apply wrapper_error.
  destruct h; cbn [decode_error]; unfold json.Unmarshal; rewrite Hp;
    (destruct v; [congruence|reflexivity|reflexivity|reflexivity|reflexivity
                 |exfalso; eapply Ho; reflexivity]).
Qed.

Lemma unmarshal_reinterpret h p :
  wf_payload p -> unmarshal h (marshal p) = Some (reinterpret h p).
Proof.
  intros Hwf.
  assert (Hp : json.parse (marshal p)
               = Some (json.Object (map member_value (members p)))).
  { rewrite <- (app_nil_r (marshal p)). rewrite parse_marshal_rest by exact Hwf.
    reflexivity. }
  destruct h, p as [p|p|p]; cbn [unmarshal reinterpret coerce_payload zero_payload];
    unfold json.Unmarshal; rewrite Hp; cbn [members map member_value fst snd];
    unfold WelcomePayload_fields, EmailPayload_fields, ServerInfoPayload_fields;
    cbn -[json.storeInt coerce]; rewrite ?storeInt_FormatInt by exact Hwf;
    reflexivity.
Qed.

(** Property X7.  A wrapper does not reject the bytes of a payload of
    another type: it runs its common handler on a struct that holds the
    fields whose names the two types share ([user_id], [message]) and
    zero values elsewhere. *)
Theorem X7_wrapper_on_other_payload rt h ctx ty p :
  wf_payload p ->
  handler_of h rt ctx (asynq.NewTask ty (marshal p))
  = run_common rt ctx (reinterpret h p).
Proof. intros Hwf. apply wrapper_unmarshal, unmarshal_reinterpret, Hwf. Qed.

Lemma parse_marshal p :
  wf_payload p ->
  json.parse (marshal p) = Some (json.Object (map member_value (members p))).
Proof.
  intros Hwf. rewrite <- (app_nil_r (marshal p)). rewrite parse_marshal_rest by exact Hwf.
  reflexivity.
Qed.

Lemma marshal_same_type p q :
  wf_payload p -> wf_payload q -> marshal p = marshal q -> handler_for p = handler_for q.
Proof.
  intros Hp Hq Hm. pose proof (parse_marshal p Hp) as E1.
  rewrite Hm, (parse_marshal q Hq) in E1. injection E1 as E1.
  apply (f_equal (@length _)) in E1. rewrite !length_map in E1.
  destruct p, q; cbn in E1; try discriminate E1; reflexivity.
Qed.

(** Property X8.  [json.Marshal] is injective on the payloads: two
    different payloads, of the same type or not, with integer fields in
    range and strings of well-formed UTF-8, never have the same
    bytes. *)
Theorem X8_marshal_injective p q :
  wf_payload p -> wf_payload q ->
  valid_strings p = true -> valid_strings q = true ->
  p <> q -> marshal p <> marshal q.
Proof.
  intros Hp Hq Vp Vq Hne Hm. apply Hne.
  pose proof (marshal_same_type p q Hp Hq Hm) as Hh.
  pose proof (unmarshal_marshal_gen p Hp) as E1.
  pose proof (unmarshal_marshal_gen q Hq) as E2.
  rewrite Hh, Hm, E2 in E1. apply coerce_payload_valid in Vp, Vq.
  rewrite Vp, Vq in E1. injection E1 as ->. reflexivity.
Qed.

End Wrappers.

(** * Repeated round trips and member names *)

Section Stability.
Import strconv codec common driver.

Lemma decode_replacement tail :
  utf8.DecodeRune (utf8.EncodeRune utf8.RuneError +:+ tail) = (utf8.RuneError, 3%nat).
Proof. reflexivity. Qed.

Lemma coerce_from_valid f : forall s F,
  (len (coerce_from f s) <= F)%nat -> valid_from F (coerce_from f s) = true.
Proof.
  induction f as [|f IH]; intros s F HF.
  - destruct F; reflexivity.
  - destruct s as [|b r]; [destruct F; reflexivity|].
    cbn [coerce_from] in *.
    destruct (code b <? utf8.RuneSelf)%N eqn:Hb.
    + destruct F as [|F]; [cbn in HF; lia|].
      cbn [valid_from]. rewrite Hb. apply IH. cbn [len String.length] in HF.
      unfold len. lia.
    + pose proof Hb as Hb'. apply N.ltb_ge in Hb'. unfold utf8.RuneSelf in Hb'.
      destruct (utf8.DecodeRune (String b r)) as [c size] eqn:Hd.
      destruct ((c =? utf8.RuneError)%N && (size =? 1)%nat) eqn:Herr.
      * change (utf8.EncodeRune utf8.RuneError +:+ coerce_from f r)
          with (String "239" (String "191" (String "189" (coerce_from f r)))) in *.
        destruct F as [|F]; [cbn in HF; lia|].
        cbn [valid_from].
        change (code "239" <? utf8.RuneSelf)%N with false. cbv iota.
        change (utf8.DecodeRune (String "239" (String "191" (String "189" (coerce_from f r)))))
          with (utf8.RuneError, 3%nat).
        cbv beta iota. change ((utf8.RuneError =? utf8.RuneError)%N && (3 =? 1)%nat) with false.
        cbv iota. cbn [drop]. apply IH.
        cbn [len String.length] in HF. unfold len. lia.
      * destruct (decode_multibyte b r c size Hb' Hd Herr)
          as (bs & r' & Hs & Hlen & Hsz & Henc & Htail).
        assert (Htk : take size (String b r) = bs)
          by (rewrite Hs, <- Hlen; apply take_app_len).
        assert (Hdr : drop size (String b r) = r')
          by (rewrite Hs, <- Hlen; apply drop_app_len).
        rewrite Htk, Hdr in *.
        destruct bs as [|b0 bs']; [cbn in Hlen; lia|].
        rewrite app_cons in Hs. injection Hs as <- Hs.
        rewrite len_app in HF. cbn [len String.length] in HF.
        destruct F as [|F]; [lia|].
        rewrite app_cons. cbn [valid_from]. rewrite Hb.
        rewrite <- app_cons, Htail, Herr, <- Hlen, drop_app_len.
        apply IH. unfold len in *. cbn [String.length] in Hlen. lia.
Qed.

Lemma coerce_idempotent s : coerce (coerce s) = coerce s.
Proof.
  apply coerce_ValidString. unfold ValidString. apply coerce_from_valid. unfold coerce. lia.
Qed.

Lemma coerce_payload_idempotent p : coerce_payload (coerce_payload p) = coerce_payload p.
Proof.
  destruct p as [[u n m]|[u e s m]|[t s]]; unfold coerce_payload;
    cbn [WelcomePayload.UserID WelcomePayload.Username WelcomePayload.Message
         EmailPayload.UserID EmailPayload.Email EmailPayload.Subject EmailPayload.Message
         ServerInfoPayload.Timestamp ServerInfoPayload.Source];
    rewrite !coerce_idempotent; reflexivity.
Qed.

Lemma wf_coerce_payload p : wf_payload p -> wf_payload (coerce_payload p).
Proof. destruct p; exact (fun H => H). Qed.

Lemma handler_for_coerce p : handler_for (coerce_payload p) = handler_for p.
Proof. destruct p; reflexivity. Qed.

(** Property X9.  One round trip is enough: the payload a wrapper
    decodes from marshaled bytes is reproduced exactly by marshaling and
    decoding it again, also when the first round trip replaced
    ill-formed bytes. *)
Theorem X9_round_trip_stable p q :
  wf_payload p ->
  unmarshal (handler_for p) (marshal p) = Some q ->
  unmarshal (handler_for q) (marshal q) = Some q.
Proof.
  intros Hwf H. rewrite (unmarshal_marshal_gen p Hwf) in H. injection H as <-.
  rewrite (unmarshal_marshal_gen _ (wf_coerce_payload p Hwf)).
  rewrite coerce_payload_idempotent. reflexivity.
Qed.

End Stability.

Section Keys.
Import strconv codec common driver.

Lemma map_inj_NoDup {A B} (h : A -> B) (l : list A) a b :
  List.NoDup (map h l) -> In a l -> In b l -> h a = h b -> a = b.
Proof.
  induction l as [|x l IH]; intros Hnd Ha Hb E; [destruct Ha|].
  cbn [map] in Hnd. apply List.NoDup_cons_iff in Hnd as [Hx Hnd].
  destruct Ha as [->|Ha], Hb as [->|Hb].
  - reflexivity.
  - exfalso. apply Hx. rewrite E. apply in_map. exact Hb.
  - exfalso. apply Hx. rewrite <- E. apply in_map. exact Ha.
  - apply IH; assumption.
Qed.

Lemma find_field_by_fold {T} (fields : list (json.Field T)) f key :
  List.NoDup (map (fun f => json.fold (json.name f)) fields) ->
  In f fields -> json.fold key = json.fold (json.name f) ->
  json.find_field fields key = Some f.
Proof.
  intros Hnd Hin Hfold. unfold json.find_field.
  destruct (find (fun f0 => String.eqb (json.name f0) key) fields) as [g|] eqn:E1.
  - apply find_some in E1 as [Hg Hn]. apply String.eqb_eq in Hn.
    f_equal. apply (map_inj_NoDup _ _ _ _ Hnd Hg Hin). cbv beta. rewrite Hn. exact Hfold.
  - destruct (find (fun f0 => String.eqb (json.fold (json.name f0)) (json.fold key)) fields)
      as [g|] eqn:E2.
    + apply find_some in E2 as [Hg Hn]. apply String.eqb_eq in Hn.
      f_equal. apply (map_inj_NoDup _ _ _ _ Hnd Hg Hin). cbv beta. rewrite Hn. exact Hfold.
    + exfalso. pose proof (find_none _ _ E2 f Hin) as H. cbv beta in H.
      rewrite Hfold, String.eqb_refl in H. discriminate H.
Qed.

Lemma fold_names_welcome :
  List.NoDup (map (fun f => json.fold (json.name f)) WelcomePayload_fields).
Proof.
  vm_compute. repeat (constructor; [cbn; intuition discriminate|]). constructor.
Qed.

Lemma fold_names_email :
  List.NoDup (map (fun f => json.fold (json.name f)) EmailPayload_fields).
Proof.
  vm_compute. repeat (constructor; [cbn; intuition discriminate|]). constructor.
Qed.

Lemma fold_names_server_info :
  List.NoDup (map (fun f => json.fold (json.name f)) ServerInfoPayload_fields).
Proof.
  vm_compute. repeat (constructor; [cbn; intuition discriminate|]). constructor.
Qed.

Ltac respelled H :=
  repeat match type of H with
         | Forall2 _ _ (_ :: _) =>
           let k := fresh "k" in let ks := fresh "ks" in
           let Hk := fresh "Hk" in let Hks := fresh "Hks" in
           inversion H as [|k ? ks ? Hk Hks]; subst; clear H; rename Hks into H
         | Forall2 _ _ [] => inversion H; subst; clear H
         end.

Ltac good_members Hwf :=
  repeat (apply List.Forall_cons;
          [split; cbn [fst snd];
           first [assumption | apply encodes_int; exact Hwf
                 | apply encodes_string_gen]|]);
  apply List.Forall_nil.

Lemma unmarshal_keys p keys :
  wf_payload p -> Forall2 respells keys (members p) ->
  unmarshal (handler_for p) (marshal_keys keys p) = Some (coerce_payload p).
Proof.
  intros Hwf Hk. unfold marshal_keys.
  destruct p as [p|p|p]; cbn [members] in *; respelled Hk;
    repeat match goal with H : respells _ _ |- _ => destruct H as [? ?] end;
    cbn [fst snd] in *; cbn [zip_with handler_for unmarshal coerce_payload];
    unfold json.Unmarshal.
  - change (json.encodeStruct _) with (json.encodeStruct (map member_text
        [(k, json.encodeInt (WelcomePayload.UserID p),
            json.Number (FormatInt (WelcomePayload.UserID p)));
         (k0, json.encodeString (WelcomePayload.Username p),
            json.Str (coerce (WelcomePayload.Username p)));
         (k1, json.encodeString (WelcomePayload.Message p),
            json.Str (coerce (WelcomePayload.Message p)))])).
    rewrite parse_encodeStruct by good_members Hwf.
    cbn [map member_value fst snd json.decode_members].
    rewrite (find_field_by_fold WelcomePayload_fields
               (json.intField "user_id" _) k fold_names_welcome)
      by (first [cbn; tauto | assumption]).
    cbn [json.store json.intField]. rewrite storeInt_FormatInt by exact Hwf.
    rewrite (find_field_by_fold WelcomePayload_fields
               (json.stringField "username" _) k0 fold_names_welcome)
      by (first [cbn; tauto | assumption]).
    cbn [json.store json.stringField json.storeString].
    rewrite (find_field_by_fold WelcomePayload_fields
               (json.stringField "message" _) k1 fold_names_welcome)
      by (first [cbn; tauto | assumption]).
    reflexivity.
  - change (json.encodeStruct _) with (json.encodeStruct (map member_text
        [(k, json.encodeInt (EmailPayload.UserID p),
            json.Number (FormatInt (EmailPayload.UserID p)));
         (k0, json.encodeString (EmailPayload.Email p),
            json.Str (coerce (EmailPayload.Email p)));
         (k1, json.encodeString (EmailPayload.Subject p),
            json.Str (coerce (EmailPayload.Subject p)));
         (k2, json.encodeString (EmailPayload.Message p),
            json.Str (coerce (EmailPayload.Message p)))])).
    rewrite parse_encodeStruct by good_members Hwf.
    cbn [map member_value fst snd json.decode_members].
    rewrite (find_field_by_fold EmailPayload_fields
               (json.intField "user_id" _) k fold_names_email)
      by (first [cbn; tauto | assumption]).
    cbn [json.store json.intField]. rewrite storeInt_FormatInt by exact Hwf.
    rewrite (find_field_by_fold EmailPayload_fields
               (json.stringField "email" _) k0 fold_names_email)
      by (first [cbn; tauto | assumption]).
    cbn [json.store json.stringField json.storeString].
    rewrite (find_field_by_fold EmailPayload_fields
               (json.stringField "subject" _) k1 fold_names_email)
      by (first [cbn; tauto | assumption]).
    cbn [json.store json.stringField json.storeString].
    rewrite (find_field_by_fold EmailPayload_fields
               (json.stringField "message" _) k2 fold_names_email)
      by (first [cbn; tauto | assumption]).
    reflexivity.
  - change (json.encodeStruct _) with (json.encodeStruct (map member_text
        [(k, json.encodeInt (ServerInfoPayload.Timestamp p),
            json.Number (FormatInt (ServerInfoPayload.Timestamp p)));
         (k0, json.encodeString (ServerInfoPayload.Source p),
            json.Str (coerce (ServerInfoPayload.Source p)))])).
    rewrite parse_encodeStruct by good_members Hwf.
    cbn [map member_value fst snd json.decode_members].
    rewrite (find_field_by_fold ServerInfoPayload_fields
               (json.intField "timestamp" _) k fold_names_server_info)
      by (first [cbn; tauto | assumption]).
    cbn [json.store json.intField]. rewrite storeInt_FormatInt by exact Hwf.
    rewrite (find_field_by_fold ServerInfoPayload_fields
               (json.stringField "source" _) k0 fold_names_server_info)
      by (first [cbn; tauto | assumption]).
    reflexivity.
Qed.

(** Property X10.  Member names are matched without regard to letter
    case: a wrapper given the bytes of a payload of its type with each
    member name spelled in any letter case behaves as on the marshaled
    payload. *)
Theorem X10_keys_any_letter_case rt ctx ty p keys :
  wf_payload p -> Forall2 respells keys (members p) ->
  handler_of (handler_for p) rt ctx (asynq.NewTask ty (marshal_keys keys p))
  = run_common rt ctx (coerce_payload p).
Proof. intros Hwf Hk. apply wrapper_unmarshal, unmarshal_keys; assumption. Qed.

End Keys.

(** * The producer loops and the life cycle of [main] *)

Section Producer.
Import codec common driver.

Lemma wrap64_small z : is_int64 z -> wrap64 z = z.
Proof.
  unfold is_int64, int64_min, int64_max, wrap64. intros H.
  rewrite Z.mod_small by lia. lia.
Qed.

Lemma delay_exact i ms :
  (0 <= i)%Z -> (0 <= ms)%Z -> (i * ms * 1000000 <= int64_max)%Z ->
  dur_mul (dur_mul i ms) Millisecond = (i * (ms * 1000000))%Z.
Proof.
  intros Hi Hms Hmax. unfold dur_mul, Millisecond.
  assert (0 <= i * ms)%Z by lia.
  rewrite (wrap64_small (i * ms)).
  - rewrite wrap64_small; [lia|]. unfold is_int64, int64_min, int64_max in *. lia.
  - unfold is_int64, int64_min, int64_max in *. lia.
Qed.

Lemma rem2_even i : (Z.rem i 2 =? 0)%Z = Z.even i.
Proof.
  destruct (Z.even i) eqn:E.
  - apply Z.eqb_eq. apply Z.even_spec in E. destruct E as [k ->].
    rewrite Z.mul_comm. apply Z.rem_mul. lia.
  - apply Z.eqb_neq. intros H. apply Z.rem_divide in H; [|lia].
    destruct H as [k ->]. rewrite Z.even_mul in E. cbn in E.
    rewrite orb_true_r in E. discriminate.
Qed.

Lemma welcome_calls_imap tasks : forall i,
  (0 <= i)%Z -> ((i + Z.of_nat (length tasks)) * 300000000 <= int64_max)%Z ->
  welcome_calls i tasks = imap (welcome_enqueue i) tasks.
Proof.
  induction tasks as [|p ps IH]; intros i Hi Hmax; [reflexivity|].
  cbn [welcome_calls imap length] in *. f_equal.
  - unfold welcome_enqueue, enqueue_call, welcome_task, welcome_opts.
    cbn [asynq.Type_ asynq.Payload marshal]. rewrite Z.add_0_r.
    rewrite rem2_even. destruct (Z.even i); [reflexivity|].
    rewrite delay_exact by lia. reflexivity.
  - rewrite IH by lia. apply imap_ext. intros k x _. unfold welcome_enqueue.
    cbn [compose]. replace (i + 1 + Z.of_nat k)%Z with (i + Z.of_nat (S k))%Z by lia.
    reflexivity.
Qed.

Lemma email_calls_imap tasks : forall i,
  (0 <= i)%Z -> ((i + Z.of_nat (length tasks)) * 500000000 <= int64_max)%Z ->
  email_calls i tasks = imap (email_enqueue i) tasks.
Proof.
  induction tasks as [|p ps IH]; intros i Hi Hmax; [reflexivity|].
  cbn [email_calls imap length] in *. f_equal.
  - unfold email_enqueue, enqueue_call, email_task, email_opts.
    cbn [asynq.Type_ asynq.Payload marshal]. rewrite Z.add_0_r.
    rewrite rem2_even. destruct (Z.even i); [reflexivity|].
    rewrite delay_exact by lia. reflexivity.
  - rewrite IH by lia. apply imap_ext. intros k x _. unfold email_enqueue.
    cbn [compose]. replace (i + 1 + Z.of_nat k)%Z with (i + Z.of_nat (S k))%Z by lia.
    reflexivity.
Qed.

(** Property X11.  Each producer loop issues exactly one [Enqueue] for
    each task, in the order of the slice, whatever the earlier calls
    returned: at an even index with no option, at an odd index [i] with
    the single option [ProcessIn] of [i] times 300 ms in the welcome
    loop and of [i + 1] times 500 ms in the email loop.  The bounds keep
    the 64-bit products from wrapping. *)
Theorem X11_producer_loops_schedule w i wtasks etasks :
  (0 <= i)%Z ->
  ((i + Z.of_nat (length wtasks)) * 300000000 <= int64_max)%Z ->
  ((i + Z.of_nat (length etasks)) * 500000000 <= int64_max)%Z ->
  calls (trace (welcome_loop w i wtasks)) = imap (welcome_enqueue i) wtasks
  /\ calls (trace (email_loop w i etasks)) = imap (email_enqueue i) etasks.
Proof.
  intros Hi Hw He. split.
  - rewrite calls_welcome_loop. apply welcome_calls_imap; assumption.
  - rewrite calls_email_loop. apply email_calls_imap; assumption.
Qed.

End Producer.

Section Lifecycle.
Import codec common driver.

Lemma outcome_emit_bind {B} e (k : unit -> Run B) : outcome (emit e ≫= k) = outcome (k tt).
Proof. unfold mbind, Run_bind, bind, emit. destruct (k tt). reflexivity. Qed.

Lemma outcome_defer {A} d (body : Run A) : outcome (defer d body) = outcome body.
Proof. destruct body. reflexivity. Qed.

Lemma main_returns w : outcome (main w) = Returned tt.
Proof.
  unfold main. fold (redisAddr w). fold (start_report w).
  rewrite outcome_emit_bind, outcome_defer.
  repeat rewrite outcome_emit_bind.
  rewrite (outcome_bind _ _ tt) by apply register_server_info_outcome.
  rewrite outcome_emit_bind.
  rewrite (outcome_bind _ _ tt) by apply start_report_outcome.
  rewrite outcome_emit_bind.
  rewrite (outcome_bind _ _ tt) by apply welcome_loop_outcome.
  rewrite outcome_emit_bind.
  rewrite (outcome_bind _ _ tt) by apply email_loop_outcome.
  repeat rewrite outcome_emit_bind. reflexivity.
Qed.

Lemma consumer_returns w : outcome (consumer w) = Returned tt.
Proof. unfold consumer. destruct (RunResult w); reflexivity. Qed.

Lemma client_call_not_print e : is_client_call e = true -> is_print e = false.
Proof. destruct e; simpl; congruence. Qed.

Lemma wg_or_run_not_print e : is_wg_or_run e = true -> is_print e = false.
Proof. destruct e; simpl; congruence. Qed.

(** Property X12.  [main] opens the client first, at the address in
    [REDIS_ADDR], or [localhost:6380] when that is empty; it closes the
    client as its last action, opens and closes no other, and returns
    without a panic, whatever the library calls answer. *)
Theorem X12_client_first_and_last w :
  exists mid,
    trace (main w)
    = NewClient (if String.eqb (Getenv w "REDIS_ADDR") EmptyString
                 then "localhost:6380" else Getenv w "REDIS_ADDR")
                (Getenv w "REDIS_PASSWORD") :: mid ++ [ClientClose]
    /\ List.filter is_client_call mid = []
    /\ outcome (main w) = Returned tt.
Proof.
  exists (tl (setup_events w) ++ produce_events w ++ removelast shutdown_events).
  split; [|split].
  - rewrite main_trace, <- !List.app_assoc. reflexivity.
  - rewrite !List.filter_app.
    assert (Hp : List.filter is_client_call (produce_events w) = []).
    { rewrite (filter_calls _ _ client_call_not_print), calls_produce. reflexivity. }
    rewrite Hp. reflexivity.
  - apply main_returns.
Qed.

(** Property X13.  In every execution the [WaitGroup] counter is
    raised by one first, [srv.Run] is called after that, and [Done] is
    called once, after [srv.Run]; [Done] is the last action of the
    goroutine also when [srv.Run] fails. *)
Theorem X13_wait_group_balanced w ex :
  execution w ex ->
  List.filter is_wg_or_run ex = [WgAdd 1; ServerRun; WgDone]
  /\ exists t, trace (consumer w) = t ++ [WgDone] /\ ~ In WgDone t.
Proof.
  intros H. apply execution_inv in H. destruct H as (m & Hm & ->). split.
  - assert (Hs : List.filter is_wg_or_run (setup_events w) = [WgAdd 1]) by reflexivity.
    assert (Hp : List.filter is_wg_or_run (produce_events w ++ shutdown_events) = []).
    { rewrite List.filter_app, (filter_calls _ (produce_events w) wg_or_run_not_print),
        calls_produce. reflexivity. }
    assert (Hc : List.filter is_wg_or_run (trace (consumer w)) = [ServerRun; WgDone]).
    { rewrite (filter_calls _ _ wg_or_run_not_print), calls_consumer. reflexivity. }
    rewrite List.filter_app, Hs.
    rewrite (interleave_filter _ _ _ _ (interleave_sym _ _ _ Hm) Hp), Hc. reflexivity.
  - exists ([Println "🐰 Consumer started, waiting for tasks..."; ServerRun]
            ++ consumer_report w). split.
    + rewrite consumer_trace, <- List.app_assoc. reflexivity.
    + unfold consumer_report. destruct (RunResult w); simpl; intuition discriminate.
Qed.

(** Property X14.  No library error changes what the driver does: two
    runs with the same environment and clock issue the same library
    calls in the same order, whatever [Run], [Register], [Start] and
    [Enqueue] return, and both [main] and the consumer goroutine return
    without a panic. *)
Theorem X14_library_errors_keep_calls w1 w2 :
  Getenv w1 "REDIS_ADDR" = Getenv w2 "REDIS_ADDR" ->
  Getenv w1 "REDIS_PASSWORD" = Getenv w2 "REDIS_PASSWORD" ->
  NowUnix w1 = NowUnix w2 ->
  calls (trace (main w1)) = calls (trace (main w2))
  /\ calls (trace (consumer w1)) = calls (trace (consumer w2))
  /\ outcome (main w1) = Returned tt /\ outcome (consumer w1) = Returned tt.
Proof.
  intros Ha Hp Hn. split; [|split; [|split]].
  - rewrite !main_calls. unfold setup_calls, produce_calls, redisAddr, server_info_task,
      serverInfoPayload. rewrite Ha, Hp, Hn. reflexivity.
  - rewrite !calls_consumer. reflexivity.
  - apply main_returns.
  - apply consumer_returns.
Qed.

(** Property X15.  When [NumGC] is positive, the average pause that
    [HandleServerInfoTask] prints is the quotient of [PauseTotalNs] by
    [NumGC] rounded down, between zero and [PauseTotalNs], as long as it
    fits a signed 64-bit [time.Duration]; a larger quotient, which needs
    [NumGC = 1], is printed as the negative duration [2^64] below
    it. *)
Theorem X15_average_pause_value rt ctx p :
  runtime.wf_MemStats (runtime.ReadMemStats rt) ->
  (0 < runtime.NumGC (runtime.ReadMemStats rt))%Z ->
  let m := runtime.ReadMemStats rt in
  let q := (runtime.PauseTotalNs m / runtime.NumGC m)%Z in
  let t := trace (common.HandleServerInfoTask rt ctx p) in
  (0 <= q <= runtime.PauseTotalNs m)%Z
  /\ ((q <= int64_max)%Z -> In (avg_pause_line q) t)
  /\ ((int64_max < q)%Z ->
      runtime.NumGC m = 1%Z
      /\ In (avg_pause_line (q - 2 ^ 64)) t /\ (q - 2 ^ 64 < 0)%Z).
Proof.
  intros Hwf Hgc m q t. destruct Hwf as (_ & _ & Hn & Hpause & _).
  fold m in Hn, Hpause, Hgc.
  assert (Hq : (0 <= q <= runtime.PauseTotalNs m)%Z).
  { unfold is_uint64 in Hpause. subst q. split.
    - apply Z.div_pos; lia.
    - apply Z.div_le_upper_bound; [lia|]. nia. }
  assert (Hq64 : (q <= uint64_max)%Z) by (unfold is_uint64 in Hpause; lia).
  assert (Ht : In (avg_pause_line (wrap64 q)) t).
  { subst t. unfold common.HandleServerInfoTask. fold m.
    assert (E : (0 <? runtime.NumGC m)%Z = true) by (apply Z.ltb_lt; exact Hgc).
    rewrite E. rewrite to_uint64_uint32 by assumption.
    unfold runtime.div_uint64.
    assert (E0 : (runtime.NumGC m =? 0)%Z = false) by (apply Z.eqb_neq; lia).
    rewrite E0. fold q. unfold avg_pause_line. simpl. auto 20. }
  split; [exact Hq|]. unfold uint64_max, int64_max in *. split.
  - intros Hle. rewrite wrap64_small in Ht; [exact Ht|].
    unfold is_int64, int64_min, int64_max. lia.
  - intros Hgt. split; [|split; [|lia]].
    { destruct (Z.eq_dec (runtime.NumGC m) 1%Z) as [E1|E1]; [exact E1|exfalso].
      assert (Hm : (runtime.NumGC m * q <= runtime.PauseTotalNs m)%Z)
        by (subst q; apply Z.mul_div_le; lia).
      unfold is_uint64, uint64_max in Hpause.
      assert (H2 : (2 * q <= runtime.NumGC m * q)%Z) by nia.
      lia. }
    assert (Ew : wrap64 q = (q - 2 ^ 64)%Z).
    { unfold wrap64.
      replace (q + 2 ^ 63)%Z with ((q - 2 ^ 63) + 1 * 2 ^ 64)%Z by lia.
      rewrite Z.mod_add by lia. rewrite Z.mod_small by lia. lia. }
    rewrite Ew in Ht. exact Ht.
Qed.

End Lifecycle.

(** * Type errors *)

Section TypeErrors.
Import strconv codec common driver.















End TypeErrors.

(** * Instances of the properties *)

Section MoreInstances.
Import codec common driver.

Lemma zoe_wf : wf_payload (Welcome (WelcomePayload.mk 42 "Zoë" "¡Hola! <b>çà</b>")).
Proof. unfold wf_payload, WelcomePayload.wf, is_int64, int64_min, int64_max. simpl. lia. Qed.

Lemma zoe_valid :
  valid_strings (Welcome (WelcomePayload.mk 42 "Zoë" "¡Hola! <b>çà</b>")) = true.
Proof. vm_compute. reflexivity. Qed.

Lemma broken_wf :
  wf_payload (Email (EmailPayload.mk 9 (String "255" "@example.com") "Hi" "ok")).
Proof. unfold wf_payload, EmailPayload.wf, is_int64, int64_min, int64_max. simpl. lia. Qed.

(** Property X1 at a welcome payload with strings outside ASCII. *)
Lemma X1_round_trip_all_strings_witness :
  wf_payload (Welcome (WelcomePayload.mk 42 "Zoë" "¡Hola! <b>çà</b>"))
  /\ unmarshal WelcomeHandler
       (marshal (Welcome (WelcomePayload.mk 42 "Zoë" "¡Hola! <b>çà</b>")))
     = Some (Welcome (WelcomePayload.mk 42 "Zoë" "¡Hola! <b>çà</b>")).
Proof.
  split; [exact zoe_wf|].
  exact (proj2 (proj2 (X1_round_trip_all_strings _ zoe_wf)) zoe_valid).
Defined.

(** Property X2 at a welcome payload with strings outside ASCII. *)
Lemma X2_wrapper_after_marshal_witness :
  wf_payload (Welcome (WelcomePayload.mk 42 "Zoë" "¡Hola! <b>çà</b>"))
  /\ driver.HandleWelcomeTask context.Background
       (asynq.NewTask TypeWelcomeMessage
          (marshal (Welcome (WelcomePayload.mk 42 "Zoë" "¡Hola! <b>çà</b>"))))
     = common.HandleWelcomeTask context.Background
         (WelcomePayload.mk 42 "Zoë" "¡Hola! <b>çà</b>").
Proof.
  split; [exact zoe_wf|].
  exact (proj2 (X2_wrapper_after_marshal runtime.sample_state context.Background
                  TypeWelcomeMessage _ zoe_wf) zoe_valid).
Defined.

(** Property X3 at the empty payload. *)
Lemma X3_wrapper_rejects_invalid_json_witness :
  json.skip_space EmptyString = EmptyString
  /\ driver.HandleEmailTask context.Background (asynq.NewTask TypeEmailTask EmptyString)
     = ([], Returned (Some (Errorf "failed to unmarshal email payload: %v"
                              json.SyntaxError))).
Proof.
  split; [reflexivity|].
  exact (X3_wrapper_rejects_invalid_json runtime.sample_state EmailHandler
           context.Background TypeEmailTask EmptyString (or_intror eq_refl)).
Defined.

(** Property X4 at a payload followed by an empty object. *)
Lemma X4_wrapper_trailing_bytes_witness :
  wf_payload (Welcome (WelcomePayload.mk 42 "Zoë" "¡Hola! <b>çà</b>"))
  /\ json.skip_space "{}" <> EmptyString
  /\ driver.HandleWelcomeTask context.Background
       (asynq.NewTask TypeWelcomeMessage
          (marshal (Welcome (WelcomePayload.mk 42 "Zoë" "¡Hola! <b>çà</b>")) +:+ "{}"))
     = ([], Returned (Some (Errorf "failed to unmarshal welcome payload: %v"
                              json.SyntaxError))).
Proof.
  assert (H : json.skip_space "{}" <> EmptyString) by (simpl; discriminate).
  split; [exact zoe_wf|]. split; [exact H|].
  exact (proj2 (X4_wrapper_trailing_bytes runtime.sample_state WelcomeHandler
                  context.Background TypeWelcomeMessage _ "{}" zoe_wf) H).
Defined.

Lemma unknown_key_parse :
  json.parse (json.encodeStruct [json.member "id" "7"; json.member "message" "null"])
  = Some (json.Object [("id", json.Number "7"); ("message", json.Null)]).
Proof. vm_compute. reflexivity. Qed.

(** Property X5 at an object with an unknown key and a [null] message. *)
Lemma X5_wrapper_lenient_decoding_witness :
  (json.parse (json.encodeStruct [json.member "id" "7"; json.member "message" "null"])
   = Some (json.Object [("id", json.Number "7"); ("message", json.Null)])
   /\ forallb (ignored WelcomeHandler) [("id", json.Number "7"); ("message", json.Null)]
      = true)
  /\ driver.HandleWelcomeTask context.Background
       (asynq.NewTask TypeWelcomeMessage
          (json.encodeStruct [json.member "id" "7"; json.member "message" "null"]))
     = common.HandleWelcomeTask context.Background WelcomePayload.zero.
Proof.
  assert (H : forallb (ignored WelcomeHandler)
                [("id", json.Number "7"); ("message", json.Null)] = true)
    by (vm_compute; reflexivity).
  split; [split; [exact unknown_key_parse|exact H]|].
  exact (X5_wrapper_lenient_decoding runtime.sample_state WelcomeHandler context.Background
           TypeWelcomeMessage _ _ (or_intror (conj unknown_key_parse H))).
Defined.

Lemma array_parse :
  json.parse "[1, 2]" = Some (json.Array [json.Number "1"; json.Number "2"]).
Proof. vm_compute. reflexivity. Qed.

(** Property X6 at an array. *)
Lemma X6_wrapper_rejects_non_object_witness :
  json.parse "[1, 2]" = Some (json.Array [json.Number "1"; json.Number "2"])
  /\ driver.HandleServerInfoTask runtime.sample_state context.Background
       (asynq.NewTask TypeServerInfo "[1, 2]")
     = ([], Returned (Some (Errorf "failed to unmarshal server info payload: %v"
                              (json.UnmarshalTypeError "array" EmptyString)))).
Proof.
  split; [exact array_parse|].
  refine (X6_wrapper_rejects_non_object runtime.sample_state ServerInfoHandler
            context.Background TypeServerInfo "[1, 2]" _ array_parse _ _);
    [discriminate|intros ms; discriminate].
Defined.

(** Property X7 at a welcome payload given to the email wrapper. *)
Lemma X7_wrapper_on_other_payload_witness :
  wf_payload (Welcome (WelcomePayload.mk 42 "Zoë" "¡Hola! <b>çà</b>"))
  /\ driver.HandleEmailTask context.Background
       (asynq.NewTask TypeEmailTask
          (marshal (Welcome (WelcomePayload.mk 42 "Zoë" "¡Hola! <b>çà</b>"))))
     = common.HandleEmailTask context.Background
         (EmailPayload.mk 42 EmptyString EmptyString "¡Hola! <b>çà</b>").
Proof.
  split; [exact zoe_wf|].
  exact (X7_wrapper_on_other_payload runtime.sample_state EmailHandler context.Background
           TypeEmailTask _ zoe_wf).
Defined.

Lemma zed_wf : wf_payload (Welcome (WelcomePayload.mk 42 "Zed" "¡Hola! <b>çà</b>")).
Proof. unfold wf_payload, WelcomePayload.wf, is_int64, int64_min, int64_max. simpl. lia. Qed.

Lemma zed_valid :
  valid_strings (Welcome (WelcomePayload.mk 42 "Zed" "¡Hola! <b>çà</b>")) = true.
Proof. vm_compute. reflexivity. Qed.

Lemma zoe_not_zed :
  Welcome (WelcomePayload.mk 42 "Zoë" "¡Hola! <b>çà</b>")
  <> Welcome (WelcomePayload.mk 42 "Zed" "¡Hola! <b>çà</b>").
Proof. discriminate. Qed.

(** Property X8 at two welcome payloads that differ in the user name. *)
Lemma X8_marshal_injective_witness :
  (wf_payload (Welcome (WelcomePayload.mk 42 "Zoë" "¡Hola! <b>çà</b>"))
   /\ wf_payload (Welcome (WelcomePayload.mk 42 "Zed" "¡Hola! <b>çà</b>"))
   /\ valid_strings (Welcome (WelcomePayload.mk 42 "Zoë" "¡Hola! <b>çà</b>")) = true
   /\ valid_strings (Welcome (WelcomePayload.mk 42 "Zed" "¡Hola! <b>çà</b>")) = true
   /\ Welcome (WelcomePayload.mk 42 "Zoë" "¡Hola! <b>çà</b>")
      <> Welcome (WelcomePayload.mk 42 "Zed" "¡Hola! <b>çà</b>"))
  /\ marshal (Welcome (WelcomePayload.mk 42 "Zoë" "¡Hola! <b>çà</b>"))
     <> marshal (Welcome (WelcomePayload.mk 42 "Zed" "¡Hola! <b>çà</b>")).
Proof.
  split; [split; [exact zoe_wf|split; [exact zed_wf|split; [exact zoe_valid
            |split; [exact zed_valid|exact zoe_not_zed]]]]|].
  exact (X8_marshal_injective _ _ zoe_wf zed_wf zoe_valid zed_valid zoe_not_zed).
Defined.

Lemma broken_round_trip :
  unmarshal EmailHandler
    (marshal (Email (EmailPayload.mk 9 (String "255" "@example.com") "Hi" "ok")))
  = Some (Email (EmailPayload.mk 9
                   (String "239" (String "191" (String "189" "@example.com")))
                   "Hi" "ok")).
Proof. vm_compute. reflexivity. Qed.

(** Property X9 at an email payload whose address starts with the
    ill-formed byte FF. *)
Lemma X9_round_trip_stable_witness :
  (wf_payload (Email (EmailPayload.mk 9 (String "255" "@example.com") "Hi" "ok"))
   /\ unmarshal EmailHandler
        (marshal (Email (EmailPayload.mk 9 (String "255" "@example.com") "Hi" "ok")))
      = Some (Email (EmailPayload.mk 9
                       (String "239" (String "191" (String "189" "@example.com")))
                       "Hi" "ok")))
  /\ unmarshal EmailHandler
       (marshal (Email (EmailPayload.mk 9
                          (String "239" (String "191" (String "189" "@example.com")))
                          "Hi" "ok")))
     = Some (Email (EmailPayload.mk 9
                      (String "239" (String "191" (String "189" "@example.com")))
                      "Hi" "ok")).
Proof.
  split; [split; [exact broken_wf|exact broken_round_trip]|].
  exact (X9_round_trip_stable _ _ broken_wf broken_round_trip).
Defined.

Lemma upper_keys :
  Forall2 respells ["USER_ID"; "UserName"; "Message"]
    (members (Welcome (WelcomePayload.mk 42 "Zoë" "¡Hola! <b>çà</b>"))).
Proof.
  cbn [members].
  repeat (apply List.Forall2_cons; [split; vm_compute; reflexivity|]).
  apply List.Forall2_nil.
Qed.

(** Property X10 at member names in upper and mixed case. *)
Lemma X10_keys_any_letter_case_witness :
  (wf_payload (Welcome (WelcomePayload.mk 42 "Zoë" "¡Hola! <b>çà</b>"))
   /\ Forall2 respells ["USER_ID"; "UserName"; "Message"]
        (members (Welcome (WelcomePayload.mk 42 "Zoë" "¡Hola! <b>çà</b>"))))
  /\ driver.HandleWelcomeTask context.Background
       (asynq.NewTask TypeWelcomeMessage
          (marshal_keys ["USER_ID"; "UserName"; "Message"]
             (Welcome (WelcomePayload.mk 42 "Zoë" "¡Hola! <b>çà</b>"))))
     = common.HandleWelcomeTask context.Background
         (WelcomePayload.mk 42 "Zoë" "¡Hola! <b>çà</b>").
Proof.
  split; [split; [exact zoe_wf|exact upper_keys]|].
  exact (X10_keys_any_letter_case runtime.sample_state context.Background
           TypeWelcomeMessage _ _ zoe_wf upper_keys).
Defined.

(** Property X11 at the welcome tasks of [main], in a world where every
    enqueue fails. *)
Lemma X11_producer_loops_schedule_witness :
  ((0 <= 0)%Z
   /\ ((0 + Z.of_nat (length welcomeTasks)) * 300000000 <= int64_max)%Z
   /\ ((0 + Z.of_nat (length emailTasks)) * 500000000 <= int64_max)%Z)
  /\ calls (trace (welcome_loop failing_world 0 welcomeTasks))
     = [Enqueue TypeWelcomeMessage
          (marshal (Welcome (WelcomePayload.mk 1 "Alice"
                               "Welcome to our amazing platform!"))) [];
        Enqueue TypeWelcomeMessage
          (marshal (Welcome (WelcomePayload.mk 2 "Bob"
                               "Thanks for joining our community!")))
          [ProcessIn 300000000];
        Enqueue TypeWelcomeMessage
          (marshal (Welcome (WelcomePayload.mk 3 "Charlie"
                               "We're excited to have you here!"))) []].
Proof.
  assert (H1 : ((0 + Z.of_nat (length welcomeTasks)) * 300000000 <= int64_max)%Z)
    by (unfold int64_max; simpl; lia).
  assert (H2 : ((0 + Z.of_nat (length emailTasks)) * 500000000 <= int64_max)%Z)
    by (unfold int64_max; simpl; lia).
  split; [split; [lia|split; [exact H1|exact H2]]|].
  exact (proj1 (X11_producer_loops_schedule failing_world 0 welcomeTasks
                  emailTasks (Z.le_refl 0) H1 H2)).
Defined.

(** Property X13 at the execution in which the consumer runs first and
    [srv.Run] fails. *)
Lemma X13_wait_group_balanced_witness :
  execution failing_world (consumer_first failing_world)
  /\ List.filter is_wg_or_run (consumer_first failing_world)
     = [WgAdd 1; ServerRun; WgDone].
Proof.
  split; [apply consumer_first_execution|].
  exact (proj1 (X13_wait_group_balanced failing_world (consumer_first failing_world)
                  (consumer_first_execution failing_world))).
Defined.

(** Property X14 at the sample world and the world where every library
    call fails. *)
Lemma X14_library_errors_keep_calls_witness :
  (Getenv sample_world "REDIS_ADDR" = Getenv failing_world "REDIS_ADDR"
   /\ Getenv sample_world "REDIS_PASSWORD" = Getenv failing_world "REDIS_PASSWORD"
   /\ NowUnix sample_world = NowUnix failing_world)
  /\ calls (trace (main sample_world)) = calls (trace (main failing_world)).
Proof.
  split; [repeat split|].
  exact (proj1 (X14_library_errors_keep_calls sample_world failing_world
                  eq_refl eq_refl eq_refl)).
Defined.

Lemma sample_state_gc : (0 < runtime.NumGC (runtime.ReadMemStats runtime.sample_state))%Z.
Proof. simpl. lia. Qed.

(** Property X15 at the sample run-time state: 900000 ns over 3
    collections. *)
Lemma X15_average_pause_value_witness :
  (runtime.wf_MemStats (runtime.ReadMemStats runtime.sample_state)
   /\ (0 < runtime.NumGC (runtime.ReadMemStats runtime.sample_state))%Z)
  /\ In (avg_pause_line 300000)
        (trace (common.HandleServerInfoTask runtime.sample_state context.Background
                  (ServerInfoPayload.mk 1700000000 "periodic-monitor"))).
Proof.
  split; [split; [exact sample_state_wf|exact sample_state_gc]|].
  refine (proj1 (proj2 (X15_average_pause_value runtime.sample_state context.Background
                          (ServerInfoPayload.mk 1700000000 "periodic-monitor")
                          sample_state_wf sample_state_gc)) _).
  apply Z.leb_le. vm_compute. reflexivity.
Defined.




End MoreInstances.

(** * The weighted selection of the Dispatcher *)

Section Weights.
Import common driver core.

Lemma selected_period q k : selected server_queues q (k + 10) = selected server_queues q k.
Proof.
  unfold selected, select_queue. change (length (round server_queues)) with 10%nat.
  replace ((k + 10) mod 10)%nat with (k mod 10)%nat; [reflexivity|].
  rewrite <- (Nat.Div0.mod_add k 1 10). reflexivity.
Qed.

Lemma weight_cases q :
  (q = "critical" /\ weight server_queues q = 6%Z) \/ (q = "default" /\ weight server_queues q = 3%Z)
  \/ (q = "low" /\ weight server_queues q = 1%Z)
  \/ (~ In q (map fst server_queues) /\ weight server_queues q = 0%Z /\ forall k, selected server_queues q k = false).
Proof.
  unfold weight, server_queues. cbn [List.find fst snd].
  destruct (String.eqb_spec "critical" q) as [<-|H1]; [left; split; reflexivity|].
  destruct (String.eqb_spec "default" q) as [<-|H2]; [right; left; split; reflexivity|].
  destruct (String.eqb_spec "low" q) as [<-|H3]; [right; right; left; split; reflexivity|].
  right; right; right. split; [|split; [reflexivity|]].
  - cbn. intuition congruence.
  - intros k. unfold selected, select_queue. change (length (round _)) with 10%nat.
    assert (Hk : (k mod 10 < 10)%nat) by (apply Nat.mod_upper_bound; lia).
    change (round _) with (round server_queues).
    destruct (nth_error (round server_queues) (k mod 10)) as [q'|] eqn:E; [|reflexivity].
    apply nth_error_In in E. apply String.eqb_neq. intros ->.
    change (round server_queues) with
      ["critical"; "critical"; "critical"; "critical"; "critical"; "critical";
       "default"; "default"; "default"; "low"] in E.
    repeat (destruct E as [E|E]; [congruence|]). destruct E.
Qed.

Lemma opportunities_round q :
  opportunities server_queues q 10 = Z.to_nat (weight server_queues q).
Proof.
  destruct (weight_cases q) as [[-> ->]|[[-> ->]|[[-> ->]|(_ & -> & Hs)]]];
    try reflexivity.
  cbn [opportunities]. rewrite !Hs. reflexivity.
Qed.

Lemma opportunities_window q s :
  opportunities server_queues q (s + 10) = (opportunities server_queues q s + Z.to_nat (weight server_queues q))%nat.
Proof.
  induction s as [|s IH]; [apply opportunities_round|].
  change (S s + 10)%nat with (S (s + 10)). cbn [opportunities].
  rewrite IH, selected_period. lia.
Qed.

Lemma opportunities_rounds q n :
  opportunities server_queues q (10 * n) = (Z.to_nat (weight server_queues q) * n)%nat.
Proof.
  induction n as [|n IH]; [rewrite !Nat.mul_0_r; reflexivity|].
  replace (10 * S n)%nat with (10 * n + 10)%nat by lia.
  rewrite opportunities_window, IH. lia.
Qed.

Lemma opportunities_mono q n m :
  (n <= m)%nat -> (opportunities server_queues q n <= opportunities server_queues q m)%nat.
Proof.
  induction 1 as [|m Hle IH]; [lia|]. cbn [opportunities]. lia.
Qed.

Lemma opportunities_bound q N :
  (Z.to_nat (weight server_queues q) * (N / 10) <= opportunities server_queues q N
   <= Z.to_nat (weight server_queues q) * (N / 10) + Z.to_nat (weight server_queues q))%nat.
Proof.
  pose proof (Nat.div_mod_eq N 10) as HN.
  pose proof (Nat.mod_upper_bound N 10 ltac:(lia)) as Hr.
  split.
  - rewrite <- opportunities_rounds. apply opportunities_mono. lia.
  - rewrite <- (opportunities_rounds q (N / 10)), <- opportunities_window.
    apply opportunities_mono. lia.
Qed.

Lemma window_selects q s :
  In q (map fst server_queues) ->
  exists k, (s <= k < s + 10)%nat /\ select_queue server_queues k = Some q.
Proof.
  intros Hq.
  assert (Hw : (0 < Z.to_nat (weight server_queues q))%nat).
  { destruct (weight_cases q) as [[-> ->]|[[-> ->]|[[-> ->]|(Hn & _)]]];
      [lia|lia|lia|contradiction]. }
  pose proof (opportunities_window q s) as Hwin.
  assert (Hex : forall n, (opportunities server_queues q s < opportunities server_queues q (s + n))%nat ->
                  exists k, (s <= k < s + n)%nat /\ selected server_queues q k = true).
  { induction n as [|n IH]; intros Hlt.
    - rewrite Nat.add_0_r in Hlt. lia.
    - replace (s + S n)%nat with (S (s + n)) in Hlt by lia. cbn [opportunities] in Hlt.
      destruct (selected server_queues q (s + n)) eqn:E.
      + exists (s + n)%nat. split; [lia|exact E].
      + destruct IH as (k & Hk & Hs); [lia|]. exists k. split; [lia|exact Hs]. }
  destruct (Hex 10%nat ltac:(lia)) as (k & Hk & Hs).
  exists k. split; [exact Hk|].
  unfold selected in Hs. destruct (select_queue server_queues k) as [q'|]; [|discriminate].
  apply String.eqb_eq in Hs. subst. reflexivity.
Qed.


Lemma select_some slot :
  exists q, select_queue server_queues slot = Some q /\ In q (map fst server_queues).
Proof.
  unfold select_queue. change (length (round server_queues)) with 10%nat.
  assert (Hk : (slot mod 10 < 10)%nat) by (apply Nat.mod_upper_bound; lia).
  destruct (nth_error (round server_queues) (slot mod 10)) as [q|] eqn:E.
  - exists q. split; [reflexivity|]. apply nth_error_In in E.
    change (round server_queues) with
      ["critical"; "critical"; "critical"; "critical"; "critical"; "critical";
       "default"; "default"; "default"; "low"] in E.
    cbn [map fst server_queues].
    repeat (destruct E as [<-|E]; [simpl; tauto|]). destruct E.
  - apply nth_error_None in E. change (length (round server_queues)) with 10%nat in E. lia.
Qed.

Lemma is_ready_claim now lease q st i st' j :
  claim i now lease st = Some st' ->
  is_ready now q st' j = is_ready now q st j && negb (Nat.eqb j i).
Proof.
  unfold claim. destruct (tasks st !! i) as [e|] eqn:Ei; [|discriminate].
  destruct (decide (state e = pending)) as [Hp|]; [|discriminate].
  destruct (process_at e <=? now)%Z; [|discriminate].
  intros H. injection H as <-. unfold is_ready. cbn [tasks].
  destruct (Nat.eqb_spec j i) as [->|Hne].
  - rewrite lookup_insert_eq. cbn [with_state state]. rewrite andb_false_r. reflexivity.
  - rewrite lookup_insert_ne by congruence. rewrite andb_true_r. reflexivity.
Qed.

Lemma claim_next_id now lease st i st' :
  claim i now lease st = Some st' -> next_id st' = next_id st.
Proof.
  unfold claim. destruct (tasks st !! i) as [e|]; [|discriminate].
  destruct (decide (state e = pending)); [|discriminate].
  destruct (process_at e <=? now)%Z; [|discriminate].
  intros H. injection H as <-. reflexivity.
Qed.

Lemma filter_remove_one (P : nat -> bool) i l :
  List.NoDup l ->
  (length (List.filter P l)
   <= S (length (List.filter (fun j => P j && negb (Nat.eqb j i)) l)))%nat.
Proof.
  induction 1 as [|x l Hx Hnd IH]; [cbn; lia|].
  cbn [List.filter]. destruct (Nat.eqb_spec x i) as [->|Hne].
  - rewrite andb_false_r.
    assert (E : List.filter (fun j => P j && negb (Nat.eqb j i)) l = List.filter P l).
    { apply List.filter_ext_in. intros j Hj.
      destruct (Nat.eqb_spec j i) as [->|]; [contradiction|]. apply andb_true_r. }
    rewrite E. destruct (P i); cbn [length]; lia.
  - rewrite andb_true_r. destruct (P x); cbn [length]; lia.
Qed.

Lemma backlog_claim now lease q st i st' :
  claim i now lease st = Some st' ->
  (backlog now q st <= S (backlog now q st'))%nat.
Proof.
  intros Hc. unfold backlog, ready_ids. rewrite (claim_next_id _ _ _ _ _ Hc).
  rewrite (List.filter_ext _ _ (fun j => is_ready_claim now lease q st i st' j Hc)).
  apply filter_remove_one. apply List.seq_NoDup.
Qed.

Lemma dequeue_ready now lease q st :
  (0 < backlog now q st)%nat ->
  exists i st' e,
    dequeue q now lease st = Some (i, st')
    /\ claim i now lease st = Some st'
    /\ tasks st !! i = Some e /\ queue e = q.
Proof.
  unfold backlog, dequeue. destruct (ready_ids now q st) as [|i l] eqn:E; [cbn; lia|].
  intros _.
  assert (Hi : In i (ready_ids now q st)) by (rewrite E; left; reflexivity).
  unfold ready_ids in Hi. apply List.filter_In in Hi as [_ Hr].
  unfold is_ready in Hr. destruct (tasks st !! i) as [e|] eqn:Ei; [|discriminate].
  apply andb_true_iff in Hr as [Hr Hq]. apply andb_true_iff in Hr as [Hp Ht].
  apply bool_decide_eq_true in Hp. apply String.eqb_eq in Hq.
  assert (Hc : claim i now lease st
               = Some (mkStore (<[i := with_state active e]> (tasks st))
                               (<[i := (now + lease)%Z]> (leases st)) (next_id st))).
  { unfold claim. rewrite Ei. destruct (decide (state e = pending)); [|contradiction].
    rewrite Ht. reflexivity. }
  eexists i, _, e. rewrite Hc. repeat split; assumption.
Qed.

Lemma dispatch_slot_backlogged now lease slot st :
  (forall q, In q (map fst server_queues) -> (0 < backlog now q st)%nat) ->
  exists q i st' e,
    select_queue server_queues slot = Some q
    /\ dispatch_slot server_queues slot now lease st = Some (i, st')
    /\ claim i now lease st = Some st'
    /\ tasks st !! i = Some e /\ queue e = q.
Proof.
  intros Hb. destruct (select_some slot) as (q & Hs & Hq).
  destruct (dequeue_ready now lease q st (Hb q Hq)) as (i & st' & e & Hd & Hc & He & Hqe).
  exists q, i, st', e. unfold dispatch_slot. rewrite Hs. cbn [dequeue_first]. rewrite Hd.
  repeat split; assumption.
Qed.

Lemma dispatch_count_cons q q' l :
  dispatch_count q (q' :: l)
  = ((if String.eqb q' q then 1 else 0) + dispatch_count q l)%nat.
Proof.
  unfold dispatch_count. cbn [List.filter]. rewrite (String.eqb_sym q q').
  destruct (String.eqb q' q); reflexivity.
Qed.

Lemma dispatches_backlogged now lease q n : forall slot st,
  (forall q', In q' (map fst server_queues) -> (n <= backlog now q' st)%nat) ->
  (dispatch_count q (dispatches server_queues now lease slot n st) + opportunities server_queues q slot
   = opportunities server_queues q (slot + n))%nat.
Proof.
  induction n as [|n IH]; intros slot st Hb.
  - rewrite Nat.add_0_r. reflexivity.
  - destruct (dispatch_slot_backlogged now lease slot st) as (qs & i & st' & e & Hs & Hd & Hc & He & Hq).
    { intros q' Hq'. specialize (Hb q' Hq'). lia. }
    cbn [dispatches]. rewrite Hd, He, Hq, dispatch_count_cons.
    assert (Hb' : forall q', In q' (map fst server_queues) -> (n <= backlog now q' st')%nat).
    { intros q' Hq'. specialize (Hb q' Hq').
      pose proof (backlog_claim now lease q' st i st' Hc). lia. }
    specialize (IH (S slot) st' Hb'). cbn [opportunities] in IH.
    unfold selected in IH. rewrite Hs in IH.
    replace (slot + S n)%nat with (S slot + n)%nat by lia. lia.
Qed.


Lemma new_server_config w ex c qs :
  execution w ex -> In (NewServer c qs) ex -> c = 5%Z /\ qs = server_queues.
Proof.
  intros Hex Hin.
  apply (execution_In_call _ _ (NewServer c qs) Hex eq_refl) in Hin.
  simpl in Hin. unfold enqueue_call in Hin.
  repeat match goal with
  | H : _ \/ _ |- _ => destruct H as [H|H]
  | H : False |- _ => destruct H
  | H : _ = NewServer _ _ |- _ => try discriminate H; injection H as <- <-
  end. split; reflexivity.
Qed.

(** Claim C7.  In every execution the server is configured with the
    weights critical 6, default 3, low 1.  Under the weighted
    round-robin, over any number of whole rounds of ten dispatch slots
    the dispatch opportunities of the three queues are exactly in the
    ratio 6:3:1; over any [N] slots the opportunities of a queue differ
    from its share [weight * N / 10] by at most its weight, so the
    observed shares converge to 6:3:1 as [N] grows; every queue has an
    opportunity in every ten consecutive slots, so none is starved; and
    while every queue holds ready tasks, the tasks the Dispatcher claims
    come from the queues in those very numbers. *)
Theorem C7_weighted_dispatch w ex c qs :
  execution w ex ->
  In (NewServer c qs) ex ->
  qs = [("critical", 6%Z); ("default", 3%Z); ("low", 1%Z)]
  /\ (forall n,
        opportunities qs "critical" (10 * n) = (6 * n)%nat
        /\ opportunities qs "default" (10 * n) = (3 * n)%nat
        /\ opportunities qs "low" (10 * n) = n)
  /\ (forall q N,
        (Z.to_nat (weight qs q) * (N / 10) <= opportunities qs q N
         <= Z.to_nat (weight qs q) * (N / 10) + Z.to_nat (weight qs q))%nat)
  /\ (forall q s, In q (map fst qs) ->
        exists k, (s <= k < s + 10)%nat /\ select_queue qs k = Some q)
  /\ (forall now lease n st q,
        (forall q', In q' (map fst qs) -> (n <= backlog now q' st)%nat) ->
        dispatch_count q (dispatches qs now lease 0 n st) = opportunities qs q n).
Proof.
  intros Hex Hin. destruct (new_server_config w ex c qs Hex Hin) as [_ ->].
  split; [reflexivity|]. fold server_queues. split; [|split; [|split]].
  - intros n. rewrite !opportunities_rounds. cbn. repeat split; lia.
  - apply opportunities_bound.
  - intros q s. apply window_selects.
  - intros now lease n st q Hb.
    pose proof (dispatches_backlogged now lease q n 0 st Hb) as H.
    cbn [opportunities plus] in H. lia.
Qed.

Lemma new_server_first :
  In (NewServer 5 server_queues) (consumer_first sample_world).
Proof. vm_compute. right. left. reflexivity. Qed.

Lemma fill_backlog q :
  In q (map fst server_queues) -> (10 <= backlog 0 q (fill 10 empty))%nat.
Proof.
  intros H. cbn in H. destruct H as [<-|[<-|[<-|[]]]]; vm_compute; lia.
Qed.

(** Claim C7 at the execution in which the consumer runs first, on a
    store with ten ready tasks in each queue. *)
Lemma C7_weighted_dispatch_witness :
  (execution sample_world (consumer_first sample_world)
   /\ In (NewServer 5 server_queues) (consumer_first sample_world))
  /\ dispatch_count "critical" (dispatches server_queues 0 30 0 10 (fill 10 empty)) = 6%nat
  /\ dispatch_count "default" (dispatches server_queues 0 30 0 10 (fill 10 empty)) = 3%nat
  /\ dispatch_count "low" (dispatches server_queues 0 30 0 10 (fill 10 empty)) = 1%nat.
Proof.
  split; [split; [apply consumer_first_execution|exact new_server_first]|].
  pose proof (proj2 (proj2 (proj2 (proj2
    (C7_weighted_dispatch sample_world (consumer_first sample_world) 5 server_queues
       (consumer_first_execution sample_world) new_server_first))))) as H.
  split; [|split].
  - exact (H 0%Z 30%Z 10%nat (fill 10 empty) "critical" fill_backlog).
  - exact (H 0%Z 30%Z 10%nat (fill 10 empty) "default" fill_backlog).
  - exact (H 0%Z 30%Z 10%nat (fill 10 empty) "low" fill_backlog).
Defined.

End Weights.
